(** * OnePiece offline backend: a shallow embedding of the acquisition and
      notification pipeline (utils.py, notification.py, web_push.py,
      downloader.py, scheduler.py) and the properties checked against it. *)

From Stdlib Require Import ZArith Lia Ascii String List Bool.
From stdpp Require Import base tactics option list gmap strings pretty sorting.

Local Open Scope string_scope.
Local Open Scope list_scope.
Local Open Scope Z_scope.

(** ** Python values, exceptions and built-ins used by the backend *)

Module Py.

(** The exception classes that the backend raises or lets through.
    [JSONDecodeError] is a subclass of [ValueError] in Python's json module.
    [HTTPError], [InvalidURL] and [RequestException] come from requests:
    [InvalidURL] stands for the exceptions of requests that inherit from
    both [RequestException] and [ValueError], which it raises for a URL it
    cannot use ([MissingSchema], [InvalidSchema], [InvalidURL]);
    [RequestException] stands for the others (connection errors, timeouts),
    which are no [ValueError]. *)
Inductive exn : Type :=
  | KeyError (msg : string)
  | ValueError (msg : string)
  | JSONDecodeError
  | RuntimeError (msg : string)
  | HTTPError (status : Z)
  | InvalidURL
  | RequestException
  | OSError (what : string)
  | SMTPException.

(** [isinstance(e, ValueError)], as used by [except ValueError]. *)
Definition is_ValueError (e : exn) : bool :=
  match e with
  | ValueError _ | JSONDecodeError | InvalidURL => true
  | _ => false
  end.

Definition is_RuntimeError (e : exn) : bool :=
  match e with RuntimeError _ => true | _ => false end.

(** A call either returns a value or raises. *)
Inductive result (A : Type) : Type :=
  | Ok (a : A)
  | Raise (e : exn).
Arguments Ok {A} a.
Arguments Raise {A} e.

#[global] Instance result_ret : MRet result := fun _ a => Ok a.
#[global] Instance result_bind : MBind result := fun _ _ f m =>
  match m with Ok a => f a | Raise e => Raise e end.

#[global] Instance result_fmap : FMap result := fun _ _ f m =>
  match m with Ok a => Ok (f a) | Raise e => Raise e end.

Definition is_ok {A} (r : result A) : bool :=
  match r with Ok _ => true | Raise _ => false end.

(** Python truthiness of [Optional[int]] and [Optional[str]] values, and the
    [x or y] operator on them. *)
Definition truthy_str (o : option string) : bool :=
  match o with Some s => negb (String.eqb s "") | None => false end.

Definition or_int (x : option Z) (y : Z) : Z :=
  match x with Some n => if n =? 0 then y else n | None => y end.

Definition or_str (x : option string) (y : string) : string :=
  match x with Some s => if String.eqb s "" then y else s | None => y end.

(** Text is held as its UTF-8 bytes, so comparing strings byte by byte is
    comparing them code point by code point, as Python does.

    White space is what [str.isspace] and [\s] in a [str] pattern accept:
    U+0009 to U+000D, U+001C to U+0020, U+0085, U+00A0, U+1680, U+2000 to
    U+200A, U+2028, U+2029, U+202F, U+205F and U+3000. [is_space] decides
    it for the characters of one byte, [is_space2] and [is_space3] for
    those of two and three bytes. *)
Definition is_space (c : ascii) : bool :=
  let n := nat_of_ascii c in
  ((9 <=? n) && (n <=? 13) || (28 <=? n) && (n <=? 32))%nat.

Definition is_space2 (a b : ascii) : bool :=
  let x := N_of_ascii a in
  let y := N_of_ascii b in
  ((x =? 0xC2) && ((y =? 0x85) || (y =? 0xA0)))%N.

Definition is_space3 (a b c : ascii) : bool :=
  let x := N_of_ascii a in
  let y := N_of_ascii b in
  let z := N_of_ascii c in
  ((x =? 0xE1) && ((y =? 0x9A) && (z =? 0x80))
   || (x =? 0xE2) && ((y =? 0x80)
                      && ((0x80 <=? z) && (z <=? 0x8A)
                          || (z =? 0xA8) || (z =? 0xA9) || (z =? 0xAF)))
   || (x =? 0xE2) && ((y =? 0x81) && (z =? 0x9F))
   || (x =? 0xE3) && ((y =? 0x80) && (z =? 0x80)))%N.

(** The text after one white-space character at the head of a text. *)
Definition space_prefix (s : string) : option string :=
  match s with
  | String c s1 =>
      if is_space c then Some s1
      else
        match s1 with
        | String c2 s2 =>
            if is_space2 c c2 then Some s2
            else
              match s2 with
              | String c3 s3 => if is_space3 c c2 c3 then Some s3 else None
              | EmptyString => None
              end
        | EmptyString => None
        end
  | EmptyString => None
  end.

(** What is left once [\s*] has taken all the white space it finds at the
    head of a text. *)
Fixpoint skip_space (s : string) : string :=
  match s with
  | String c s1 =>
      if is_space c then skip_space s1
      else
        match s1 with
        | String c2 s2 =>
            if is_space2 c c2 then skip_space s2
            else
              match s2 with
              | String c3 s3 => if is_space3 c c2 c3 then skip_space s3 else s
              | EmptyString => s
              end
        | EmptyString => s
        end
  | EmptyString => s
  end.

(** A text made of white-space characters only. *)
Fixpoint all_space (s : string) : bool :=
  match s with
  | String c s1 =>
      if is_space c then all_space s1
      else
        match s1 with
        | String c2 s2 =>
            if is_space2 c c2 then all_space s2
            else
              match s2 with
              | String c3 s3 => is_space3 c c2 c3 && all_space s3
              | EmptyString => false
              end
        | EmptyString => false
        end
  | EmptyString => true
  end.

Definition is_digit (c : ascii) : bool :=
  let n := nat_of_ascii c in ((48 <=? n) && (n <=? 57))%nat.

Definition digit_val (c : ascii) : Z := Z.of_nat (nat_of_ascii c) - 48.

Fixpoint string_rev_onto (acc s : string) : string :=
  match s with
  | String c s' => string_rev_onto (String c acc) s'
  | EmptyString => acc
  end.

Definition string_rev (s : string) : string := string_rev_onto "" s.

(** The blanks that the parser of integer literals skips on either side
    of a literal: C's [isspace] in the C locale, the characters U+0009 to
    U+000D and the space. The separators U+001C to U+001F are white space
    for [str.isspace] but are not skipped here. *)
Definition is_blank (c : ascii) : bool :=
  let n := nat_of_ascii c in (((9 <=? n) && (n <=? 13)) || (n =? 32))%nat.

Fixpoint skip_blanks (s : string) : string :=
  match s with
  | String c s' => if is_blank c then skip_blanks s' else s
  | EmptyString => EmptyString
  end.

Definition strip_blanks (s : string) : string :=
  string_rev (skip_blanks (string_rev (skip_blanks s))).

(** Digits of an integer literal: at least one digit, single underscores
    allowed between digits only. [prev] says the previous character was a
    digit. *)
Fixpoint parse_digits (acc : Z) (prev : bool) (s : string) : option Z :=
  match s with
  | EmptyString => if prev then Some acc else None
  | String c s' =>
      if is_digit c then parse_digits (10 * acc + digit_val c) true s'
      else if Ascii.eqb c "_" && prev then
        match s' with
        | EmptyString => None
        | _ => parse_digits acc false s'
        end
      else None
  end.

(** [int(s)] for a text of ASCII characters: blanks on either side are
    dropped, one sign is allowed, the digits are decimal. [None] stands for
    [ValueError]. *)
Definition int_ascii (s : string) : option Z :=
  match strip_blanks s with
  | String "-" d => Z.opp <$> parse_digits 0 false d
  | String "+" d => parse_digits 0 false d
  | d => parse_digits 0 false d
  end.

Fixpoint is_ascii (s : string) : bool :=
  match s with
  | EmptyString => true
  | String c s' => (N_of_ascii c <? 128)%N && is_ascii s'
  end.

(** [int(s)]. A text that holds a character outside ASCII is first
    rewritten by the interpreter with its table of Unicode characters
    (white space becomes a blank, a decimal digit of any script the ASCII
    digit of its value); that table belongs to the interpreter, not to the
    program, and [unicode_int] stands for what [int] makes of such a text.
    The limit that recent interpreters put on the number of digits of a
    literal (4300 by default) is left out, as it is for [str] of an
    integer. *)
Definition int (unicode_int : string -> option Z) (s : string) : option Z :=
  if is_ascii s then int_ascii s else unicode_int s.

(** [max(xs)] of a non-empty list of integers. *)
Definition max_list (x : Z) (xs : list Z) : Z := foldl Z.max x xs.

(** [needle in haystack] for strings, and what it decides. *)
Fixpoint contains (needle s : string) : bool :=
  String.prefix needle s ||
  match s with
  | String _ s' => contains needle s'
  | EmptyString => false
  end.

Definition occurs_in (needle s : string) : Prop :=
  exists pre post, s = pre +:+ needle +:+ post.

(** The text after a literal prefix. *)
Fixpoint strip_prefix (p s : string) : option string :=
  match p, s with
  | EmptyString, _ => Some s
  | String a p', String b s' => if Ascii.eqb a b then strip_prefix p' s' else None
  | String _ _, EmptyString => None
  end.

(** The text after the leftmost occurrence of a literal. *)
Fixpoint find_after (p s : string) : option string :=
  match strip_prefix p s with
  | Some rest => Some rest
  | None =>
      match s with
      | String _ s' => find_after p s'
      | EmptyString => None
      end
  end.

(** [s.split(sep)[-1]] for a one-character separator: the text after the
    last separator, the whole string when there is none. *)
Fixpoint last_segment_aux (sep : ascii) (cur s : string) : string :=
  match s with
  | EmptyString => string_rev cur
  | String c s' =>
      if Ascii.eqb c sep then last_segment_aux sep "" s'
      else last_segment_aux sep (String c cur) s'
  end.

Definition last_segment (sep : ascii) (s : string) : string :=
  last_segment_aux sep "" s.

(** [sorted(l, key=key)] and [list.sort(key=key)]: a stable sort, written as
    the insertion sort that puts an element before the first element of the
    already sorted tail whose key is not smaller. Every stable sort gives
    the same list. *)
Section Sorting.
Context {A K : Type} (key : A -> K) (le : K -> K -> bool).

Fixpoint insert_by (x : A) (l : list A) : list A :=
  match l with
  | [] => [x]
  | y :: l' =>
      if le (key x) (key y) then x :: y :: l' else y :: insert_by x l'
  end.

Definition sorted (l : list A) : list A := foldr insert_by [] l.

Definition key_le (x y : A) : Prop := le (key x) (key y) = true.
End Sorting.

End Py.

Import Py.

(** ** The file system seen through pathlib *)

Module FS.

(** A [pathlib.Path] as its components, in the order written. [..] is kept
    (pathlib does not collapse it); empty and [.] components are dropped
    when a path is built. *)
Definition path : Type := list string.

Inductive node : Type :=
  | File (data : string)
  | Dir.

(** Files and directories by resolved location. The empty location is the
    directory paths are resolved from; it always exists. *)
Abbreviation fs := (gmap (list string) node).

Definition node_at (s : fs) (loc : path) : option node :=
  match loc with
  | [] => Some Dir
  | _ => s !! loc
  end.

Definition is_dir_at (s : fs) (loc : path) : bool :=
  match node_at s loc with Some Dir => true | _ => false end.

(** One step of name resolution from the directory at [cur]. *)
Definition step (cur : path) (c : string) : path :=
  if String.eqb c ".." then removelast cur else cur ++ [c].

(** Resolution of a path by the operating system (no symbolic links): every
    component is looked up in a directory. The result is the location the
    path names, whether or not something exists there. *)
Fixpoint walk (s : fs) (cur : path) (comps : list string) : option path :=
  match comps with
  | [] => Some cur
  | c :: rest => if is_dir_at s cur then walk s (step cur c) rest else None
  end.

Definition stat (s : fs) (p : path) : option node :=
  loc ← walk s [] p; node_at s loc.

(** [Path.exists()], [Path.is_dir()], [Path.name], [Path.parent] and
    [dir / component] for a component without a separator. *)
Definition exists_ (s : fs) (p : path) : bool :=
  match stat s p with Some _ => true | None => false end.

Definition is_dir (s : fs) (p : path) : bool :=
  match stat s p with Some Dir => true | _ => false end.

Definition name (p : path) : string := List.last p "".

Definition parent (p : path) : path := removelast p.

Definition joinpath (d : path) (c : string) : path :=
  if String.eqb c "" || String.eqb c "." then d else d ++ [c].

(** [Path.mkdir(parents=True, exist_ok=True)]: every directory on the way is
    created when absent; a file in the way raises. *)
Fixpoint mkdir_from (s : fs) (cur : path) (comps : list string) : result fs :=
  match comps with
  | [] => Ok s
  | c :: rest =>
      let loc := step cur c in
      match node_at s loc with
      | Some (File _) => Raise (OSError "mkdir: not a directory")
      | Some Dir => mkdir_from s loc rest
      | None => mkdir_from (<[loc := Dir]> s) loc rest
      end
  end.

Definition mkdir_parents (s : fs) (p : path) : result fs := mkdir_from s [] p.

(** [open(p, "rb").read()]. *)
Definition read_file (s : fs) (p : path) : result string :=
  match stat s p with
  | Some (File data) => Ok data
  | Some Dir => Raise (OSError "open: is a directory")
  | None => Raise (OSError "open: no such file")
  end.

(** [with open(p, "wb") as f: f.write(data)]. The file is created (or
    truncated) at the location [p] names, then filled. [fault] is what the
    disk does to this write: [None] lets it complete, [Some n] makes it fail
    once [n] bytes are in the file. *)
Definition write_file (fault : option nat) (s : fs) (p : path) (data : string)
  : fs * result unit :=
  match walk s [] p with
  | None => (s, Raise (OSError "open: no such directory"))
  | Some loc =>
      match node_at s loc with
      | Some Dir => (s, Raise (OSError "open: is a directory"))
      | _ =>
          match fault with
          | None => (<[loc := File data]> s, Ok ())
          | Some n =>
              (<[loc := File (String.substring 0 n data)]> s,
               Raise (OSError "write failed"))
          end
      end
  end.

(** What the operations of the backend never undo: a directory stays a
    directory and a file stays a file (its content may change). *)
Definition same_kind (a b : option node) : Prop :=
  match a, b with
  | None, _ => True
  | Some Dir, Some Dir => True
  | Some (File _), Some (File _) => True
  | _, _ => False
  end.

Definition grows (s s' : fs) : Prop :=
  forall loc, same_kind (node_at s loc) (node_at s' loc).

End FS.

(** ** utils.py *)

Module Utils.

Record response : Type := {
  status_code : Z;
  (** [resp.text] and [resp.content] *)
  body : string;
}.

(** [resp.raise_for_status()] *)
Definition raise_for_status (r : response) : result unit :=
  if (400 <=? status_code r) && (status_code r <? 600)
  then Raise (HTTPError (status_code r)) else Ok ().

(** One object of the catalogue's [entries] array, at the types the site
    serves and the docstring of [fetch_mangaliste_entries] gives: [id] and
    [number] are integers and [name] is a text. [None] is an absent key;
    only [number] and [name] are read by the backend. An array with an
    element that is no object, or with a number that is no integer, has no
    counterpart here: the statements about entries speak of catalogues of
    this shape. *)
Record entry : Type := {
  entry_id : option Z;
  number : option Z;
  entry_name : option string;
}.

(** One page descriptor and the [window.__data] object of a chapter page.
    [None] is an absent key. *)
Record page : Type := { url : option string }.

Record chapter_obj : Type := {
  chapter_name : option string;
  chapter_pages : option (list page);
}.

Record chapter_data : Type := { chapter : option chapter_obj }.

(** What lies outside the program: the site, as a function from the URL
    requested to the response ([None]: requests raises); whether the
    exception is then one of those that are a [ValueError] as well, as for
    a URL that requests refuses as unusable (no scheme, a scheme without
    connection adapter, no host); and [json.loads]
    followed by the reading of the decoded value at the shape its caller
    uses ([None]: [JSONDecodeError]). *)
Record remote : Type := {
  http_get : string -> option response;
  bad_url : string -> bool;
  json_entries : string -> option (list entry);
  json_data : string -> option chapter_data;
}.

(** The exception of a request for [u] that gives no response. *)
Definition request_error (w : remote) (u : string) : exn :=
  if bad_url w u then InvalidURL else RequestException.

(** [s.rstrip("/")] *)
Fixpoint rstrip_slash (s : string) : string :=
  match s with
  | EmptyString => EmptyString
  | String c s' =>
      match rstrip_slash s' with
      | EmptyString => if Ascii.eqb c "/" then EmptyString else String c EmptyString
      | t => String c t
      end
  end.

(** The text up to the first occurrence of a character, without it. *)
Fixpoint until_char (c : ascii) (s : string) : option string :=
  match s with
  | EmptyString => None
  | String a s' =>
      if Ascii.eqb a c then Some EmptyString else String a <$> until_char c s'
  end.

(** The catalogue pattern with DOTALL: the literal [entries], a double
    quote, a colon and an opening bracket, then the shortest text up to a
    closing bracket. The result is group 1 of the leftmost match. *)
Definition entries_literal : string := "entries" +:+ String "034" ":[".

Definition re_search_entries (html : string) : option string :=
  rest ← find_after entries_literal html; until_char "]" rest.

Definition mangaliste_url (base_url : string) : string :=
  rstrip_slash base_url +:+ "/manga/kapitel-mangaliste".

Definition fetch_mangaliste_entries (w : remote) (base_url : string)
  : result (list entry) :=
  let url := mangaliste_url base_url in
  match http_get w url with
  | None => Raise (request_error w url)
  | Some resp =>
      _ ← raise_for_status resp;
      match re_search_entries (body resp) with
      | None =>
          Raise (RuntimeError "Could not locate entries array in mangaliste page")
      | Some group =>
          match json_entries w ("[" +:+ group +:+ "]") with
          | None => Raise JSONDecodeError
          | Some entries => Ok entries
          end
      end
  end.

(** The ways the catalogue fetch raises: the request raises, the status is
    an error, the page holds no entries array, or the array is not JSON. *)
Definition fetch_fails (w : remote) (base : string) : Prop :=
  match http_get w (mangaliste_url base) with
  | None => True
  | Some resp =>
      (400 <= status_code resp < 600)
      \/ re_search_entries (body resp) = None
      \/ (exists g, re_search_entries (body resp) = Some g
                    /\ json_entries w ("[" +:+ g +:+ "]") = None)
  end.

(** The pattern [window\.__data\s*=\s*(\{.*?\})\s*;] with DOTALL.
    [lazy_body] is [.*?\}] followed by [\s*;]: the shortest text ending in a
    closing brace after which only white space precedes a semicolon. None
    of the characters the pattern names is white space or part of the
    encoding of a character of several bytes, so that taking all the white
    space there is never loses a match. *)
Fixpoint lazy_body (s : string) : option string :=
  match s with
  | EmptyString => None
  | String c s' =>
      if Ascii.eqb c "}" && String.prefix ";" (skip_space s')
      then Some (String c EmptyString)
      else String c <$> lazy_body s'
  end.

Definition match_data_here (s : string) : option string :=
  r1 ← strip_prefix "window.__data" s;
  r2 ← strip_prefix "=" (skip_space r1);
  r3 ← strip_prefix "{" (skip_space r2);
  g ← lazy_body r3;
  Some (String "{" g).

Fixpoint re_search_data (s : string) : option string :=
  match match_data_here s with
  | Some g => Some g
  | None =>
      match s with
      | String _ s' => re_search_data s'
      | EmptyString => None
      end
  end.

(** What the pattern describes, read off the regular expression: somewhere
    in the text stands [window.__data], an equals sign and a text in braces
    that is followed by a semicolon, with optional white space in between. *)
Definition data_block_in (s : string) : Prop :=
  exists pre ws1 ws2 inner ws3 post,
    all_space ws1 = true /\ all_space ws2 = true /\ all_space ws3 = true
    /\ s = pre +:+ "window.__data" +:+ ws1 +:+ "=" +:+ ws2 +:+ "{" +:+ inner
           +:+ "}" +:+ ws3 +:+ ";" +:+ post.

Definition unavailable_marker : string := "Dieses Kapitel ist aktuell nicht verf".

Definition chapter_url (base_url : string) (chapter : Z) : string :=
  rstrip_slash base_url +:+ "/manga/kapitel/" +:+ pretty chapter +:+ "/1".

Definition view_source_url (base_url : string) (chapter : Z) : string :=
  "view-source:" +:+ chapter_url base_url chapter.

(** The body the data block is extracted from: the view-source variant,
    or the body already fetched when that request raises or is an error. *)
Definition extraction_body (w : remote) (base_url : string) (chapter : Z)
    (html : string) : string :=
  match http_get w (view_source_url base_url chapter) with
  | Some vs_resp =>
      match raise_for_status vs_resp with
      | Ok _ => body vs_resp
      | Raise _ => html
      end
  | None => html
  end.

(** [fetch_chapter_data]: the URLs requested, in order, and the outcome. *)
Definition fetch_chapter_data (w : remote) (chapter : Z) (base_url : string)
  : list string * result chapter_data :=
  let cu := chapter_url base_url chapter in
  match http_get w cu with
  | None => ([cu], Raise (request_error w cu))
  | Some resp =>
      if status_code resp =? 404 then
        ([cu], Raise (ValueError
           ("Chapter " +:+ pretty chapter +:+ " is not available (404)")))
      else
        let html := body resp in
        if contains unavailable_marker html then
          ([cu], Raise (ValueError
             ("Chapter " +:+ pretty chapter
              +:+ " is currently unavailable on the site")))
        else
          let vs_html := extraction_body w base_url chapter html in
          ([cu; view_source_url base_url chapter],
           match re_search_data vs_html with
           | None =>
               Raise (RuntimeError
                 ("Could not locate window.__data JSON for chapter "
                  +:+ pretty chapter))
           | Some group =>
               match json_data w group with
               | None => Raise JSONDecodeError
               | Some data_obj => Ok data_obj
               end
           end)
  end.

End Utils.

(** ** web_push.py *)

Module WebPush.

(** A subscription dictionary as the browser sends it. [None] is an absent
    key; [sub_keys] is the nested [keys] dictionary. *)
Record subscription : Type := {
  endpoint : option string;
  sub_keys : option (gmap string string);
}.

Record push_payload : Type := {
  payload_title : string;
  payload_body : string;
  payload_chapter : option Z;
  payload_chapter_title : string;
  payload_url : string;
}.

(** What one call of pywebpush's [webpush] does. A [WebPushException]
    carries the [requests.Response] of the push service, here the status
    code of that response, or [None]. *)
Inductive push_outcome : Type :=
  | Delivered
  | PushFailed (response : option Z)
  | OtherError.

(** [bool(response)] for a [requests.Response]: its [__bool__] returns
    [ok], which is false for the status codes from 400 to 599. *)
Definition response_ok (status : Z) : bool :=
  negb ((400 <=? status) && (status <? 600)).

(** The handler's test
    [e.response and e.response.status_code in [404, 410]]. *)
Definition marks_invalid (response : option Z) : bool :=
  match response with
  | Some status => response_ok status && ((status =? 404) || (status =? 410))
  | None => false
  end.

Definition has_key (ks : gmap string string) (k : string) : bool :=
  match ks !! k with Some _ => true | None => false end.

(** The loop of [subscribe] over the stored subscriptions. *)
Inductive scan : Type := Found | NotFound | Broken.

Fixpoint scan_endpoint (subs : list subscription) (ep : string) : scan :=
  match subs with
  | [] => NotFound
  | existing :: subs' =>
      match endpoint existing with
      | None => Broken
      | Some ep' => if String.eqb ep' ep then Found else scan_endpoint subs' ep
      end
  end.

(** [subscribe]: the stored list afterwards and the value returned. Any
    exception inside is caught and gives [False]. *)
Definition subscribe (subs : list subscription) (s : subscription)
  : list subscription * bool :=
  match endpoint s, sub_keys s with
  | Some ep, Some ks =>
      if has_key ks "p256dh" && has_key ks "auth" then
        match scan_endpoint subs ep with
        | Found => (subs, true)
        | NotFound => (subs ++ [s], true)
        | Broken => (subs, false)
        end
      else (subs, false)
  | _, _ => (subs, false)
  end.

(** The comprehension of [unsubscribe]; [sub['endpoint']] raises on a
    dictionary without that key. *)
Fixpoint keep_other (subs : list subscription) (ep : string)
  : result (list subscription) :=
  match subs with
  | [] => Ok []
  | sub :: subs' =>
      match endpoint sub with
      | None => Raise (KeyError "endpoint")
      | Some ep' =>
          rest ← keep_other subs' ep;
          Ok (if String.eqb ep' ep then rest else sub :: rest)
      end
  end.

Definition unsubscribe (subs : list subscription) (ep : string)
  : list subscription * result bool :=
  match keep_other subs ep with
  | Ok kept => (kept, Ok (Nat.ltb (length kept) (length subs)))
  | Raise e => (subs, Raise e)
  end.

(** The delivery loop of [send_notification]: successful sends, the
    subscriptions to remove and the attempts made, in order. *)
Fixpoint deliver (push : subscription -> push_payload -> push_outcome)
    (payload : push_payload) (subs : list subscription)
  : Z * list subscription * list subscription :=
  match subs with
  | [] => (0, [], [])
  | sub :: subs' =>
      let '(n, failed, tried) := deliver push payload subs' in
      match push sub payload with
      | Delivered => (n + 1, failed, sub :: tried)
      | PushFailed response =>
          if marks_invalid response then (n, sub :: failed, sub :: tried)
          else (n, failed, sub :: tried)
      | OtherError => (n, failed, sub :: tried)
      end
  end.

(** The removal loop of [send_notification]. *)
Fixpoint remove_failed (subs failed : list subscription)
  : list subscription * result unit :=
  match failed with
  | [] => (subs, Ok ())
  | failed_sub :: failed' =>
      match endpoint failed_sub with
      | None => (subs, Raise (KeyError "endpoint"))
      | Some ep =>
          match unsubscribe subs ep with
          | (subs', Ok _) => remove_failed subs' failed'
          | (subs', Raise e) => (subs', Raise e)
          end
      end
  end.

(** [send_notification]: the stored list afterwards, the attempts made and
    the number of successful sends. *)
Definition send_notification
    (push : subscription -> push_payload -> push_outcome)
    (subs : list subscription) (payload : push_payload)
  : list subscription * list subscription * result Z :=
  match subs with
  | [] => (subs, [], Ok 0)
  | _ =>
      let '(successful_sends, failed, tried) := deliver push payload subs in
      match remove_failed subs failed with
      | (subs', Ok _) => (subs', tried, Ok successful_sends)
      | (subs', Raise e) => (subs', tried, Raise e)
      end
  end.

Definition get_subscription_count (subs : list subscription) : Z :=
  Z.of_nat (length subs).

(** The operations that change the stored list, for reachability. *)
Inductive op : Type :=
  | OpSubscribe (s : subscription)
  | OpUnsubscribe (ep : string)
  | OpSend (push : subscription -> push_payload -> push_outcome)
           (payload : push_payload).

Definition run_op (subs : list subscription) (o : op) : list subscription :=
  match o with
  | OpSubscribe s => fst (subscribe subs s)
  | OpUnsubscribe ep => fst (unsubscribe subs ep)
  | OpSend push payload => fst (fst (send_notification push subs payload))
  end.

(** The service starts with no subscription. *)
Definition run (ops : list op) : list subscription := foldl run_op [] ops.

Definition endpoints (subs : list subscription) : list (option string) :=
  map endpoint subs.

(** A subscription that passes the validation of [subscribe]. *)
Definition well_formed (s : subscription) : bool :=
  match endpoint s, sub_keys s with
  | Some _, Some ks => has_key ks "p256dh" && has_key ks "auth"
  | _, _ => false
  end.

(** The invariant of the stored list: every element passed the validation
    of [subscribe], and no endpoint occurs twice. *)
Definition inv (subs : list subscription) : Prop :=
  NoDup (endpoints subs) /\ Forall (fun s => well_formed s = true) subs.

(** The test of the comprehension of [unsubscribe]. *)
Definition other (ep : string) (s : subscription) : bool :=
  negb (bool_decide (endpoint s = Some ep)).

End WebPush.

(** ** notification.py *)

Module Notification.
Import Utils.

(** A value of the SMTP configuration dictionary. *)
Inductive pyval : Type :=
  | PyNone
  | PyStr (s : string)
  | PyInt (n : Z).

(** The arguments of one call of [send_email_notification]. *)
Record mail : Type := {
  smtp_server : pyval;
  smtp_port : pyval;
  username : pyval;
  password : pyval;
  sender : pyval;
  recipient : string;
  subject : string;
  mail_body : string;
}.

(** A format string whose fields are among [number] and [title], as the
    function [str.format] computes from it. *)
Definition template : Type := option Z -> string -> string.

(** [str(x)] for an [Optional[int]]. *)
Definition str_opt (n : option Z) : string :=
  match n with Some k => pretty k | None => "None" end.

Definition email_subject_template : template :=
  fun number _ => "Neues OnePiece Kapitel " +:+ str_opt number.

Definition email_body_template : template :=
  fun number title =>
    "Es ist ein neues Kapitel erschienen: " +:+ str_opt number +:+ " – "
    +:+ title +:+ ".".

Definition combined_subject_template : template :=
  fun number title =>
    "Neues One Piece Kapitel " +:+ str_opt number +:+ ": " +:+ title.

Definition newline : string := String "010" EmptyString.

Definition combined_body_template : template :=
  fun number title =>
    "Ein neues One Piece Kapitel ist verfügbar!" +:+ newline +:+ newline
    +:+ "Kapitel " +:+ str_opt number +:+ ": " +:+ title +:+ newline
    +:+ newline +:+ "Jetzt auf One Piece Offline herunterladen!".

(** The fields of a [ChapterNotifier] that change or are read. *)
Record notifier : Type := {
  base_url : string;
  smtp_config : gmap string pyval;
  entries : list entry;
}.

Definition set_entries (st : notifier) (es : list entry) : notifier :=
  {| base_url := base_url st; smtp_config := smtp_config st; entries := es |}.

Definition refresh (w : remote) (st : notifier) : notifier :=
  match fetch_mangaliste_entries w (base_url st) with
  | Ok es => set_entries st es
  | Raise _ => st
  end.

(** [ChapterNotifier(base_url, smtp_config=...)] *)
Definition init (w : remote) (base : string) (cfg : gmap string pyval)
  : notifier :=
  refresh w {| base_url := rstrip_slash base; smtp_config := cfg; entries := [] |}.

(** [entry.get("number", 0)] *)
Definition number_or_0 (e : entry) : Z := default 0 (number e).

Definition get_latest_number (st : notifier) : option Z :=
  match entries st with
  | [] => None
  | e :: es => Some (max_list (number_or_0 e) (map number_or_0 es))
  end.

(** Ascending order of number. *)
Definition number_le (a b : entry) : Prop := number_or_0 a <= number_or_0 b.

(** [x["number"]] for every element, as [sorted] evaluates its key. *)
Definition sort_keys (es : list entry) : result (list Z) :=
  match mapM number es with
  | Some ks => Ok ks
  | None => Raise (KeyError "number")
  end.

Definition check_for_update (w : remote) (st : notifier) (current_latest : Z)
  : notifier * result (list entry) :=
  let st' := refresh w st in
  let new_entries :=
    List.filter (fun e => number_or_0 e >? current_latest) (entries st') in
  (st', _ ← sort_keys new_entries; Ok (sorted number_or_0 Z.leb new_entries)).

Definition required_keys : list string :=
  ["host"; "port"; "username"; "password"; "sender"].

Definition missing_keys (cfg : gmap string pyval) : list string :=
  List.filter (fun k => match cfg !! k with None => true | Some _ => false end)
    required_keys.

(** [cfg[k]] *)
Definition getitem (cfg : gmap string pyval) (k : string) : result pyval :=
  match cfg !! k with Some v => Ok v | None => Raise (KeyError k) end.

(** [entry.get("name") or ""] *)
Definition title_or_empty (e : entry) : string := or_str (entry_name e) "".

(** The sending loop: the calls of [send_email_notification] made so far,
    in order, and the outcome. [smtp] says whether a call returns. *)
Fixpoint send_each (smtp : mail -> bool) (cfg : gmap string pyval)
    (recipient : string) (subject_template body_template : template)
    (new_entries : list entry) : list mail * result unit :=
  match new_entries with
  | [] => ([], Ok ())
  | e :: rest =>
      let title := title_or_empty e in
      match
        (host ← getitem cfg "host"; port ← getitem cfg "port";
         user ← getitem cfg "username"; pw ← getitem cfg "password";
         from ← getitem cfg "sender";
         Ok {| smtp_server := host; smtp_port := port; username := user;
               password := pw; sender := from; recipient := recipient;
               subject := subject_template (number e) title;
               mail_body := body_template (number e) title |})
      with
      | Raise err => ([], Raise err)
      | Ok m =>
          if smtp m then
            let '(calls, r) :=
              send_each smtp cfg recipient subject_template body_template rest
            in (m :: calls, r)
          else ([m], Raise SMTPException)
      end
  end.

Definition send_email_notifications (smtp : mail -> bool) (st : notifier)
    (new_entries : list entry) (recipient : string)
    (subject_template body_template : template) : list mail * result unit :=
  match new_entries with
  | [] => ([], Ok ())
  | _ =>
      match missing_keys (smtp_config st) with
      | [] =>
          send_each smtp (smtp_config st) recipient subject_template
            body_template new_entries
      | missing =>
          (* the order of the names in the message is that of a Python
             set, which is not fixed; here it is the order above *)
          ([], Raise (KeyError ("Missing SMTP config keys: "
                                +:+ String.concat ", " missing)))
      end
  end.

(** The dictionary returned by [send_combined_notifications]; the key
    [chapters] is absent for an empty batch. *)
Record summary : Type := {
  email_sent : Z;
  push_sent : Z;
  total_chapters : Z;
  chapters : option (list (option Z * string));
}.

(** [entry.get("name", f"Kapitel {number}")] *)
Definition title_or_default (e : entry) : string :=
  match entry_name e with
  | Some t => t
  | None => "Kapitel " +:+ str_opt (number e)
  end.

(** The element appended to [results["chapters"]] for an entry. *)
Definition processed (e : entry) : option Z * string :=
  (number e, title_or_default e).

Definition push_payload_for (e : entry) : WebPush.push_payload :=
  {| WebPush.payload_title := "Neues One Piece Kapitel " +:+ str_opt (number e);
     WebPush.payload_body := title_or_default e +:+ " ist jetzt verfügbar!";
     WebPush.payload_chapter := number e;
     WebPush.payload_chapter_title := title_or_default e;
     WebPush.payload_url := "/download/" +:+ str_opt (number e) |}.

(** The push loop inside its [try]: the stored subscriptions afterwards, the
    calls of [send_notification] made (one payload each), and the
    [push_sent] and [chapters] accumulated when the loop ends or an
    exception ends it. *)
Fixpoint push_each
    (push : WebPush.subscription -> WebPush.push_payload -> WebPush.push_outcome)
    (subs : list WebPush.subscription) (new_entries : list entry)
    (sent : Z) (done : list (option Z * string))
  : list WebPush.subscription * list WebPush.push_payload * Z
    * list (option Z * string) :=
  match new_entries with
  | [] => (subs, [], sent, done)
  | e :: rest =>
      let payload := push_payload_for e in
      match WebPush.send_notification push subs payload with
      | (subs', _, Ok push_count) =>
          let '(subs'', calls, sent', done') :=
            push_each push subs' rest (sent + push_count)
              (done ++ [processed e])
          in (subs'', payload :: calls, sent', done')
      | (subs', _, Raise _) => (subs', [payload], sent, done)
      end
  end.

(** [send_combined_notifications]: the e-mail calls, the stored push
    subscriptions afterwards, the push calls and the summary returned. *)
Definition send_combined_notifications (smtp : mail -> bool)
    (push : WebPush.subscription -> WebPush.push_payload -> WebPush.push_outcome)
    (st : notifier) (subs : list WebPush.subscription)
    (new_entries : list entry) (email_recipient : option string)
    (send_web_push : bool) (subject_template body_template : template)
  : list mail * list WebPush.subscription * list WebPush.push_payload * summary :=
  match new_entries with
  | [] =>
      ([], subs, [],
       {| email_sent := 0; push_sent := 0; total_chapters := 0;
          chapters := None |})
  | _ =>
      let total := Z.of_nat (length new_entries) in
      let '(mails, emailed) :=
        match email_recipient with
        | Some r =>
            if truthy_str email_recipient then
              match send_email_notifications smtp st new_entries r
                      subject_template body_template with
              | (mails, Ok _) => (mails, total)
              | (mails, Raise _) => (mails, 0)
              end
            else ([], 0)
        | None => ([], 0)
        end in
      if send_web_push then
        let '(subs', calls, sent, done) := push_each push subs new_entries 0 [] in
        (mails, subs', calls,
         {| email_sent := emailed; push_sent := sent; total_chapters := total;
            chapters := Some done |})
      else
        (mails, subs, [],
         {| email_sent := emailed; push_sent := 0; total_chapters := total;
            chapters := Some [] |})
  end.

End Notification.

(** ** downloader.py *)

Module Downloader.
Import Utils FS.

Record epub_image : Type := {
  file_name : string;
  media_type : string;
  content : string;
}.

Record epub_html : Type := {
  page_title : string;
  page_file_name : string;
  page_lang : string;
  page_img_src : string;
}.

Record epub_link : Type := {
  href : string;
  link_title : string;
  uid : string;
}.

(** The [EpubBook] handed to [epub.write_epub]. *)
Record epub_book : Type := {
  title : string;
  language : string;
  author : string;
  images : list epub_image;
  html_pages : list epub_html;
  toc : list epub_link;
  spine : list string;
}.

(** The libraries and the disk: [mimetypes.guess_type] on a file name, the
    bytes ebooklib writes for a book, and what the disk does to the write
    of a given path (see [FS.write_file]). *)
Record disk : Type := {
  guess_type : string -> option string;
  epub_bytes : epub_book -> string;
  write_fault : path -> option nat;
}.

(** What a call does besides changing files: the URLs it requests and the
    books it writes, in order. *)
Inductive event : Type :=
  | Requested (u : string)
  | WroteEpub (p : path) (book : epub_book).

(** [_download_image]. When [mkdir] raises nothing has been created. *)
Definition _download_image (w : remote) (d : disk) (u : string)
    (dest_path : path) (s : fs) : fs * list event * result unit :=
  if exists_ s dest_path then (s, [], Ok ())
  else
    match http_get w u with
    | None => (s, [Requested u], Raise (request_error w u))
    | Some resp =>
        match raise_for_status resp with
        | Raise e => (s, [Requested u], Raise e)
        | Ok _ =>
            match mkdir_parents s (parent dest_path) with
            | Raise e => (s, [Requested u], Raise e)
            | Ok s1 =>
                let '(s2, r) :=
                  write_file (write_fault d dest_path) s1 dest_path (body resp)
                in (s2, [Requested u], r)
            end
        end
    end.

(** The name of an image inside the book. *)
Definition image_href (n : string) : string := "images/" +:+ n.

(** [f"{idx:03d}"] for a positive index. *)
Definition pad3 (idx : nat) : string :=
  let digits := pretty (Z.of_nat idx) in
  if (idx <? 10)%nat then "00" +:+ digits
  else if (idx <? 100)%nat then "0" +:+ digits
  else digits.

(** The loop of [_create_epub] from index [idx] on: the image items, the
    pages and the table of contents, unless an image cannot be read. *)
Fixpoint epub_items (d : disk) (s : fs) (idx : nat) (image_files : list path)
  : result (list epub_image * list epub_html * list epub_link) :=
  match image_files with
  | [] => Ok ([], [], [])
  | img_path :: rest =>
      let fname := image_href (name img_path) in
      let mime := default "image/jpeg" (guess_type d (name img_path)) in
      img_content ← read_file s img_path;
      let seite := "Seite " +:+ pretty (Z.of_nat idx) in
      let page_file := "page_" +:+ pad3 idx +:+ ".xhtml" in
      '(imgs, pages, links) ← epub_items d s (S idx) rest;
      Ok ({| file_name := fname; media_type := mime; content := img_content |}
            :: imgs,
          {| page_title := seite; page_file_name := page_file;
             page_lang := "de"; page_img_src := fname |} :: pages,
          {| href := page_file; link_title := seite;
             uid := "page" +:+ pretty (Z.of_nat idx) |} :: links)
  end.

Definition build_book (d : disk) (s : fs) (chapter : Z) (title : string)
    (image_files : list path) : result epub_book :=
  '(imgs, pages, links) ← epub_items d s 1 image_files;
  Ok {| title := "One Piece – Kapitel " +:+ pretty chapter +:+ ": " +:+ title;
        language := "de"; author := "Eiichiro Oda";
        images := imgs; html_pages := pages; toc := links;
        spine := "nav" :: map page_file_name pages |}.

Definition _create_epub (d : disk) (chapter : Z) (title : string)
    (image_files : list path) (output_path : path) (s : fs)
  : fs * list event * result unit :=
  match build_book d s chapter title image_files with
  | Raise e => (s, [], Raise e)
  | Ok book =>
      match mkdir_parents s (parent output_path) with
      | Raise e => (s, [], Raise e)
      | Ok s1 =>
          let '(s2, r) :=
            write_file (write_fault d output_path) s1 output_path
              (epub_bytes d book)
          in (s2, [WroteEpub output_path book], r)
      end
  end.

(** The page loop of [download_chapter]: the files afterwards, the events
    and the local paths in arrival order. *)
Fixpoint download_pages (w : remote) (d : disk) (images_dir : path)
    (pages : list page) (s : fs) : fs * list event * result (list path) :=
  match pages with
  | [] => (s, [], Ok [])
  | pg :: rest =>
      match url pg with
      | Some u =>
          if truthy_str (Some u) then
            let filename := last_segment "/" u in
            let dest_path := joinpath images_dir filename in
            match _download_image w d u dest_path s with
            | (s1, log, Raise e) => (s1, log, Raise e)
            | (s1, log, Ok _) =>
                let '(s2, log', r) := download_pages w d images_dir rest s1 in
                (s2, log ++ log', cons dest_path <$> r)
            end
          else download_pages w d images_dir rest s
      | None => download_pages w d images_dir rest s
      end
  end.

Definition epub_name (chapter : Z) : string :=
  "onepiece_" +:+ pretty chapter +:+ ".epub".

Definition chapter_dir_of (storage_dir : path) (chapter : Z) : path :=
  joinpath storage_dir (pretty chapter).

Definition images_dir_of (storage_dir : path) (chapter : Z) : path :=
  joinpath (chapter_dir_of storage_dir chapter) "images".

(** The local path of every page that has a URL, in the order the resolver
    returned the pages, and the file names of these paths. *)
Definition local_paths (images_dir : path) (pages : list page) : list path :=
  omap (fun pg =>
          match url pg with
          | Some u =>
              if truthy_str (Some u)
              then Some (joinpath images_dir (last_segment "/" u)) else None
          | None => None
          end) pages.


(** [d[k]] on the decoded chapter object *)
Definition require {A} (k : string) (o : option A) : result A :=
  match o with Some a => Ok a | None => Raise (KeyError k) end.

(** [data["chapter"]["name"]] and [data["chapter"]["pages"]], in that
    order *)
Definition title_and_pages (data : chapter_data) : result (string * list page) :=
  ch ← require "chapter" (Utils.chapter data);
  title ← require "name" (chapter_name ch);
  pages ← require "pages" (chapter_pages ch);
  Ok (title, pages).

Definition download_chapter (w : remote) (d : disk) (storage_dir : path)
    (base_url : string) (chapter : Z) (s : fs)
  : fs * list event * result path :=
  let '(urls, fetched) := fetch_chapter_data w chapter base_url in
  let log0 := map Requested urls in
  match fetched ≫= title_and_pages with
  | Raise e => (s, log0, Raise e)
  | Ok (title, pages) =>
      let chapter_dir := chapter_dir_of storage_dir chapter in
      let images_dir := images_dir_of storage_dir chapter in
      match mkdir_parents s images_dir with
      | Raise e => (s, log0, Raise e)
      | Ok s1 =>
          match download_pages w d images_dir pages s1 with
          | (s2, log1, Raise e) => (s2, log0 ++ log1, Raise e)
          | (s2, log1, Ok image_paths) =>
              let image_paths := sorted name String.leb image_paths in
              let epub_path := joinpath chapter_dir (epub_name chapter) in
              let '(s3, log2, r) :=
                _create_epub d chapter title image_paths epub_path s2 in
              (s3, log0 ++ log1 ++ log2, _ ← r; Ok epub_path)
          end
      end
  end.

End Downloader.

(** ** scheduler.py *)

Module Scheduler.

(** One element of [storage_dir.iterdir()]. *)
Record dir_entry : Type := {
  entry_name : string;
  entry_is_dir : bool;
}.

(** The list [numbers] built by the loop of [_get_highest_downloaded]. *)
Definition numbers (unicode_int : string -> option Z)
    (listing : list dir_entry) : list Z :=
  omap (fun sub =>
          if entry_is_dir sub then Py.int unicode_int (entry_name sub)
          else None)
    listing.

Definition _get_highest_downloaded (unicode_int : string -> option Z)
    (listing : list dir_entry) : option Z :=
  match numbers unicode_int listing with
  | [] => None
  | n :: ns => Some (max_list n ns)
  end.

(** The value [__init__] gives [current_latest]:
    [downloaded or (notifier.get_latest_number() or 0)]. *)
Definition initial_current_latest (unicode_int : string -> option Z)
    (listing : list dir_entry) (st : Notification.notifier) : Z :=
  let downloaded := _get_highest_downloaded unicode_int listing in
  or_int downloaded (or_int (Notification.get_latest_number st) 0).

End Scheduler.

(** ** Concrete inputs used by the examples below *)

Module Examples.
Import Utils.

Definition numbered (n : Z) : entry :=
  {| entry_id := None; number := Some n; entry_name := None |}.

Definition unnumbered (t : string) : entry :=
  {| entry_id := None; number := None; entry_name := Some t |}.

(** A site that answers no request. *)
Definition offline : remote :=
  {| http_get := fun _ => None;
     bad_url := fun _ => false;
     json_entries := fun _ => None;
     json_data := fun _ => None |}.

Definition notifier_with (es : list entry) : Notification.notifier :=
  {| Notification.base_url := "https://onepiece.tube";
     Notification.smtp_config := ∅;
     Notification.entries := es |}.

(** An interpreter that reads no text with a character outside ASCII as
    an integer. *)
Definition ascii_only : string -> option Z := fun _ => None.


(** A complete SMTP configuration and a server that refuses every mail. *)
Definition smtp_complete : gmap string Notification.pyval :=
  <["host" := Notification.PyStr "smtp.example.com"]>
    (<["port" := Notification.PyInt 465]>
       (<["username" := Notification.PyStr "luffy"]>
          (<["password" := Notification.PyStr "meat"]>
             (<["sender" := Notification.PyStr "noreply@example.com"]> ∅)))).

Definition notifier_smtp (es : list entry) : Notification.notifier :=
  {| Notification.base_url := "https://onepiece.tube";
     Notification.smtp_config := smtp_complete;
     Notification.entries := es |}.

Definition smtp_down : Notification.mail -> bool := fun _ => false.

(** One browser subscription, and a push service that delivers. *)
Definition browser : WebPush.subscription :=
  {| WebPush.endpoint := Some "https://push.example.com/abc";
     WebPush.sub_keys := Some (<["p256dh" := "BPk"]> (<["auth" := "s3"]> ∅)) |}.

Definition push_delivers
  : WebPush.subscription -> WebPush.push_payload -> WebPush.push_outcome :=
  fun _ _ => WebPush.Delivered.

Definition chapter_1156 : entry :=
  {| entry_id := Some 1350; number := Some 1156;
     entry_name := Some "Idole" |}.

(** A site that answers the request for the first page of chapter 1156
    with the given response and no other request. *)
Definition site_with (resp : response) : remote :=
  {| http_get := fun u =>
       if String.eqb u "https://onepiece.tube/manga/kapitel/1156/1"
       then Some resp else None;
     bad_url := fun _ => false;
     json_entries := fun _ => None;
     json_data := fun _ => None |}.

Definition plain_page : response :=
  {| status_code := 200; body := "<html><body>One Piece</body></html>" |}.


Definition good_disk : Downloader.disk :=
  {| Downloader.guess_type := fun _ => Some "image/jpeg";
     Downloader.epub_bytes := fun _ => "EPUB";
     Downloader.write_fault := fun _ => None |}.



(** A site serving chapter 1156 with four pages that the resolver lists
    out of order (one of them a double page), and a page without URL. *)
Definition unordered_pages : list page :=
  [ {| url := Some "https://cdn.example.com/1156/05.jpg" |};
    {| url := Some "https://cdn.example.com/1156/01.jpg" |};
    {| url := None |};
    {| url := Some "https://cdn.example.com/1156/03-04.jpg" |};
    {| url := Some "https://cdn.example.com/1156/02.jpg" |} ].

Definition chapter_site : remote :=
  {| http_get := fun u =>
       if String.eqb u "https://onepiece.tube/manga/kapitel/1156/1" then
         Some {| status_code := 200;
                 body := "<script>window.__data = {CHAPTER} ;</script>" |}
       else if String.prefix "https://cdn.example.com/1156/" u then
         Some {| status_code := 200; body := "JPEG of " +:+ u |}
       else None;
     bad_url := fun _ => false;
     json_entries := fun _ => None;
     json_data := fun g =>
       if String.eqb g "{CHAPTER}" then
         Some {| chapter := Some {| chapter_name := Some "Idole";
                                    chapter_pages := Some unordered_pages |} |}
       else None |}.

End Examples.

(** ** utils.py: the remaining helpers *)

Module Helpers.
Import FS.

(** [ensure_dir(path)] *)
Definition ensure_dir (s : fs) (p : path) : result fs := mkdir_parents s p.

End Helpers.

(** ** The storage directory as the scheduler lists it *)

Module Storage.
Import FS.

(** The entry [iterdir] yields for the node at a location, when the
    location lies directly in the directory at [dir]. *)
Definition child_of (dir : path) (kn : path * node) : option Scheduler.dir_entry :=
  match kn.1 with
  | [] => None
  | _ =>
      if bool_decide (removelast kn.1 = dir) then
        Some {| Scheduler.entry_name := List.last kn.1 "";
                Scheduler.entry_is_dir :=
                  match kn.2 with Dir => true | File _ => false end |}
      else None
  end.

(** [list(p.iterdir())]. The operating system fixes no order; the order
    here is that of the map. *)
Definition iterdir (s : fs) (p : path) : result (list Scheduler.dir_entry) :=
  match walk s [] p with
  | None => Raise (OSError "scandir: no such directory")
  | Some loc =>
      if is_dir_at s loc then Ok (omap (child_of loc) (map_to_list s))
      else Raise (OSError "scandir: not a directory")
  end.

End Storage.

(** ** scheduler.py: the periodic job *)

Module Job.
Import Utils FS.

(** The fields of an [UpdateScheduler] that are read or change; the first
    two are those of its downloader. *)
Record scheduler : Type := {
  storage_dir : path;
  downloader_base_url : string;
  notifier : Notification.notifier;
  recipient : option string;
  current_latest : Z;
}.

Definition set_notifier (sch : scheduler) (st : Notification.notifier)
  : scheduler :=
  {| storage_dir := storage_dir sch;
     downloader_base_url := downloader_base_url sch;
     notifier := st; recipient := recipient sch;
     current_latest := current_latest sch |}.

Definition set_current_latest (sch : scheduler) (n : Z) : scheduler :=
  {| storage_dir := storage_dir sch;
     downloader_base_url := downloader_base_url sch;
     notifier := notifier sch; recipient := recipient sch;
     current_latest := n |}.

(** [UpdateScheduler(downloader, notifier, recipient=...)] on the files
    [s]. *)
Definition init (unicode_int : string -> option Z) (dir : path)
    (base : string) (st : Notification.notifier) (to : option string) (s : fs)
  : result scheduler :=
  listing ← Storage.iterdir s dir;
  Ok {| storage_dir := dir; downloader_base_url := base; notifier := st;
        recipient := to;
        current_latest :=
          Scheduler.initial_current_latest unicode_int listing st |}.

(** What the loop of [_job] did for one entry that has a number: the
    outcome of [download_chapter] and, when it was called, the mails sent by
    [send_email_notifications] and its outcome. *)
Record attempt : Type := {
  attempt_number : Z;
  downloaded : result path;
  notified : option (list Notification.mail * result unit);
}.

(** [if self.recipient: self.notifier.send_email_notifications([entry],
    self.recipient)] *)
Definition notify (smtp : Notification.mail -> bool) (sch : scheduler)
    (e : entry) : option (list Notification.mail * result unit) :=
  match recipient sch with
  | Some to =>
      if truthy_str (Some to) then
        Some (Notification.send_email_notifications smtp (notifier sch) [e] to
                Notification.email_subject_template
                Notification.email_body_template)
      else None
  | None => None
  end.

(** The loop of [_job]: the scheduler and the files afterwards, what the
    downloader did and the attempts, in order. Every exception of an
    iteration is caught and the loop goes on. *)
Fixpoint job_loop (w : remote) (d : Downloader.disk)
    (smtp : Notification.mail -> bool) (sch : scheduler)
    (new_entries : list entry) (s : fs)
  : scheduler * fs * list Downloader.event * list attempt :=
  match new_entries with
  | [] => (sch, s, [], [])
  | e :: rest =>
      match number e with
      | None => job_loop w d smtp sch rest s
      | Some n =>
          let '(s1, log, r) :=
            Downloader.download_chapter w d (storage_dir sch)
              (downloader_base_url sch) n s in
          match r with
          | Raise err =>
              let '(sch', s2, log', done) := job_loop w d smtp sch rest s1 in
              (sch', s2, log ++ log',
               {| attempt_number := n; downloaded := Raise err;
                  notified := None |} :: done)
          | Ok p =>
              let sch1 :=
                set_current_latest sch (Z.max (current_latest sch) n) in
              let mailed := notify smtp sch1 e in
              let '(sch', s2, log', done) := job_loop w d smtp sch1 rest s1 in
              (sch', s2, log ++ log',
               {| attempt_number := n; downloaded := Ok p;
                  notified := mailed |} :: done)
          end
      end
  end.

Definition _job (w : remote) (d : Downloader.disk)
    (smtp : Notification.mail -> bool) (sch : scheduler) (s : fs)
  : scheduler * fs * list Downloader.event * list attempt :=
  let '(st', checked) :=
    Notification.check_for_update w (notifier sch) (current_latest sch) in
  let sch0 := set_notifier sch st' in
  match checked with
  | Raise _ => (sch0, s, [], [])
  | Ok new_entries => job_loop w d smtp sch0 new_entries s
  end.

(** The numbers of the attempts whose download returned. *)
Definition succeeded (done : list attempt) : list Z :=
  omap (fun a => if is_ok (downloaded a) then Some (attempt_number a) else None)
    done.

End Job.

(** ** app.py: the handlers *)

Module App.
Import Utils FS.

(** [detail] of an [HTTPException]: a fixed text or [str(exc)]. *)
Inductive detail : Type :=
  | Text (s : string)
  | StrOf (e : exn).

(** What a handler does: it returns a body under a status, raises an
    [HTTPException], or lets an exception through. *)
Inductive answer (A : Type) : Type :=
  | Returned (status : Z) (payload : A)
  | HTTPException (status : Z) (why : detail)
  | Unhandled (e : exn).
Arguments Returned {A} status payload.
Arguments HTTPException {A} status why.
Arguments Unhandled {A} e.

(** [p.relative_to(base)] and [str(p)] on pure paths. *)
Fixpoint relative_to (p base : path) : result path :=
  match base, p with
  | [], _ => Ok p
  | b :: base', c :: p' =>
      if String.eqb b c then relative_to p' base'
      else Raise (ValueError "path is not in the subpath")
  | _ :: _, [] => Raise (ValueError "path is not in the subpath")
  end.

Definition str_path (p : path) : string :=
  match p with
  | [] => "."
  | _ => String.concat "/" p
  end.

(** The environment the module is loaded in, and [SMTP_CONFIG]. The
    conversion of the port raises when the variable is set to a non-empty
    text that is no integer. *)
Definition getenv_value (env : gmap string string) (k : string)
  : Notification.pyval :=
  match env !! k with
  | Some v => Notification.PyStr v
  | None => Notification.PyNone
  end.

Definition SMTP_CONFIG (unicode_int : string -> option Z)
    (env : gmap string string) : result (gmap string Notification.pyval) :=
  port ←
    (if truthy_str (env !! "SMTP_PORT") then
       match Py.int unicode_int (default "0" (env !! "SMTP_PORT")) with
       | Some n => Ok (Notification.PyInt n)
       | None => Raise (ValueError "invalid literal for int() with base 10")
       end
     else Ok Notification.PyNone);
  Ok (<["host" := getenv_value env "SMTP_HOST"]>
        (<["port" := port]>
           (<["username" := getenv_value env "SMTP_USERNAME"]>
              (<["password" := getenv_value env "SMTP_PASSWORD"]>
                 (<["sender" := getenv_value env "SMTP_SENDER"]> ∅))))).

(** The body of a successful [download_endpoint]. *)
Record download_body : Type := {
  body_chapter : Z;
  body_epub : string;
  body_title : string;
  body_status : string;
}.

(** [POST /api/chapters/{chapter}] for the downloader built on
    [storage_dir] and [base_url]. *)
Definition download_endpoint (w : remote) (d : Downloader.disk)
    (storage_dir : path) (base_url : string) (chapter : Z) (s : fs)
  : fs * list Downloader.event * answer download_body :=
  let '(s', log, r) :=
    Downloader.download_chapter w d storage_dir base_url chapter s in
  (s', log,
   match epub_path ← r; relative_to epub_path storage_dir with
   | Ok relative =>
       Returned 201
         {| body_chapter := chapter; body_epub := str_path relative;
            body_title := "Kapitel " +:+ pretty chapter;
            body_status := "downloaded" |}
   | Raise exc =>
       if is_ValueError exc then HTTPException 404 (StrOf exc)
       else HTTPException 500 (StrOf exc)
   end).


(** [POST /api/notify]: the notifier afterwards, the mails sent and the
    answer. Only the call of [send_email_notifications] stands in the
    [try], and only [KeyError] is caught. *)
Definition notify_endpoint (w : remote) (smtp : Notification.mail -> bool)
    (st : Notification.notifier) (current_latest : Z) (recipient : string)
  : Notification.notifier * list Notification.mail * answer (list Z) :=
  let '(st', checked) := Notification.check_for_update w st current_latest in
  match checked with
  | Raise e => (st', [], Unhandled e)
  | Ok new_entries =>
      let '(mails, sent) :=
        Notification.send_email_notifications smtp st' new_entries recipient
          Notification.email_subject_template
          Notification.email_body_template in
      (st', mails,
       match sent with
       | Raise (KeyError msg) => HTTPException 500 (StrOf (KeyError msg))
       | Raise e => Unhandled e
       | Ok _ =>
           (* [e["number"] for e in new_entries] *)
           match Notification.sort_keys new_entries with
           | Ok numbers => Returned 200 numbers
           | Raise e => Unhandled e
           end
       end)
  end.

(** [POST /api/push/subscribe]; the model [PushSubscription] has both
    fields. *)
Definition subscribe_to_push (subs : list WebPush.subscription)
    (ep : string) (ks : gmap string string)
  : list WebPush.subscription * answer string :=
  let '(subs', success) :=
    WebPush.subscribe subs
      {| WebPush.endpoint := Some ep; WebPush.sub_keys := Some ks |} in
  (subs',
   if success then Returned 200 "subscribed"
   else HTTPException 400 (Text "Failed to subscribe to push notifications")).

(** [name] matches the pattern [*<suffix>]; [name] matches [*.*] when it
    holds a dot. *)
Fixpoint ends_with (suffix name : string) : bool :=
  String.eqb name suffix ||
  match name with
  | String _ name' => ends_with suffix name'
  | EmptyString => false
  end.

(** [list(dir.glob(pattern))] for a pattern without a separator: the
    children of the directory whose name matches, in the order of the
    listing; nothing when the directory cannot be listed. *)
Definition glob (matches : string -> bool) (s : fs) (dir : path) : list path :=
  match Storage.iterdir s dir with
  | Ok listing =>
      map (fun e => dir ++ [Scheduler.entry_name e])
        (List.filter (fun e => matches (Scheduler.entry_name e)) listing)
  | Raise _ => []
  end.

(** One element of the answer of [list_chapters]. *)
Record chapter_item : Type := {
  item_chapter : Z;
  item_title : string;
  item_epub : string;
  item_pages : Z;
}.

(** The body of the loop of [list_chapters] for the child [name] of the
    storage directory: the element appended, if any. *)
Definition list_item (unicode_int : string -> option Z) (s : fs)
    (storage_dir : path) (name : string) : result (option chapter_item) :=
  let subdir := storage_dir ++ [name] in
  if negb (is_dir s subdir) then Ok None
  else
    match Py.int unicode_int name with
    | None => Ok None
    | Some chapter_int =>
        match glob (ends_with ".epub") s subdir with
        | [] => Ok None
        | epub0 :: _ =>
            epub_path ← relative_to epub0 storage_dir;
            Ok (Some
                  {| item_chapter := chapter_int;
                     item_title := "Kapitel " +:+ pretty chapter_int;
                     item_epub := str_path epub_path;
                     item_pages :=
                       if exists_ s (joinpath subdir "images") then
                         Z.of_nat (length (glob (contains ".") s
                                             (joinpath subdir "images")))
                       else 0 |})
        end
    end.

(** [GET /api/chapters] on the storage directory. *)
Definition list_chapters (unicode_int : string -> option Z) (s : fs)
    (storage_dir : path) : answer (list chapter_item) :=
  match
    (listing ← Storage.iterdir s storage_dir;
     found ← mapM (fun e =>
                     list_item unicode_int s storage_dir
                       (Scheduler.entry_name e))
               (sorted Scheduler.entry_name String.leb listing);
     Ok (sorted item_chapter Z.leb (omap id found)))
  with
  | Ok items => Returned 200 items
  | Raise e => Unhandled e
  end.

(** [GET /api/chapters/{chapter}/epub]: the file served. *)
Definition get_chapter_epub (s : fs) (storage_dir : path) (chapter : Z)
  : answer path :=
  match glob (ends_with ".epub") s (joinpath storage_dir (pretty chapter)) with
  | [] =>
      HTTPException 404
        (Text ("Chapter " +:+ pretty chapter +:+ " has not been downloaded"))
  | epub_path :: _ => Returned 200 epub_path
  end.

(** [POST /api/push/unsubscribe] *)
Definition unsubscribe_from_push (subs : list WebPush.subscription)
    (ep : string) : list WebPush.subscription * answer string :=
  match WebPush.unsubscribe subs ep with
  | (subs', Ok success) =>
      (subs', Returned 200 (if success then "unsubscribed" else "not_found"))
  | (subs', Raise e) => (subs', Unhandled e)
  end.

End App.

(** ** Vocabulary of the statements below *)

Module Says.

(** What one call of the push service says about a subscription. *)
Definition delivered
    (push : WebPush.subscription -> WebPush.push_payload -> WebPush.push_outcome)
    (payload : WebPush.push_payload) (s : WebPush.subscription) : bool :=
  match push s payload with WebPush.Delivered => true | _ => false end.

(** The mail [send_email_notifications] hands to the SMTP helper for an
    entry under a configuration. *)
Definition mail_for (cfg : gmap string Notification.pyval) (to : string)
    (subject_template body_template : Notification.template)
    (e : Utils.entry) : Notification.mail :=
  let get k := default Notification.PyNone (cfg !! k) in
  {| Notification.smtp_server := get "host";
     Notification.smtp_port := get "port";
     Notification.username := get "username";
     Notification.password := get "password";
     Notification.sender := get "sender";
     Notification.recipient := to;
     Notification.subject :=
       subject_template (Utils.number e) (Notification.title_or_empty e);
     Notification.mail_body :=
       body_template (Utils.number e) (Notification.title_or_empty e) |}.

(** A text of ASCII characters without blanks. *)
Fixpoint no_space (s : string) : bool :=
  match s with
  | EmptyString => true
  | String c s' =>
      (N_of_ascii c <? 128)%N && negb (is_blank c) && no_space s'
  end.

(** The file name of the page with index [idx] inside the book. *)
Definition page_file (idx : nat) : string :=
  "page_" +:+ Downloader.pad3 idx +:+ ".xhtml".



(** A page that [download_chapter] downloads: it has a non-empty URL. *)
Definition has_url (pg : Utils.page) : bool := truthy_str (Utils.url pg).

End Says.

(** * Properties *)

(** ** Built-ins *)

Lemma triple_eta {A B C : Type} (x : A * B * C) :
  x = (fst (fst x), snd (fst x), snd x).
Proof. now destruct x as [[a b] c]. Defined.

Section MaxList.

Lemma max_list_ge (xs : list Z) (x : Z) : x <= max_list x xs.
Proof.
  unfold max_list. revert x.
  induction xs as [|y ys IH]; intros x; simpl; [lia|].
  specialize (IH (Z.max x y)). lia.
Qed.

Lemma max_list_upper (xs : list Z) (x n : Z) :
  In n (x :: xs) -> n <= max_list x xs.
Proof.
  revert x. induction xs as [|y ys IH]; intros x Hn.
  - destruct Hn as [->|[]]. unfold max_list; simpl; lia.
  - change (max_list x (y :: ys)) with (max_list (Z.max x y) ys).
    pose proof (max_list_ge ys (Z.max x y)) as Hge.
    destruct Hn as [->|[->|Hn]]; [lia | lia |].
    apply IH. now right.
Qed.

Lemma max_list_In (xs : list Z) (x : Z) : In (max_list x xs) (x :: xs).
Proof.
  revert x. induction xs as [|y ys IH]; intros x.
  - now left.
  - change (max_list x (y :: ys)) with (max_list (Z.max x y) ys).
    destruct (IH (Z.max x y)) as [E|Hin].
    + rewrite <- E.
      destruct (Z.max_spec x y) as [[_ ->]|[_ ->]]; [right; now left | now left].
    + right; now right.
Qed.

End MaxList.

(** ** scheduler.py: the initial watermark *)

Section Watermark.
Import Scheduler.





End Watermark.

(** ** Sorting *)

Section SortingFacts.
Context {A K : Type} (key : A -> K) (le : K -> K -> bool).
Hypothesis le_total : forall a b, le a b = true \/ le b a = true.
Hypothesis le_trans : forall a b c, le a b = true -> le b c = true -> le a c = true.

Lemma insert_by_perm (x : A) (l : list A) : insert_by key le x l ≡ₚ x :: l.
Proof.
  induction l as [|y l IH]; simpl; [reflexivity|].
  destruct (le (key x) (key y)); [reflexivity|].
  rewrite IH. apply perm_swap.
Qed.

Lemma sorted_perm (l : list A) : sorted key le l ≡ₚ l.
Proof.
  induction l as [|x l IH]; simpl; [reflexivity|].
  rewrite insert_by_perm. now rewrite IH.
Qed.

Lemma insert_by_sorted (x : A) (l : list A) :
  StronglySorted (key_le key le) l ->
  StronglySorted (key_le key le) (insert_by key le x l).
Proof.
  induction 1 as [|y l Hl IH Hy]; simpl.
  - repeat constructor.
  - destruct (le (key x) (key y)) eqn:E.
    + constructor; [now constructor|].
      constructor; [exact E|].
      eapply Forall_impl; [exact Hy|].
      intros z Hz. unfold key_le in *. eauto.
    + constructor; [exact IH|].
      rewrite insert_by_perm. constructor; [|exact Hy].
      unfold key_le. destruct (le_total (key x) (key y)); congruence.
Qed.

Lemma sorted_sorted (l : list A) : StronglySorted (key_le key le) (sorted key le l).
Proof.
  induction l as [|x l IH]; simpl; [constructor|].
  now apply insert_by_sorted.
Qed.



End SortingFacts.

Lemma StronglySorted_weaken {A : Type} (R R' : A -> A -> Prop) (l : list A) :
  (forall a b, R a b -> R' a b) -> StronglySorted R l -> StronglySorted R' l.
Proof.
  intros HR. induction 1 as [|x l Hl IH Hx]; constructor; [exact IH|].
  eapply Forall_impl; [exact Hx|]. intros b Hb. now apply HR.
Qed.

Section StringOrder.

Lemma ascii_compare_refl (a : ascii) : Ascii.compare a a = Eq.
Proof. unfold Ascii.compare. apply N.compare_refl. Qed.

Lemma string_compare_le_trans (a b c : string) :
  String.compare a b <> Gt -> String.compare b c <> Gt ->
  String.compare a c <> Gt.
Proof.
  revert b c. induction a as [|x a IH]; intros [|y b] [|z c]; simpl;
    try congruence.
  destruct (Ascii.compare x y) eqn:E1; try congruence.
  - apply Ascii.compare_eq_iff in E1. subst y.
    destruct (Ascii.compare x z); try congruence. apply IH.
  - intros _. destruct (Ascii.compare y z) eqn:E2; try congruence.
    + apply Ascii.compare_eq_iff in E2. subst z. rewrite E1. congruence.
    + intros _. unfold Ascii.compare in *.
      rewrite N.compare_lt_iff in E1, E2.
      assert (N_of_ascii x < N_of_ascii z)%N as H by lia.
      rewrite <- N.compare_lt_iff in H. rewrite H. congruence.
Qed.

Lemma string_leb_trans (a b c : string) :
  String.leb a b = true -> String.leb b c = true -> String.leb a c = true.
Proof.
  unfold String.leb. intros H1 H2.
  pose proof (string_compare_le_trans a b c) as H.
  destruct (String.compare a b), (String.compare b c), (String.compare a c);
    try reflexivity; try discriminate; exfalso; apply H; congruence.
Qed.

#[local] Instance string_le_trans : Transitive (key_le (@id string) String.leb).
Proof. intros a b c. unfold key_le, id. apply string_leb_trans. Qed.

#[local] Instance string_le_antisym : AntiSymm eq (key_le (@id string) String.leb).
Proof. intros a b. unfold key_le, id. apply String.leb_antisym. Qed.


End StringOrder.

(** ** notification.py: refresh and update detection *)

Section UpdateDetection.
Import Utils Notification.

Lemma fetch_mangaliste_entries_raises (w : remote) (base : string) :
  fetch_fails w base <-> exists e, fetch_mangaliste_entries w base = Raise e.
Proof.
  unfold fetch_fails, fetch_mangaliste_entries. cbv zeta.
  destruct (http_get w _) as [resp|]; [|split; eauto].
  unfold raise_for_status.
  destruct ((400 <=? status_code resp) && (status_code resp <? 600)) eqn:E;
    cbn [mbind result_bind].
  - apply andb_true_iff in E. split; [eauto|]. intros _. left. lia.
  - apply andb_false_iff in E.
    destruct (re_search_entries (body resp)) as [g|] eqn:Eg.
    + destruct (json_entries w _) as [es|] eqn:Ej.
      * split; [|intros [e He]; discriminate He].
        intros [H|[H|(g' & Hg' & Hj)]]; [lia | discriminate |].
        injection Hg' as <-. congruence.
      * split; eauto 10.
    + split; eauto.
Qed.

(** C7: when fetching the catalogue raises, whatever the exception,
    [refresh] leaves the notifier, and so its cached entries, exactly as it
    was, and [check_for_update] then answers from that retained snapshot;
    this covers a request that raises, an error status, a page without the
    entries array and an array that is not valid JSON. *)
Theorem refresh_fail_soft (w : remote) (st : notifier) :
  (forall e,
      fetch_mangaliste_entries w (base_url st) = Raise e ->
      refresh w st = st
      /\ entries (refresh w st) = entries st
      /\ forall current_latest, fst (check_for_update w st current_latest) = st)
  /\ (fetch_fails w (base_url st) -> entries (refresh w st) = entries st).
Proof.
  split.
  - intros e H. unfold check_for_update, refresh. rewrite H. auto.
  - intros H. apply fetch_mangaliste_entries_raises in H. destruct H as [e H].
    unfold refresh. now rewrite H.
Qed.

Lemma refresh_fail_soft_witness :
  refresh Examples.offline (Examples.notifier_with [Examples.numbered 10])
  = Examples.notifier_with [Examples.numbered 10].
Proof.
  apply (proj1 (refresh_fail_soft Examples.offline _) RequestException).
  reflexivity.
Defined.

Lemma sort_keys_ok (es : list entry) :
  Forall (fun e => is_Some (number e)) es -> exists ks, sort_keys es = Ok ks.
Proof.
  intros H. unfold sort_keys.
  destruct (mapM number es) as [ks|] eqn:E; [eauto|].
  exfalso. apply (mapM_is_Some_2 number) in H. rewrite E in H.
  destruct H as [? H]. discriminate H.
Qed.

Lemma sorted_by_number (es : list entry) :
  StronglySorted number_le (sorted number_or_0 Z.leb es).
Proof.
  pose proof (sorted_sorted number_or_0 Z.leb) as H.
  eapply StronglySorted_weaken.
  2:{ apply H; intros; rewrite ?Z.leb_le in *; lia. }
  intros a b Hab. unfold key_le in Hab. unfold number_le. lia.
Qed.

(** What [check_for_update] returns when the sort key can be computed:
    every entry of the snapshot carries a number, or the watermark is not
    negative (then an entry without a number is not selected). The result
    holds exactly the entries above the watermark, in ascending order. *)
Lemma check_for_update_numbered (w : remote) (st : notifier) (current_latest : Z) :
  Forall (fun e => is_Some (number e)) (entries (refresh w st))
    \/ 0 <= current_latest ->
  exists out,
    check_for_update w st current_latest = (refresh w st, Ok out)
    /\ out ≡ₚ List.filter (fun e => number_or_0 e >? current_latest)
                (entries (refresh w st))
    /\ StronglySorted number_le out
    /\ (forall e, In e out <->
                  In e (entries (refresh w st)) /\ current_latest < number_or_0 e)
    /\ ((forall e, In e (entries (refresh w st)) ->
                   number_or_0 e <= current_latest) -> out = []).
Proof.
  intros H. unfold check_for_update.
  set (es := entries (refresh w st)) in *.
  set (new := List.filter _ es).
  assert (Forall (fun e => is_Some (number e)) new) as Hnum.
  { apply Forall_forall. intros e He.
    apply list_elem_of_In, filter_In in He. destruct He as [He Hgt].
    destruct H as [H|H].
    - rewrite Forall_forall in H. apply H. now apply list_elem_of_In.
    - unfold number_or_0 in Hgt. destruct (number e); [eauto|].
      simpl in Hgt. lia. }
  destruct (sort_keys_ok new Hnum) as [ks Hks]. rewrite Hks. simpl.
  exists (sorted number_or_0 Z.leb new).
  assert (sorted number_or_0 Z.leb new ≡ₚ new) as Hperm by apply sorted_perm.
  assert (forall e, In e (sorted number_or_0 Z.leb new) <->
                    In e es /\ current_latest < number_or_0 e) as Hmem.
  { intros e. rewrite <- list_elem_of_In, Hperm, list_elem_of_In.
    unfold new. rewrite filter_In. rewrite Z.gtb_ltb, Z.ltb_lt. reflexivity. }
  split; [reflexivity|]. split; [exact Hperm|].
  split; [apply sorted_by_number|]. split; [exact Hmem|].
  - intros Hnone.
    assert (new = []) as ->; [|reflexivity].
    destruct new as [|e new'] eqn:E; [reflexivity|].
    assert (In e (List.filter (fun e => number_or_0 e >? current_latest) es)) as Hin.
    { fold new. rewrite E. now left. }
    apply filter_In in Hin. destruct Hin as [Hin Hgt].
    apply Hnone in Hin. lia.
Qed.

(** The example of the specification: numbers 10, 12, 11 with watermark
    10 give the entries 11 then 12. *)
Example check_for_update_example :
  check_for_update Examples.offline
    (Examples.notifier_with
       [Examples.numbered 10; Examples.numbered 12; Examples.numbered 11]) 10
  = (Examples.notifier_with
       [Examples.numbered 10; Examples.numbered 12; Examples.numbered 11],
     Ok [Examples.numbered 11; Examples.numbered 12]).
Proof. reflexivity. Qed.

(** C5, where the code departs from it: an entry without a number passes
    the filter (its number counts as 0) when the watermark is negative,
    and the sort key [x["number"]] then raises [KeyError] instead of a
    list being returned. *)
Theorem check_for_update_unnumbered_raises :
  check_for_update Examples.offline
    (Examples.notifier_with [Examples.unnumbered "Romance Dawn"]) (-1)
  = (Examples.notifier_with [Examples.unnumbered "Romance Dawn"],
     Raise (KeyError "number")).
Proof. reflexivity. Qed.

End UpdateDetection.

(** ** notification.py: the e-mail channel *)

Section EmailChannel.
Import Utils Notification.

Lemma missing_keys_nonempty (cfg : gmap string pyval) (k : string) :
  In k required_keys -> cfg !! k = None -> missing_keys cfg <> [].
Proof.
  intros Hk Hnone Hnil.
  assert (In k (missing_keys cfg)) as Hin.
  { unfold missing_keys. apply filter_In. split; [exact Hk|]. now rewrite Hnone. }
  rewrite Hnil in Hin. exact Hin.
Qed.

Lemma send_each_no_KeyError (smtp : mail -> bool) (cfg : gmap string pyval)
    (recipient : string) (subject_template body_template : template)
    (new_entries : list entry) :
  missing_keys cfg = [] ->
  forall calls msg,
    send_each smtp cfg recipient subject_template body_template new_entries
    <> (calls, Raise (KeyError msg)).
Proof.
  intros Hcfg. unfold missing_keys, required_keys in Hcfg. simpl in Hcfg.
  destruct (cfg !! "host") as [h|] eqn:Eh; [|discriminate].
  destruct (cfg !! "port") as [p|] eqn:Ep; [|discriminate].
  destruct (cfg !! "username") as [u|] eqn:Eu; [|discriminate].
  destruct (cfg !! "password") as [pw|] eqn:Epw; [|discriminate].
  destruct (cfg !! "sender") as [sd|] eqn:Esd; [|discriminate].
  induction new_entries as [|e rest IH]; intros calls msg; simpl.
  - congruence.
  - unfold getitem. rewrite Eh, Ep, Eu, Epw, Esd. simpl.
    match goal with |- context [smtp ?m] => destruct (smtp m) end;
      [|congruence].
    destruct (send_each smtp cfg recipient subject_template body_template rest)
      as [calls' r] eqn:E.
    intros Heq. injection Heq as _ Hr. subst r. eapply IH. reflexivity.
Qed.

(** C9, as amended: when the SMTP configuration dictionary lacks one of
    the keys host, port, username, password, sender, a call with a
    non-empty batch raises [KeyError] and a call with an empty batch
    returns normally, in both cases without any send attempted; and under
    every configuration a [KeyError] comes before the first send. *)
Theorem send_email_notifications_incomplete_config (smtp : mail -> bool)
    (st : notifier) (new_entries : list entry) (recipient : string)
    (subject_template body_template : template) :
  (forall k,
      In k required_keys ->
      smtp_config st !! k = None ->
      exists r,
        send_email_notifications smtp st new_entries recipient
          subject_template body_template = ([], r)
        /\ match new_entries with
           | [] => r = Ok ()
           | _ :: _ => exists msg, r = Raise (KeyError msg)
           end)
  /\ (forall calls msg,
        send_email_notifications smtp st new_entries recipient
          subject_template body_template = (calls, Raise (KeyError msg)) ->
        calls = []).
Proof.
  split.
  - intros k Hk Hnone.
    pose proof (missing_keys_nonempty _ _ Hk Hnone) as Hmiss.
    unfold send_email_notifications.
    destruct new_entries as [|e rest]; [eauto|].
    destruct (missing_keys (smtp_config st)) as [|m ms]; [congruence|].
    eauto.
  - unfold send_email_notifications.
    destruct new_entries as [|e rest]; [congruence|].
    destruct (missing_keys (smtp_config st)) as [|m ms] eqn:E.
    + intros calls msg H. exfalso. eapply send_each_no_KeyError; eauto.
    + congruence.
Qed.

Lemma send_email_notifications_incomplete_config_witness :
  exists r,
    send_email_notifications (fun _ => true) (Examples.notifier_with [])
      [Examples.numbered 1156] "you@example.com"
      email_subject_template email_body_template = ([], r)
    /\ exists msg, r = Raise (KeyError msg).
Proof.
  apply (proj1 (send_email_notifications_incomplete_config (fun _ => true)
                  (Examples.notifier_with []) [Examples.numbered 1156]
                  "you@example.com" email_subject_template
                  email_body_template) "host").
  - simpl. auto.
  - reflexivity.
Defined.

(** C9 as stated fails: with an empty batch and an empty SMTP
    configuration the call returns normally, no [KeyError] is raised. *)
Lemma send_email_notifications_empty_batch_no_error :
  missing_keys (smtp_config (Examples.notifier_with [])) = required_keys
  /\ send_email_notifications (fun _ => true) (Examples.notifier_with [])
       [] "you@example.com" email_subject_template email_body_template
     = ([], Ok ()).
Proof. split; reflexivity. Qed.

End EmailChannel.

(** ** web_push.py: the stored subscriptions *)

Section Subscriptions.
Import WebPush.

Lemma well_formed_endpoint (s : subscription) :
  well_formed s = true -> exists ep, endpoint s = Some ep.
Proof. unfold well_formed. destruct (endpoint s); [eauto | discriminate]. Qed.

Lemma scan_endpoint_spec (subs : list subscription) (ep : string) :
  Forall (fun s => well_formed s = true) subs ->
  scan_endpoint subs ep =
    if bool_decide (Some ep ∈ endpoints subs) then Found else NotFound.
Proof.
  induction 1 as [|s subs Hs Hsubs IH]; cbn [scan_endpoint endpoints map].
  - case_bool_decide as H; [|reflexivity]. now apply elem_of_nil in H.
  - destruct (well_formed_endpoint s Hs) as [ep' Hep]. rewrite Hep.
    destruct (String.eqb_spec ep' ep) as [->|Hne].
    + rewrite bool_decide_eq_true_2; [reflexivity | apply elem_of_cons; now left].
    + rewrite IH.
      rewrite (bool_decide_ext (Some ep ∈ Some ep' :: map endpoint subs)
                 (Some ep ∈ endpoints subs)); [reflexivity|].
      rewrite elem_of_cons.
      split; [intros [H|H]; [congruence | exact H] | now right].
Qed.

Lemma keep_other_spec (subs : list subscription) (ep : string) :
  Forall (fun s => well_formed s = true) subs ->
  keep_other subs ep = Ok (List.filter (other ep) subs).
Proof.
  induction 1 as [|s subs Hs Hsubs IH]; simpl; [reflexivity|].
  destruct (well_formed_endpoint s Hs) as [ep' Hep]. rewrite Hep, IH. simpl.
  change (other ep s) with (negb (bool_decide (endpoint s = Some ep))).
  rewrite Hep.
  destruct (String.eqb_spec ep' ep) as [->|Hne].
  - rewrite bool_decide_eq_true_2; reflexivity.
  - rewrite bool_decide_eq_false_2; [reflexivity | congruence].
Qed.

Lemma filter_length_lt (ep : string) (subs : list subscription) :
  Nat.ltb (length (List.filter (other ep) subs)) (length subs)
  = bool_decide (Some ep ∈ endpoints subs).
Proof.
  induction subs as [|s subs IH]; cbn [List.filter length endpoints map].
  - case_bool_decide as H; [|reflexivity]. now apply elem_of_nil in H.
  - pose proof (filter_length_le (other ep) subs) as Hle.
    change (other ep s) with (negb (bool_decide (endpoint s = Some ep))).
    destruct (bool_decide (endpoint s = Some ep)) eqn:E; cbn [negb length].
    + apply bool_decide_eq_true_1 in E.
      rewrite bool_decide_eq_true_2; [|apply elem_of_cons; now left].
      apply Nat.ltb_lt. lia.
    + apply bool_decide_eq_false_1 in E.
      change (S (length (List.filter (other ep) subs)) <? S (length subs))%nat
        with (length (List.filter (other ep) subs) <? length subs)%nat.
      rewrite IH. apply bool_decide_ext. rewrite elem_of_cons.
      split; [now right|]. intros [H|H]; [congruence | exact H].
Qed.

Lemma unsubscribe_spec (subs : list subscription) (ep : string) :
  Forall (fun s => well_formed s = true) subs ->
  unsubscribe subs ep
  = (List.filter (other ep) subs, Ok (bool_decide (Some ep ∈ endpoints subs))).
Proof.
  intros H. unfold unsubscribe. rewrite keep_other_spec by exact H.
  now rewrite filter_length_lt.
Qed.

Lemma endpoints_filter_elem (P : subscription -> bool)
    (subs : list subscription) (e : option string) :
  e ∈ endpoints (List.filter P subs) -> e ∈ endpoints subs.
Proof.
  rewrite !list_elem_of_In. unfold endpoints. rewrite !in_map_iff.
  intros (s & Hs & Hin). apply filter_In in Hin. exists s. tauto.
Qed.

Lemma filter_inv (P : subscription -> bool) (subs : list subscription) :
  inv subs -> inv (List.filter P subs).
Proof.
  intros [Hnd Hwf]. split.
  - clear Hwf. induction subs as [|s subs IH]; simpl; [constructor|].
    apply NoDup_cons in Hnd. destruct Hnd as [Hs Hnd].
    destruct (P s); simpl; [|now apply IH].
    apply NoDup_cons. split; [|now apply IH].
    intros Hin. apply Hs. eapply endpoints_filter_elem, Hin.
  - apply Forall_forall. intros s Hs. rewrite Forall_forall in Hwf.
    apply Hwf. apply list_elem_of_In in Hs. apply filter_In in Hs.
    apply list_elem_of_In. tauto.
Qed.

Lemma unsubscribe_inv (subs : list subscription) (ep : string) :
  inv subs -> inv (fst (unsubscribe subs ep)).
Proof.
  intros H. rewrite unsubscribe_spec by apply H. now apply filter_inv.
Qed.

Lemma subscribe_spec (subs : list subscription) (s : subscription) :
  Forall (fun s => well_formed s = true) subs ->
  subscribe subs s =
    if well_formed s then
      if bool_decide (endpoint s ∈ endpoints subs) then (subs, true)
      else (subs ++ [s], true)
    else (subs, false).
Proof.
  intros H. unfold subscribe, well_formed.
  destruct (endpoint s) as [ep|]; [|reflexivity].
  destruct (sub_keys s) as [ks|]; [|reflexivity].
  destruct (has_key ks "p256dh" && has_key ks "auth"); [|reflexivity].
  rewrite scan_endpoint_spec by exact H.
  now destruct (bool_decide _).
Qed.

Lemma subscribe_inv (subs : list subscription) (s : subscription) :
  inv subs -> inv (fst (subscribe subs s)).
Proof.
  intros [Hnd Hwf]. rewrite subscribe_spec by exact Hwf.
  destruct (well_formed s) eqn:Es; [|now split].
  destruct (bool_decide _) eqn:E; [now split|].
  apply bool_decide_eq_false_1 in E. simpl. split.
  - unfold endpoints. rewrite map_app. simpl.
    apply NoDup_app. split; [exact Hnd|]. split.
    + intros e He ->%list_elem_of_singleton. now apply E.
    + apply NoDup_singleton.
  - apply Forall_app. split; [exact Hwf|]. now constructor.
Qed.

Lemma deliver_failed_well_formed
    (push : subscription -> push_payload -> push_outcome)
    (payload : push_payload) (subs : list subscription) :
  Forall (fun s => well_formed s = true) subs ->
  Forall (fun s => well_formed s = true) (snd (fst (deliver push payload subs))).
Proof.
  induction 1 as [|s subs Hs Hsubs IH]; simpl; [constructor|].
  destruct (deliver push payload subs) as [[n failed] tried]. simpl in *.
  destruct (push s payload) as [|response|]; simpl; auto.
  destruct (marks_invalid response); simpl; auto.
Qed.

Lemma remove_failed_ok (failed subs : list subscription) :
  Forall (fun s => well_formed s = true) failed ->
  inv subs ->
  inv (fst (remove_failed subs failed)) /\ snd (remove_failed subs failed) = Ok ().
Proof.
  intros Hf. revert subs.
  induction Hf as [|f failed Hfw Hfailed IH]; intros subs Hinv; simpl;
    [now split|].
  destruct (well_formed_endpoint f Hfw) as [ep Hep]. rewrite Hep.
  pose proof (unsubscribe_inv subs ep Hinv) as Hinv'.
  rewrite unsubscribe_spec in * by apply Hinv. simpl in Hinv'.
  now apply IH.
Qed.

(** On a stored list that satisfies the invariant, [send_notification]
    returns normally and keeps the invariant. *)
Lemma send_notification_ok
    (push : subscription -> push_payload -> push_outcome)
    (subs : list subscription) (payload : push_payload) :
  inv subs ->
  inv (fst (fst (send_notification push subs payload)))
  /\ exists n, snd (send_notification push subs payload) = Ok n.
Proof.
  intros Hinv. unfold send_notification.
  destruct subs as [|s subs]; [simpl; eauto|].
  pose proof (deliver_failed_well_formed push payload (s :: subs) (proj2 Hinv))
    as Hfailed.
  destruct (deliver push payload (s :: subs)) as [[n failed] tried].
  simpl in Hfailed.
  destruct (remove_failed_ok failed (s :: subs) Hfailed Hinv) as [Hinv' Hok].
  destruct (remove_failed (s :: subs) failed) as [subs' r]. simpl in *.
  subst r. simpl. eauto.
Qed.

Lemma run_op_inv (subs : list subscription) (o : op) :
  inv subs -> inv (run_op subs o).
Proof.
  intros H. destruct o as [s|ep|push payload]; simpl.
  - now apply subscribe_inv.
  - now apply unsubscribe_inv.
  - now apply send_notification_ok.
Qed.

Lemma run_inv (ops : list op) : inv (run ops).
Proof.
  unfold run. induction ops as [|o ops IH] using rev_ind; simpl.
  - split; constructor.
  - rewrite foldl_app. simpl. now apply run_op_inv.
Qed.

(** C10: in every state the service can reach, no two stored
    subscriptions have the same endpoint, and every operation leads to
    such a state again. On such a state [subscribe]
    rejects a structurally invalid subscription and stores nothing,
    returns [True] without appending when the endpoint is already stored,
    and appends otherwise; [unsubscribe] removes every subscription with
    the given endpoint and returns [True] exactly when one was stored. *)
Theorem subscriptions_unique_endpoints (ops : list op) :
  NoDup (endpoints (run ops))
  /\ (forall o, NoDup (endpoints (run_op (run ops) o)))
  /\ (forall s,
        subscribe (run ops) s =
          if well_formed s then
            if bool_decide (endpoint s ∈ endpoints (run ops))
            then (run ops, true)
            else (run ops ++ [s], true)
          else (run ops, false))
  /\ (forall ep,
        unsubscribe (run ops) ep
        = (List.filter (fun s => negb (bool_decide (endpoint s = Some ep)))
             (run ops),
           Ok (bool_decide (Some ep ∈ endpoints (run ops))))
        /\ Some ep ∉ endpoints (fst (unsubscribe (run ops) ep))).
Proof.
  destruct (run_inv ops) as [Hnd Hwf].
  split; [exact Hnd|]. split; [|split].
  - intros o. now apply run_op_inv.
  - intros s. now apply subscribe_spec.
  - intros ep. rewrite unsubscribe_spec by exact Hwf. split; [reflexivity|].
    simpl. rewrite list_elem_of_In. unfold endpoints. rewrite in_map_iff.
    intros (s & Hs & Hin).
    apply filter_In in Hin. destruct Hin as [_ Hin]. unfold other in Hin.
    rewrite bool_decide_eq_true_2 in Hin by exact Hs. discriminate Hin.
Qed.

End Subscriptions.

(** ** notification.py: independent channels *)

Section CombinedNotifications.
Import Utils Notification.

Lemma push_each_all
    (push : WebPush.subscription -> WebPush.push_payload -> WebPush.push_outcome)
    (new_entries : list entry) (subs : list WebPush.subscription)
    (sent : Z) (done : list (option Z * string)) :
  WebPush.inv subs ->
  WebPush.inv (fst (fst (fst (push_each push subs new_entries sent done))))
  /\ snd (fst (fst (push_each push subs new_entries sent done)))
     = map push_payload_for new_entries
  /\ snd (push_each push subs new_entries sent done)
     = done ++ map processed new_entries.
Proof.
  revert subs sent done.
  induction new_entries as [|e rest IH]; intros subs sent done Hinv; simpl.
  - now rewrite app_nil_r.
  - destruct (send_notification_ok push subs (push_payload_for e) Hinv)
      as [Hinv' [n Hn]].
    destruct (WebPush.send_notification push subs (push_payload_for e))
      as [[subs' tried] r]. simpl in Hinv', Hn. subst r.
    specialize (IH subs' (sent + n) (done ++ [processed e]) Hinv').
    destruct (push_each push subs' rest (sent + n) (done ++ [processed e]))
      as [[[subs'' calls] sent'] done'].
    simpl in *. destruct IH as (H1 & H2 & H3). subst calls done'.
    split; [exact H1|]. split; [reflexivity|].
    now rewrite <- app_assoc.
Qed.

(** C8: for a non-empty batch with both channels enabled, on any stored
    subscription list the service can reach: when the e-mail channel
    raises, [send_combined_notifications] still calls the push channel
    once for every entry of the batch, in order, and returns its summary,
    with no e-mail counted, every chapter of the batch listed as
    processed, and the push count and stored subscriptions that the
    push channel gives when no e-mail is requested at all. *)
Theorem send_combined_email_failure_isolated (smtp : mail -> bool)
    (push : WebPush.subscription -> WebPush.push_payload -> WebPush.push_outcome)
    (st : notifier) (ops : list WebPush.op) (new_entries : list entry)
    (recipient : string) (subject_template body_template : template)
    (mails : list mail) (e : exn) :
  new_entries <> [] ->
  truthy_str (Some recipient) = true ->
  send_email_notifications smtp st new_entries recipient subject_template
    body_template = (mails, Raise e) ->
  exists subs' result,
    send_combined_notifications smtp push st (WebPush.run ops) new_entries
      (Some recipient) true subject_template body_template
    = (mails, subs', map push_payload_for new_entries, result)
    /\ email_sent result = 0
    /\ total_chapters result = Z.of_nat (length new_entries)
    /\ chapters result = Some (map processed new_entries)
    /\ exists alone,
         send_combined_notifications smtp push st (WebPush.run ops)
           new_entries None true subject_template body_template
         = ([], subs', map push_payload_for new_entries, alone)
         /\ push_sent result = push_sent alone
         /\ chapters result = chapters alone.
Proof.
  intros Hne Htruthy Hmail.
  unfold send_combined_notifications.
  destruct new_entries as [|e0 rest]; [congruence|].
  rewrite Htruthy, Hmail.
  pose proof (push_each_all push (e0 :: rest) (WebPush.run ops) 0 []
                (run_inv ops)) as (_ & Hcalls & Hdone).
  destruct (push_each push (WebPush.run ops) (e0 :: rest) 0 [])
    as [[[subs' calls] sent] done].
  simpl in Hcalls, Hdone. subst calls done.
  eexists _, _. split; [reflexivity|]. simpl.
  repeat (split; [reflexivity|]).
  eexists. split; [reflexivity|]. split; reflexivity.
Qed.

Lemma send_combined_email_failure_isolated_witness :
  exists subs' result,
    send_combined_notifications Examples.smtp_down Examples.push_delivers
      (Examples.notifier_smtp [])
      (WebPush.run [WebPush.OpSubscribe Examples.browser])
      [Examples.chapter_1156; Examples.numbered 1157]
      (Some "you@example.com") true
      combined_subject_template combined_body_template
    = ([{| smtp_server := PyStr "smtp.example.com"; smtp_port := PyInt 465;
           username := PyStr "luffy"; password := PyStr "meat";
           sender := PyStr "noreply@example.com";
           recipient := "you@example.com";
           subject := combined_subject_template (Some 1156) "Idole";
           mail_body := combined_body_template (Some 1156) "Idole" |}],
       subs',
       map push_payload_for [Examples.chapter_1156; Examples.numbered 1157],
       result)
    /\ email_sent result = 0
    /\ push_sent result = 2.
Proof.
  destruct (send_combined_email_failure_isolated
              Examples.smtp_down Examples.push_delivers
              (Examples.notifier_smtp [])
              [WebPush.OpSubscribe Examples.browser]
              [Examples.chapter_1156; Examples.numbered 1157]
              "you@example.com"
              combined_subject_template combined_body_template
              _ SMTPException
              ltac:(discriminate) ltac:(reflexivity) ltac:(reflexivity))
    as (subs' & result & Heq & Hmail & _ & _ & alone & Halone & Hpush & _).
  exists subs', result. split; [exact Heq|]. split; [exact Hmail|].
  rewrite Hpush. vm_compute in Halone.
  injection Halone as _ <-. reflexivity.
Defined.

End CombinedNotifications.

(** ** utils.py: failure classes of [fetch_chapter_data] *)

Section ChapterData.
Import Utils.

Lemma app_cons_s (c : ascii) (s r : string) :
  String c s +:+ r = String c (s +:+ r).
Proof. reflexivity. Qed.

Lemma strip_prefix_app (p s r : string) :
  strip_prefix p s = Some r -> s = p +:+ r.
Proof.
  revert s. induction p as [|a p IH]; intros s; simpl.
  - now intros [= ->].
  - destruct s as [|b s]; [discriminate|].
    destruct (Ascii.eqb_spec a b) as [->|Hne]; [|discriminate].
    intros H. rewrite app_cons_s. f_equal. now apply IH.
Qed.

Lemma string_app_assoc (a b c : string) : (a +:+ b) +:+ c = a +:+ b +:+ c.
Proof.
  induction a as [|x a IH]; [reflexivity|]. now rewrite !app_cons_s, IH.
Qed.

(** White space, one character at a time. *)
Lemma skip_space_unfold (s : string) :
  skip_space s = match space_prefix s with Some r => skip_space r | None => s end.
Proof.
  destruct s as [|c [|c2 [|c3 s3]]]; simpl; try reflexivity.
  - now destruct (is_space c).
  - destruct (is_space c); [reflexivity|]. now destruct (is_space2 c c2).
  - destruct (is_space c); [reflexivity|].
    destruct (is_space2 c c2); [reflexivity|]. now destruct (is_space3 c c2 c3).
Qed.

Lemma all_space_unfold (s : string) :
  all_space s = match space_prefix s with
                | Some r => all_space r
                | None => match s with EmptyString => true | _ => false end
                end.
Proof.
  destruct s as [|c [|c2 [|c3 s3]]]; simpl; try reflexivity.
  - now destruct (is_space c).
  - destruct (is_space c); [reflexivity|]. now destruct (is_space2 c c2).
  - destruct (is_space c); [reflexivity|].
    destruct (is_space2 c c2); [reflexivity|]. now destruct (is_space3 c c2 c3).
Qed.

Lemma space_prefix_inv (s r : string) :
  space_prefix s = Some r ->
  (String.length r < String.length s)%nat
  /\ exists w, s = w +:+ r /\ forall t, space_prefix (w +:+ t) = Some t.
Proof.
  destruct s as [|c s1]; simpl; [discriminate|].
  destruct (is_space c) eqn:E1.
  { intros [= <-]. split; [lia|]. exists (String c ""). split; [reflexivity|].
    intros t. change (String c "" +:+ t) with (String c t). simpl.
    now rewrite E1. }
  destruct s1 as [|c2 s2]; [discriminate|].
  destruct (is_space2 c c2) eqn:E2.
  { intros [= <-]. split; [simpl; lia|]. exists (String c (String c2 "")).
    split; [reflexivity|]. intros t.
    change (String c (String c2 "") +:+ t) with (String c (String c2 t)).
    simpl. now rewrite E1, E2. }
  destruct s2 as [|c3 s3]; [discriminate|].
  destruct (is_space3 c c2 c3) eqn:E3; [|discriminate].
  intros [= <-]. split; [simpl; lia|].
  exists (String c (String c2 (String c3 ""))). split; [reflexivity|].
  intros t.
  change (String c (String c2 (String c3 "")) +:+ t)
    with (String c (String c2 (String c3 t))).
  simpl. now rewrite E1, E2, E3.
Qed.

(** A character of ASCII that is no white space starts no white space. *)
Lemma space_prefix_ascii (c : ascii) (r : string) :
  (N_of_ascii c <? 128)%N = true -> is_space c = false ->
  space_prefix (String c r) = None.
Proof.
  intros Hc Hs. apply N.ltb_lt in Hc. simpl. rewrite Hs.
  assert (forall c2, is_space2 c c2 = false) as H2.
  { intros c2. unfold is_space2. cbv zeta.
    destruct (N.eqb_spec (N_of_ascii c) 0xC2) as [E|_]; [lia | reflexivity]. }
  assert (forall c2 c3, is_space3 c c2 c3 = false) as H3.
  { intros c2 c3. unfold is_space3. cbv zeta.
    destruct (N.eqb_spec (N_of_ascii c) 0xE1) as [E|_]; [lia|].
    destruct (N.eqb_spec (N_of_ascii c) 0xE2) as [E|_]; [lia|].
    destruct (N.eqb_spec (N_of_ascii c) 0xE3) as [E|_]; [lia | reflexivity]. }
  destruct r as [|c2 [|c3 r]]; rewrite ?H2, ?H3; reflexivity.
Qed.

Lemma skip_space_app (s : string) :
  exists ws, all_space ws = true /\ s = ws +:+ skip_space s.
Proof.
  remember (String.length s) as n eqn:Hn. revert s Hn.
  induction n as [n IH] using lt_wf_ind. intros s ->.
  rewrite skip_space_unfold. destruct (space_prefix s) as [r|] eqn:E.
  - destruct (space_prefix_inv s r E) as (Hlt & w & -> & Hw).
    destruct (IH _ Hlt r eq_refl) as (ws & Hws & Hr).
    exists (w +:+ ws). split.
    + now rewrite all_space_unfold, Hw.
    + rewrite string_app_assoc. now rewrite <- Hr.
  - exists "". split; reflexivity.
Qed.

Lemma skip_space_of_app (ws t : string) :
  all_space ws = true -> space_prefix t = None -> skip_space (ws +:+ t) = t.
Proof.
  intros Hws Ht. remember (String.length ws) as n eqn:Hn. revert ws Hn Hws.
  induction n as [n IH] using lt_wf_ind. intros ws -> Hws.
  rewrite all_space_unfold in Hws.
  destruct (space_prefix ws) as [r|] eqn:E.
  - destruct (space_prefix_inv ws r E) as (Hlt & w & -> & Hw).
    rewrite string_app_assoc, skip_space_unfold, Hw.
    now apply (IH _ Hlt).
  - destruct ws; [|discriminate Hws].
    change ("" +:+ t) with t. now rewrite skip_space_unfold, Ht.
Qed.

Lemma skip_space_of_ascii (ws : string) (c : ascii) (r : string) :
  all_space ws = true -> (N_of_ascii c <? 128)%N = true -> is_space c = false ->
  skip_space (ws +:+ String c r) = String c r.
Proof.
  intros Hws Hc Hs. apply skip_space_of_app; [exact Hws|].
  now apply space_prefix_ascii.
Qed.

Lemma prefix_semicolon (s : string) :
  String.prefix ";" s = true -> exists post, s = ";" +:+ post.
Proof.
  destruct s as [|c s]; [simpl; discriminate|]. cbn [String.prefix].
  destruct (ascii_dec ";" c) as [<-|]; [eauto | discriminate].
Qed.

Lemma lazy_body_app (s g : string) :
  lazy_body s = Some g ->
  exists inner ws3 post,
    all_space ws3 = true
    /\ s = inner +:+ "}" +:+ ws3 +:+ ";" +:+ post.
Proof.
  revert g. induction s as [|c s IH]; intros g; simpl; [discriminate|].
  destruct (Ascii.eqb c "}" && String.prefix ";" (skip_space s)) eqn:E.
  - intros _. apply andb_true_iff in E. destruct E as [Ec Hsemi].
    apply Ascii.eqb_eq in Ec. subst c.
    destruct (skip_space_app s) as (ws & Hws & Hs).
    destruct (prefix_semicolon _ Hsemi) as [post Hpost].
    exists "", ws, post. split; [exact Hws|].
    change ("" +:+ "}" +:+ ws +:+ ";" +:+ post)
      with (String "}" (ws +:+ ";" +:+ post)).
    f_equal. rewrite Hs at 1. now rewrite Hpost.
  - destruct (lazy_body s) as [g'|]; [|discriminate]. intros _.
    destruct (IH g' eq_refl) as (inner & ws3 & post & Hws & Hs).
    exists (String c inner), ws3, post. split; [exact Hws|].
    rewrite app_cons_s. now f_equal.
Qed.

Lemma match_data_here_app (s g : string) :
  match_data_here s = Some g ->
  exists ws1 ws2 inner ws3 post,
    all_space ws1 = true /\ all_space ws2 = true /\ all_space ws3 = true
    /\ s = "window.__data" +:+ ws1 +:+ "=" +:+ ws2 +:+ "{" +:+ inner
           +:+ "}" +:+ ws3 +:+ ";" +:+ post.
Proof.
  unfold match_data_here. intros H.
  destruct (strip_prefix "window.__data" s) as [r1|] eqn:E1;
    cbn [mbind option_bind] in H; [|discriminate].
  destruct (strip_prefix "=" (skip_space r1)) as [r2|] eqn:E2;
    cbn [mbind option_bind] in H; [|discriminate].
  destruct (strip_prefix "{" (skip_space r2)) as [r3|] eqn:E3;
    cbn [mbind option_bind] in H; [|discriminate].
  destruct (lazy_body r3) as [g'|] eqn:E4;
    cbn [mbind option_bind] in H; [|discriminate].
  apply strip_prefix_app in E1, E2, E3.
  destruct (skip_space_app r1) as (ws1 & Hws1 & Hr1).
  destruct (skip_space_app r2) as (ws2 & Hws2 & Hr2).
  destruct (lazy_body_app _ _ E4) as (inner & ws3 & post & Hws3 & Hr3).
  exists ws1, ws2, inner, ws3, post.
  repeat (split; [assumption|]).
  rewrite E1. f_equal. rewrite Hr1. f_equal. rewrite E2. f_equal.
  rewrite Hr2. f_equal. rewrite E3. f_equal. exact Hr3.
Qed.

(** Whatever the search finds is a data block of the text. *)
Lemma re_search_data_sound (s g : string) :
  re_search_data s = Some g -> data_block_in s.
Proof.
  induction s as [|c s IH]; cbn [re_search_data].
  - destruct (match_data_here "") as [g'|] eqn:E; [|discriminate].
    intros _. destruct (match_data_here_app _ _ E)
      as (ws1 & ws2 & inner & ws3 & post & H1 & H2 & H3 & Hs).
    exists "", ws1, ws2, inner, ws3, post. auto.
  - destruct (match_data_here (String c s)) as [g'|] eqn:E.
    + intros _. destruct (match_data_here_app _ _ E)
        as (ws1 & ws2 & inner & ws3 & post & H1 & H2 & H3 & Hs).
      exists "", ws1, ws2, inner, ws3, post. auto.
    + intros H. destruct (IH H)
        as (pre & ws1 & ws2 & inner & ws3 & post & H1 & H2 & H3 & Hs).
      exists (String c pre), ws1, ws2, inner, ws3, post.
      repeat (split; [assumption|]). rewrite app_cons_s. now f_equal.
Qed.

Lemma strip_prefix_of_app (p r : string) : strip_prefix p (p +:+ r) = Some r.
Proof.
  induction p as [|a p IH]; [reflexivity|].
  rewrite app_cons_s. simpl. now rewrite Ascii.eqb_refl.
Qed.

Lemma strip_prefix_char (c : ascii) (r : string) :
  strip_prefix (String c "") (String c r) = Some r.
Proof. exact (strip_prefix_of_app (String c "") r). Qed.

Lemma lazy_body_of_app (inner ws3 post : string) :
  all_space ws3 = true ->
  exists g, lazy_body (inner +:+ "}" +:+ ws3 +:+ ";" +:+ post) = Some g.
Proof.
  intros Hws. induction inner as [|c inner [g IH]].
  - change ("" +:+ "}" +:+ ws3 +:+ ";" +:+ post)
      with (String "}" (ws3 +:+ String ";" post)).
    cbn [lazy_body]. rewrite (skip_space_of_ascii ws3 ";" post Hws eq_refl eq_refl).
    destruct post; simpl; eauto.
  - rewrite app_cons_s. cbn [lazy_body]. rewrite IH.
    destruct (_ && _); simpl; eauto.
Qed.

(** Every data block of the text lets the search succeed. *)
Lemma re_search_data_complete (s : string) :
  data_block_in s -> exists g, re_search_data s = Some g.
Proof.
  intros (pre & ws1 & ws2 & inner & ws3 & post & H1 & H2 & H3 & ->).
  assert (exists g,
            match_data_here
              ("window.__data" +:+ ws1 +:+ "=" +:+ ws2 +:+ "{" +:+ inner
               +:+ "}" +:+ ws3 +:+ ";" +:+ post) = Some g) as [g Hg].
  { unfold match_data_here. rewrite strip_prefix_of_app. cbn [mbind option_bind].
    change ("=" +:+ ws2 +:+ "{" +:+ inner +:+ "}" +:+ ws3 +:+ ";" +:+ post)
      with (String "=" (ws2 +:+ "{" +:+ inner +:+ "}" +:+ ws3 +:+ ";" +:+ post)).
    rewrite (skip_space_of_ascii ws1 "=" _ H1 eq_refl eq_refl).
    rewrite strip_prefix_char. cbn [mbind option_bind].
    change ("{" +:+ inner +:+ "}" +:+ ws3 +:+ ";" +:+ post)
      with (String "{" (inner +:+ "}" +:+ ws3 +:+ ";" +:+ post)).
    rewrite (skip_space_of_ascii ws2 "{" _ H2 eq_refl eq_refl).
    rewrite strip_prefix_char. cbn [mbind option_bind].
    destruct (lazy_body_of_app inner ws3 post H3) as [g' ->].
    cbn [mbind option_bind]. eauto. }
  induction pre as [|c pre [g' IH]].
  - change ("" +:+ ?r) with r.
    destruct ("window.__data" +:+ ws1 +:+ "=" +:+ ws2 +:+ "{" +:+ inner
              +:+ "}" +:+ ws3 +:+ ";" +:+ post) eqn:E;
      cbn [re_search_data]; rewrite Hg; eauto.
  - rewrite app_cons_s. cbn [re_search_data]. rewrite IH.
    destruct (match_data_here (String c _)); eauto.
Qed.

Lemma prefix_app (p r : string) : String.prefix p (p +:+ r) = true.
Proof.
  induction p as [|a p IH]; [now destruct r|].
  rewrite app_cons_s. simpl.
  destruct (ascii_dec a a); [exact IH | congruence].
Qed.

Lemma contains_app (p pre r : string) : contains p (pre +:+ p +:+ r) = true.
Proof.
  induction pre as [|c pre IH].
  - change ("" +:+ p +:+ r) with (p +:+ r).
    destruct (p +:+ r) eqn:E; cbn [contains]; rewrite <- E, prefix_app;
      reflexivity.
  - rewrite app_cons_s. cbn [contains]. rewrite IH. apply orb_true_r.
Qed.

Lemma prefix_split (p s : string) :
  String.prefix p s = true -> exists r, s = p +:+ r.
Proof.
  revert s. induction p as [|a p IH]; intros s; [now exists s|].
  destruct s as [|b s]; [simpl; discriminate|]. cbn [String.prefix].
  destruct (ascii_dec a b) as [<-|]; [|discriminate].
  intros H. destruct (IH s H) as [r ->]. now exists r.
Qed.

(** [contains] decides occurrence. *)
Lemma contains_spec (p s : string) : contains p s = true <-> occurs_in p s.
Proof.
  split.
  - induction s as [|c s IH]; cbn [contains]; intros H;
      apply orb_true_iff in H; destruct H as [H|H]; try discriminate.
    + destruct (prefix_split _ _ H) as [r ->]. now exists "", r.
    + destruct (prefix_split _ _ H) as [r Hr]. exists "", r. exact Hr.
    + destruct (IH H) as (pre & post & ->). now exists (String c pre), post.
  - intros (pre & post & ->). apply contains_app.
Qed.

Lemma not_contains_spec (p s : string) :
  contains p s = false <-> ~ occurs_in p s.
Proof.
  rewrite <- contains_spec. destruct (contains p s); split; congruence.
Qed.

(** A text without the literal [window.__data] has no data block. *)
Lemma data_block_in_occurs (s : string) :
  data_block_in s -> occurs_in "window.__data" s.
Proof.
  intros (pre & ws1 & ws2 & inner & ws3 & post & _ & _ & _ & ->).
  now eexists _, _.
Qed.

Lemma fetch_chapter_data_no_block (w : remote) (chapter : Z)
    (base_url : string) (resp : response) :
  http_get w (chapter_url base_url chapter) = Some resp ->
  status_code resp <> 404 ->
  ~ occurs_in unavailable_marker (body resp) ->
  ~ data_block_in (extraction_body w base_url chapter (body resp)) ->
  snd (fetch_chapter_data w chapter base_url)
  = Raise (RuntimeError ("Could not locate window.__data JSON for chapter "
                         +:+ pretty chapter)).
Proof.
  intros Hget H404 Hmarker Hblock. unfold fetch_chapter_data. rewrite Hget.
  apply Z.eqb_neq in H404. apply not_contains_spec in Hmarker.
  rewrite H404, Hmarker. cbn [snd].
  destruct (re_search_data _) as [g|] eqn:E; [|reflexivity].
  exfalso. eapply Hblock, re_search_data_sound, E.
Qed.

(** The two classes the specification names: a 404 response, or a body in
    which the unavailability marker
    occurs, raises the [ValueError] of an unavailable chapter after the
    single request for the chapter page, before the variant used for
    extraction is requested; any other response whose body for extraction
    holds no [window.__data] block raises [RuntimeError], in particular a
    body without the text [window.__data] when the view-source request
    raises. The first exception is a [ValueError] and no [RuntimeError],
    the second a [RuntimeError] and no [ValueError]. *)
Theorem fetch_chapter_data_classification (w : remote) (chapter : Z)
    (base_url : string) (resp : response) :
  http_get w (chapter_url base_url chapter) = Some resp ->
  (status_code resp = 404 \/ occurs_in unavailable_marker (body resp) ->
   exists e,
     fetch_chapter_data w chapter base_url
     = ([chapter_url base_url chapter], Raise e)
     /\ is_ValueError e = true /\ is_RuntimeError e = false)
  /\ (status_code resp <> 404 ->
      ~ occurs_in unavailable_marker (body resp) ->
      ~ data_block_in (extraction_body w base_url chapter (body resp)) ->
      exists e,
        snd (fetch_chapter_data w chapter base_url) = Raise e
        /\ is_RuntimeError e = true /\ is_ValueError e = false)
  /\ (status_code resp <> 404 ->
      ~ occurs_in unavailable_marker (body resp) ->
      http_get w (view_source_url base_url chapter) = None ->
      ~ occurs_in "window.__data" (body resp) ->
      exists e,
        snd (fetch_chapter_data w chapter base_url) = Raise e
        /\ is_RuntimeError e = true /\ is_ValueError e = false).
Proof.
  intros Hget. split; [|split].
  - unfold fetch_chapter_data. rewrite Hget. intros [H404|Hmarker].
    + apply Z.eqb_eq in H404. rewrite H404. eauto.
    + destruct (status_code resp =? 404); [eauto|].
      apply contains_spec in Hmarker. rewrite Hmarker. eauto.
  - intros H404 Hmarker Hblock.
    rewrite (fetch_chapter_data_no_block w chapter base_url resp) by assumption.
    eauto.
  - intros H404 Hmarker Hvs Hblock.
    rewrite (fetch_chapter_data_no_block w chapter base_url resp);
      try assumption; [eauto|].
    unfold extraction_body. rewrite Hvs.
    intros Hin. now apply data_block_in_occurs in Hin.
Qed.

Lemma fetch_chapter_data_classification_witness :
  (exists e,
     fetch_chapter_data
       (Examples.site_with {| status_code := 404; body := "Not Found" |})
       1156 "https://onepiece.tube"
     = (["https://onepiece.tube/manga/kapitel/1156/1"], Raise e)
     /\ is_ValueError e = true /\ is_RuntimeError e = false)
  /\ (exists e,
        snd (fetch_chapter_data (Examples.site_with Examples.plain_page)
               1156 "https://onepiece.tube") = Raise e
        /\ is_RuntimeError e = true /\ is_ValueError e = false).
Proof.
  split.
  - apply (fetch_chapter_data_classification
             (Examples.site_with {| status_code := 404; body := "Not Found" |})
             1156 "https://onepiece.tube"
             {| status_code := 404; body := "Not Found" |} eq_refl).
    left. reflexivity.
  - apply (fetch_chapter_data_classification
             (Examples.site_with Examples.plain_page)
             1156 "https://onepiece.tube" Examples.plain_page eq_refl).
    + discriminate.
    + apply not_contains_spec. reflexivity.
    + reflexivity.
    + apply not_contains_spec. reflexivity.
Defined.

(** C6, where the code departs from it: the two failure kinds are
    conflated for a chapter page whose data block is found but is no JSON.
    The docstring of [fetch_chapter_data] promises [RuntimeError] when the
    JSON cannot be located or parsed; the code lets the [JSONDecodeError]
    of [json.loads] through, which is a [ValueError] and no
    [RuntimeError], and [download_endpoint] answers 404 as for a chapter
    that is not available. *)
Theorem fetch_chapter_data_malformed_block :
  let w := Examples.site_with
             {| status_code := 200; body := "window.__data = {oops};" |} in
  snd (fetch_chapter_data w 1156 "https://onepiece.tube") = Raise JSONDecodeError
  /\ is_ValueError JSONDecodeError = true
  /\ is_RuntimeError JSONDecodeError = false
  /\ snd (App.download_endpoint w Examples.good_disk ["data"]
            "https://onepiece.tube" 1156 ∅)
     = App.HTTPException 404 (App.StrOf JSONDecodeError).
Proof. repeat split; reflexivity. Qed.

End ChapterData.

(** ** The file system: what creating and writing preserve *)

Section FileSystem.
Import FS.

Lemma node_at_insert (s : fs) (loc q : path) (n : node) :
  loc <> [] ->
  node_at (<[loc := n]> s) q = if decide (q = loc) then Some n else node_at s q.
Proof.
  intros Hloc. destruct q as [|c q]; simpl.
  - case_decide; [congruence | reflexivity].
  - rewrite lookup_insert. repeat case_decide; congruence.
Qed.

Lemma node_at_not_root (s : fs) (loc : path) :
  node_at s loc <> Some Dir -> loc <> [].
Proof. intros H ->. now apply H. Qed.

Lemma same_kind_refl (a : option node) : same_kind a a.
Proof. destruct a as [[]|]; exact I. Qed.

Lemma same_kind_trans (a b c : option node) :
  same_kind a b -> same_kind b c -> same_kind a c.
Proof. destruct a as [[]|], b as [[]|], c as [[]|]; simpl; tauto. Qed.

Lemma grows_refl (s : fs) : grows s s.
Proof. intros loc. apply same_kind_refl. Qed.

Lemma grows_trans (s1 s2 s3 : fs) : grows s1 s2 -> grows s2 s3 -> grows s1 s3.
Proof. intros H1 H2 loc. eapply same_kind_trans; [apply H1 | apply H2]. Qed.

Lemma grows_insert_file (s : fs) (loc : path) (data : string) :
  node_at s loc <> Some Dir -> grows s (<[loc := File data]> s).
Proof.
  intros Hloc q. rewrite node_at_insert by now apply node_at_not_root in Hloc.
  case_decide as E; [subst q | apply same_kind_refl].
  destruct (node_at s loc) as [[]|]; simpl; [exact I | congruence | exact I].
Qed.

Lemma grows_insert_dir (s : fs) (loc : path) :
  node_at s loc = None -> grows s (<[loc := Dir]> s).
Proof.
  intros Hloc q. rewrite node_at_insert.
  - case_decide as E; [subst q; now rewrite Hloc | apply same_kind_refl].
  - intros ->. discriminate Hloc.
Qed.

Lemma grows_dir (s s' : fs) (loc : path) :
  grows s s' -> node_at s loc = Some Dir -> node_at s' loc = Some Dir.
Proof.
  intros H Hd. specialize (H loc). rewrite Hd in H.
  destruct (node_at s' loc) as [[]|]; simpl in H; tauto.
Qed.

Lemma grows_file (s s' : fs) (loc : path) (data : string) :
  grows s s' -> node_at s loc = Some (File data) ->
  exists data', node_at s' loc = Some (File data').
Proof.
  intros H Hd. specialize (H loc). rewrite Hd in H.
  destruct (node_at s' loc) as [[]|]; simpl in H; try tauto. eauto.
Qed.

Lemma grows_is_dir_at (s s' : fs) (loc : path) :
  grows s s' -> is_dir_at s loc = true -> is_dir_at s' loc = true.
Proof.
  unfold is_dir_at. intros H Hd.
  destruct (node_at s loc) as [[]|] eqn:E; try discriminate.
  now rewrite (grows_dir s s' loc H E).
Qed.

Lemma walk_grows (s s' : fs) (p : list string) :
  grows s s' ->
  forall cur loc, walk s cur p = Some loc -> walk s' cur p = Some loc.
Proof.
  intros H. induction p as [|c rest IH]; intros cur loc; simpl; [auto|].
  destruct (is_dir_at s cur) eqn:E; [|discriminate].
  rewrite (grows_is_dir_at s s' cur H E). apply IH.
Qed.

Lemma stat_grows (s s' : fs) (p : path) :
  grows s s' -> same_kind (stat s p) (stat s' p).
Proof.
  intros H. unfold stat.
  destruct (walk s [] p) as [loc|] eqn:E; simpl; [|exact I].
  rewrite (walk_grows s s' p H [] loc E). simpl. apply H.
Qed.

Lemma exists_grows (s s' : fs) (p : path) :
  grows s s' -> exists_ s p = true -> exists_ s' p = true.
Proof.
  intros H. pose proof (stat_grows s s' p H) as Hk. unfold exists_.
  destruct (stat s p) as [[]|], (stat s' p) as [[]|]; simpl in Hk;
    try tauto; try discriminate.
Qed.

Lemma read_file_grows (s s' : fs) (p : path) :
  grows s s' -> is_ok (read_file s p) = true -> is_ok (read_file s' p) = true.
Proof.
  intros H. pose proof (stat_grows s s' p H) as Hk. unfold read_file.
  destruct (stat s p) as [[]|], (stat s' p) as [[]|]; simpl in *;
    try tauto; try discriminate.
Qed.

Lemma mkdir_from_grows (p : list string) :
  forall (s : fs) (cur : path) (s' : fs),
    mkdir_from s cur p = Ok s' -> grows s s'.
Proof.
  induction p as [|c rest IH]; intros s cur s'; simpl.
  - intros [= ->]. apply grows_refl.
  - destruct (node_at s (step cur c)) as [[]|] eqn:E; [discriminate| |].
    + apply IH.
    + intros H. eapply grows_trans; [|eapply IH, H].
      now apply grows_insert_dir.
Qed.

(** Creating directories that were created before changes nothing. *)
Lemma mkdir_from_again (p : list string) :
  forall (s : fs) (cur : path) (s1 s' : fs),
    mkdir_from s cur p = Ok s1 -> grows s1 s' -> mkdir_from s' cur p = Ok s'.
Proof.
  induction p as [|c rest IH]; intros s cur s1 s'; simpl; [reflexivity|].
  destruct (node_at s (step cur c)) as [[]|] eqn:E; [discriminate| |];
    intros Hmk Hgrow.
  - pose proof (mkdir_from_grows _ _ _ _ Hmk) as H1.
    rewrite (grows_dir s s' _ (grows_trans _ _ _ H1 Hgrow) E).
    eapply IH; eauto.
  - pose proof (mkdir_from_grows _ _ _ _ Hmk) as H1.
    assert (node_at (<[step cur c := Dir]> s) (step cur c) = Some Dir) as Hd.
    { rewrite node_at_insert; [now rewrite decide_True|].
      intros Hroot. rewrite Hroot in E. discriminate E. }
    rewrite (grows_dir _ s' _ (grows_trans _ _ _ H1 Hgrow) Hd).
    eapply IH; eauto.
Qed.

Lemma write_file_grows (fault : option nat) (s : fs) (p : path)
    (data : string) (s' : fs) (r : result unit) :
  write_file fault s p data = (s', r) -> grows s s'.
Proof.
  unfold write_file.
  destruct (walk s [] p) as [loc|]; [|intros [= <- _]; apply grows_refl].
  destruct (node_at s loc) as [[]|] eqn:E.
  - destruct fault; intros [= <- _]; apply grows_insert_file; congruence.
  - intros [= <- _]; apply grows_refl.
  - destruct fault; intros [= <- _]; apply grows_insert_file; congruence.
Qed.

(** The three ways [write_file] ends. *)
Lemma write_file_cases (fault : option nat) (s : fs) (p : path) (data : string) :
  (exists e, write_file fault s p data = (s, Raise e)
             /\ forall x, stat s p <> Some (File x))
  \/ (exists loc,
        walk s [] p = Some loc /\ node_at s loc <> Some Dir
        /\ match fault with
           | None => write_file fault s p data = (<[loc := File data]> s, Ok ())
           | Some n =>
               exists e,
                 write_file fault s p data
                 = (<[loc := File (String.substring 0 n data)]> s, Raise e)
           end).
Proof.
  unfold write_file, stat.
  destruct (walk s [] p) as [loc|] eqn:Ew; simpl.
  - destruct (node_at s loc) as [[]|] eqn:E.
    + right. exists loc. repeat split; [congruence|]. destruct fault; eauto.
    + left. eexists. split; [reflexivity|]. congruence.
    + right. exists loc. repeat split; [congruence|]. destruct fault; eauto.
  - left. eexists. split; [reflexivity|]. congruence.
Qed.

Lemma stat_after_write (s : fs) (p loc : path) (x : string) :
  walk s [] p = Some loc -> node_at s loc <> Some Dir ->
  stat (<[loc := File x]> s) p = Some (File x).
Proof.
  intros Hw Hn. unfold stat.
  rewrite (walk_grows s _ p (grows_insert_file s loc x Hn) [] loc Hw). simpl.
  rewrite node_at_insert by now apply node_at_not_root in Hn.
  now rewrite decide_True.
Qed.

(** A write that went through goes through again on every later state. *)
Lemma write_file_again (s : fs) (p : path) (data data' : string) (s1 s' : fs) :
  write_file None s p data = (s1, Ok ()) -> grows s1 s' ->
  exists s'', write_file None s' p data' = (s'', Ok ()).
Proof.
  intros Hw Hgrow.
  destruct (write_file_cases None s p data) as [(e & He & _)|(loc & Hwalk & Hn & Hok)].
  - rewrite He in Hw. discriminate Hw.
  - rewrite Hok in Hw. injection Hw as <-.
    assert (node_at (<[loc := File data]> s) loc = Some (File data)) as Hf.
    { rewrite node_at_insert by now apply node_at_not_root in Hn.
      now rewrite decide_True. }
    destruct (grows_file _ s' loc data Hgrow Hf) as [x Hx].
    unfold write_file.
    rewrite (walk_grows s s' p
               (grows_trans _ _ _ (grows_insert_file s loc data Hn) Hgrow)
               [] loc Hwalk).
    rewrite Hx. eauto.
Qed.

End FileSystem.

(** ** downloader.py: one asset *)

Section DownloadImage.
Import Utils FS Downloader.


(** On a destination that exists [_download_image] returns at once, with no
    request and no change. *)
Lemma download_image_skip (w : remote) (d : disk) (u : string)
    (dest_path : path) (s : fs) :
  exists_ s dest_path = true ->
  _download_image w d u dest_path s = (s, [], Ok ()).
Proof. intros H. unfold _download_image. now rewrite H. Qed.

Lemma download_image_grows (w : remote) (d : disk) (u : string)
    (dest_path : path) (s s' : fs) (log : list event) (r : result unit) :
  _download_image w d u dest_path s = (s', log, r) -> grows s s'.
Proof.
  unfold _download_image.
  destruct (exists_ s dest_path); [intros [= <- _ _]; apply grows_refl|].
  destruct (http_get w u) as [resp|]; [|intros [= <- _ _]; apply grows_refl].
  destruct (raise_for_status resp); [|intros [= <- _ _]; apply grows_refl].
  destruct (mkdir_parents s (parent dest_path)) as [s1|] eqn:Em;
    [|intros [= <- _ _]; apply grows_refl].
  destruct (write_file _ s1 dest_path (body resp)) as [s2 r2] eqn:Ew.
  intros [= <- _ _].
  eapply grows_trans; [eapply mkdir_from_grows, Em | eapply write_file_grows, Ew].
Qed.

(** A normal return on a destination that did not exist leaves the body of
    the response there. *)
Lemma download_image_ok_file (w : remote) (d : disk) (u : string)
    (dest_path : path) (s s' : fs) (log : list event) :
  exists_ s dest_path = false ->
  _download_image w d u dest_path s = (s', log, Ok ()) ->
  exists resp,
    http_get w u = Some resp /\ stat s' dest_path = Some (File (body resp)).
Proof.
  intros Hex. unfold _download_image. rewrite Hex.
  destruct (http_get w u) as [resp|]; [|discriminate].
  destruct (raise_for_status resp); [|discriminate].
  destruct (mkdir_parents s (parent dest_path)) as [s1|]; [|discriminate].
  destruct (write_file_cases (write_fault d dest_path) s1 dest_path (body resp))
    as [(e & He & _)|(loc & Hwalk & Hn & Hw)].
  - rewrite He. discriminate.
  - destruct (write_fault d dest_path) as [n|].
    + destruct Hw as [e He]. rewrite He. discriminate.
    + rewrite Hw. intros [= <- _]. exists resp. split; [reflexivity|].
      now apply stat_after_write.
Qed.

(** From a normal return the destination exists. *)
Lemma download_image_ok_exists (w : remote) (d : disk) (u : string)
    (dest_path : path) (s s' : fs) (log : list event) :
  _download_image w d u dest_path s = (s', log, Ok ()) ->
  exists_ s' dest_path = true.
Proof.
  intros H. destruct (exists_ s dest_path) eqn:Hex.
  - rewrite (download_image_skip w d u dest_path s Hex) in H.
    injection H as <- _. exact Hex.
  - destruct (download_image_ok_file w d u dest_path s s' log Hex H)
      as (resp & _ & Hstat).
    unfold exists_. now rewrite Hstat.
Qed.




End DownloadImage.

(** ** downloader.py: one chapter *)

Section DownloadChapter.
Import Utils FS Downloader.

Lemma download_pages_ok (w : remote) (d : disk) (images_dir : path)
    (pages : list page) :
  forall (s s' : fs) (log : list event) (paths : list path),
    download_pages w d images_dir pages s = (s', log, Ok paths) ->
    paths = local_paths images_dir pages
    /\ grows s s'
    /\ Forall (fun p => exists_ s' p = true) paths.
Proof.
  induction pages as [|pg rest IH]; intros s s' log paths;
    cbn [download_pages].
  - intros [= <- _ <-]. split; [reflexivity|]. split; [apply grows_refl|constructor].
  - unfold local_paths. cbn [omap list_omap]. fold (local_paths images_dir rest).
    destruct (url pg) as [u|]; [|apply IH].
    destruct (truthy_str (Some u)); [|apply IH].
    set (dest := joinpath images_dir (last_segment "/" u)).
    destruct (_download_image w d u dest s) as [[s1 log1] [[]|e]] eqn:Ed;
      [|discriminate].
    destruct (download_pages w d images_dir rest s1) as [[s2 log2] r] eqn:Er.
    destruct r as [paths'|e]; simpl; [|discriminate].
    intros [= <- _ <-].
    destruct (IH _ _ _ _ Er) as (-> & Hgrow & Hall).
    split; [reflexivity|]. split.
    + eapply grows_trans; [eapply download_image_grows, Ed | exact Hgrow].
    + constructor; [|exact Hall].
      eapply exists_grows; [exact Hgrow|].
      eapply download_image_ok_exists, Ed.
Qed.

(** Pages whose files are all present are skipped without a request. *)
Lemma download_pages_skip (w : remote) (d : disk) (images_dir : path)
    (pages : list page) (s : fs) :
  Forall (fun p => exists_ s p = true) (local_paths images_dir pages) ->
  download_pages w d images_dir pages s
  = (s, [], Ok (local_paths images_dir pages)).
Proof.
  induction pages as [|pg rest IH]; cbn [download_pages]; [reflexivity|].
  unfold local_paths. cbn [omap list_omap]. fold (local_paths images_dir rest).
  destruct (url pg) as [u|]; [|apply IH].
  destruct (truthy_str (Some u)); [|apply IH].
  intros Hall. apply Forall_cons in Hall. destruct Hall as [Hdest Hall].
  rewrite (download_image_skip w d u _ s Hdest).
  rewrite (IH Hall). reflexivity.
Qed.

Lemma epub_items_ok (d : disk) (s : fs) (image_files : list path) :
  forall (idx : nat) imgs pages links,
    epub_items d s idx image_files = Ok (imgs, pages, links) ->
    map file_name imgs = map image_href (map name image_files)
    /\ map page_img_src pages = map image_href (map name image_files)
    /\ Forall (fun p => is_ok (read_file s p) = true) image_files.
Proof.
  induction image_files as [|p rest IH]; intros idx imgs pages links; simpl.
  - intros [= <- <- <-]. repeat split; constructor.
  - destruct (read_file s p) as [data|e] eqn:Er; simpl; [|discriminate].
    destruct (epub_items d s (S idx) rest) as [[[imgs' pages'] links']|e] eqn:E;
      simpl; [|discriminate].
    intros [= <- <- <-]. destruct (IH _ _ _ _ E) as (H1 & H2 & H3).
    simpl. rewrite H1, H2. repeat split.
    constructor; [now rewrite Er | exact H3].
Qed.



Lemma epub_items_readable (d : disk) (s : fs) (image_files : list path) :
  Forall (fun p => is_ok (read_file s p) = true) image_files ->
  forall idx, exists items, epub_items d s idx image_files = Ok items.
Proof.
  induction 1 as [|p rest Hp Hrest IH]; intros idx; simpl; [eauto|].
  destruct (read_file s p) as [data|e]; [|discriminate]. simpl.
  destruct (IH (S idx)) as [[[imgs pages] links] ->]. simpl. eauto.
Qed.

Lemma build_book_ok (d : disk) (s : fs) (chapter : Z) (t : string)
    (image_files : list path) (book : epub_book) :
  build_book d s chapter t image_files = Ok book ->
  map file_name (images book) = map image_href (map name image_files)
  /\ map page_img_src (html_pages book) = map image_href (map name image_files)
  /\ Forall (fun p => is_ok (read_file s p) = true) image_files.
Proof.
  unfold build_book.
  destruct (epub_items d s 1 image_files) as [[[imgs pages] links]|e] eqn:E;
    simpl; [|discriminate].
  intros [= <-]. simpl. eapply epub_items_ok, E.
Qed.

Lemma build_book_readable (d : disk) (s : fs) (chapter : Z) (t : string)
    (image_files : list path) :
  Forall (fun p => is_ok (read_file s p) = true) image_files ->
  exists book, build_book d s chapter t image_files = Ok book.
Proof.
  intros H. unfold build_book.
  destruct (epub_items_readable d s image_files H 1) as [[[imgs pages] links] ->].
  simpl. eauto.
Qed.

(** What a successful [download_chapter] went through. *)
Lemma download_chapter_ok_inv (w : remote) (d : disk) (storage_dir : path)
    (base_url : string) (chapter : Z) (s s3 : fs) (log : list event) (p : path) :
  download_chapter w d storage_dir base_url chapter s = (s3, log, Ok p) ->
  let images_dir := images_dir_of storage_dir chapter in
  exists data t pages s1 s2 s2' log1 book,
    snd (fetch_chapter_data w chapter base_url) = Ok data
    /\ title_and_pages data = Ok (t, pages)
    /\ mkdir_parents s images_dir = Ok s1
    /\ download_pages w d images_dir pages s1
       = (s2, log1, Ok (local_paths images_dir pages))
    /\ build_book d s2 chapter t
         (sorted name String.leb (local_paths images_dir pages)) = Ok book
    /\ mkdir_parents s2 (parent p) = Ok s2'
    /\ write_file (write_fault d p) s2' p (epub_bytes d book) = (s3, Ok ())
    /\ p = joinpath (chapter_dir_of storage_dir chapter) (epub_name chapter)
    /\ log = map Requested (fst (fetch_chapter_data w chapter base_url))
             ++ log1 ++ [WroteEpub p book].
Proof.
  unfold download_chapter.
  destruct (fetch_chapter_data w chapter base_url) as [urls fetched].
  destruct fetched as [data|e]; simpl; [|discriminate].
  destruct (title_and_pages data) as [[t pages]|e] eqn:Et; [|discriminate].
  destruct (mkdir_parents s (images_dir_of storage_dir chapter)) as [s1|e] eqn:Em;
    [|discriminate].
  destruct (download_pages w d (images_dir_of storage_dir chapter) pages s1)
    as [[s2 log1] [paths|e]] eqn:Ed; [|discriminate].
  destruct (download_pages_ok _ _ _ _ _ _ _ _ Ed) as (-> & _ & _).
  unfold _create_epub.
  destruct (build_book d s2 chapter t _) as [book|e] eqn:Eb; [|discriminate].
  destruct (mkdir_parents s2 _) as [s2'|e] eqn:Em2; [|discriminate].
  destruct (write_file _ s2' _ _) as [s3' [[]|e]] eqn:Ew; simpl; [|discriminate].
  intros [= <- <- <-].
  exists data, t, pages, s1, s2, s2', log1, book.
  repeat split; assumption.
Qed.




(** C4: after a successful [download_chapter], a second call against the
    same site and disk returns the same package path, and its only requests
    are those for the chapter's metadata: no asset is downloaded again.
    [_download_image] itself returns without a request and without touching
    the disk whenever the destination path exists. *)
Theorem download_chapter_idempotent (w : remote) (d : disk) :
  (forall (storage_dir : path) (base_url : string) (chapter : Z)
          (s s1 : fs) (log1 : list event) (p : path),
      download_chapter w d storage_dir base_url chapter s = (s1, log1, Ok p) ->
      exists s2 book,
        download_chapter w d storage_dir base_url chapter s1
        = (s2,
           map Requested (fst (fetch_chapter_data w chapter base_url))
           ++ [WroteEpub p book],
           Ok p))
  /\ (forall (u : string) (dest_path : path) (s : fs),
        exists_ s dest_path = true ->
        _download_image w d u dest_path s = (s, [], Ok ())).
Proof.
  split; [|intros u dest_path s H; unfold _download_image; now rewrite H].
  intros storage_dir base_url chapter s s3 log p H.
  destruct (download_chapter_ok_inv _ _ _ _ _ _ _ _ _ H)
    as (data & t & pages & s1 & s2 & s2' & log1 & book
        & Hdata & Ht & Hmk & Hdl & Hbook & Hmk2 & Hw & Hp & _).
  destruct (download_pages_ok _ _ _ _ _ _ _ _ Hdl) as (_ & Hg12 & Hex).
  pose proof (mkdir_from_grows _ _ _ _ Hmk2) as Hg22.
  pose proof (write_file_grows _ _ _ _ _ _ Hw) as Hg23.
  assert (grows s2 s3) as Hg2 by (eapply grows_trans; eassumption).
  assert (grows s1 s3) as Hg1 by (eapply grows_trans; eassumption).
  (* the second call, step by step *)
  unfold download_chapter.
  destruct (fetch_chapter_data w chapter base_url) as [urls fetched].
  simpl in Hdata. subst fetched. cbn [mbind result_bind]. rewrite Ht.
  unfold mkdir_parents in *.
  rewrite (mkdir_from_again _ _ _ _ _ Hmk Hg1).
  rewrite download_pages_skip.
  2:{ eapply Forall_impl; [exact Hex|].
      intros q Hq. exact (exists_grows s2 s3 q Hg2 Hq). }
  destruct (build_book_ok _ _ _ _ _ _ Hbook) as (_ & _ & Hread).
  destruct (build_book_readable d s3 chapter t
              (sorted name String.leb
                 (local_paths (images_dir_of storage_dir chapter) pages)))
    as [book' Hbook'].
  { eapply Forall_impl; [exact Hread|].
    intros q Hq. exact (read_file_grows s2 s3 q Hg2 Hq). }
  cbv zeta. unfold _create_epub, mkdir_parents. rewrite Hbook', <- Hp.
  rewrite (mkdir_from_again _ _ _ _ _ Hmk2 Hg23).
  assert (write_fault d p = None) as Hfault.
  { destruct (write_file_cases (write_fault d p) s2' p (epub_bytes d book))
      as [(e & He & _)|(loc & _ & _ & Hcase)].
    - rewrite He in Hw. discriminate Hw.
    - destruct (write_fault d p); [|reflexivity].
      destruct Hcase as [e He]. rewrite He in Hw. discriminate Hw. }
  rewrite Hfault in *.
  destruct (write_file_again _ _ _ (epub_bytes d book') _ _ Hw (grows_refl s3))
    as [s4 Hw4].
  rewrite Hw4. exists s4, book'. reflexivity.
Qed.

Lemma download_chapter_idempotent_witness :
  exists s2 book,
    download_chapter Examples.chapter_site Examples.good_disk
      ["data"] "https://onepiece.tube" 1156
      (fst (fst (download_chapter Examples.chapter_site Examples.good_disk
                   ["data"] "https://onepiece.tube" 1156 ∅)))
    = (s2,
       map Requested
         (fst (fetch_chapter_data Examples.chapter_site 1156
                 "https://onepiece.tube"))
       ++ [WroteEpub ["data"; "1156"; "onepiece_1156.epub"] book],
       Ok ["data"; "1156"; "onepiece_1156.epub"]).
Proof.
  set (run := download_chapter Examples.chapter_site Examples.good_disk
                ["data"] "https://onepiece.tube" 1156 ∅).
  assert (snd run = Ok ["data"; "1156"; "onepiece_1156.epub"]) as Hok
    by (vm_compute; reflexivity).
  pose proof (triple_eta run) as Hrun. rewrite Hok in Hrun.
  exact (proj1 (download_chapter_idempotent Examples.chapter_site
                  Examples.good_disk) _ _ _ _ _ _ _ Hrun).
Defined.

End DownloadChapter.

(** ** Numerals: [str] of an integer and [int] of a text *)

Section Numerals.
Import Says.

Lemma string_app_empty (s : string) : s +:+ "" = s.
Proof. induction s as [|c s IH]; [reflexivity|]. now rewrite app_cons_s, IH. Qed.

Lemma string_rev_onto_twice (s acc acc' : string) :
  string_rev_onto acc (string_rev_onto acc' s)
  = string_rev_onto (s +:+ acc) acc'.
Proof.
  revert acc acc'. induction s as [|c s IH]; intros acc acc'; simpl.
  - reflexivity.
  - rewrite IH. reflexivity.
Qed.

Lemma string_rev_involutive (s : string) : string_rev (string_rev s) = s.
Proof.
  unfold string_rev. rewrite string_rev_onto_twice. simpl.
  apply string_app_empty.
Qed.

Lemma no_space_rev_onto (s acc : string) :
  no_space (string_rev_onto acc s) = no_space acc && no_space s.
Proof.
  revert acc. induction s as [|c s IH]; intros acc; simpl.
  - now rewrite andb_true_r.
  - rewrite IH. simpl.
    destruct (N_of_ascii c <? 128)%N, (is_blank c), (no_space acc), (no_space s);
      reflexivity.
Qed.

Lemma no_space_skip_blanks (s : string) : no_space s = true -> skip_blanks s = s.
Proof.
  destruct s as [|c s]; simpl; [reflexivity|].
  destruct (is_blank c); [|reflexivity].
  rewrite andb_false_r. discriminate.
Qed.

Lemma no_space_strip (s : string) : no_space s = true -> strip_blanks s = s.
Proof.
  intros H. unfold strip_blanks. rewrite (no_space_skip_blanks s H).
  rewrite no_space_skip_blanks.
  - apply string_rev_involutive.
  - unfold string_rev. now rewrite no_space_rev_onto.
Qed.

Lemma no_space_is_ascii (s : string) : no_space s = true -> is_ascii s = true.
Proof.
  induction s as [|c s IH]; simpl; [reflexivity|]. intros H.
  apply andb_true_iff in H. destruct H as [H Hs].
  apply andb_true_iff in H. destruct H as [-> _]. now apply IH.
Qed.

Lemma pretty_N_char_digit (m : N) :
  (m < 10)%N ->
  is_digit (pretty_N_char m) = true
  /\ digit_val (pretty_N_char m) = Z.of_N m
  /\ (N_of_ascii (pretty_N_char m) <? 128)%N && negb (is_blank (pretty_N_char m))
     = true.
Proof.
  intros H.
  assert (m = 0 \/ m = 1 \/ m = 2 \/ m = 3 \/ m = 4 \/ m = 5 \/ m = 6
          \/ m = 7 \/ m = 8 \/ m = 9)%N as Hm by lia.
  repeat (destruct Hm as [->|Hm]; [repeat split; reflexivity|]).
  subst m. repeat split; reflexivity.
Qed.

Lemma parse_digits_pretty_N_go (x : N) :
  forall (s : string) (prev : bool),
    (0 < x)%N ->
    parse_digits 0 prev (pretty_N_go x s) = parse_digits (Z.of_N x) true s.
Proof.
  induction (N.lt_wf_0 x) as [x _ IH]. intros s prev Hx.
  rewrite pretty_N_go_step by exact Hx.
  destruct (pretty_N_char_digit (x `mod` 10)%N) as (Hd & Hv & _);
    [now apply N.mod_lt|].
  assert (Z.of_N x = 10 * Z.of_N (x `div` 10)%N + Z.of_N (x `mod` 10)%N) as Hx10.
  { rewrite (N.div_mod x 10) at 1 by discriminate. lia. }
  destruct (N.eq_dec (x `div` 10)%N 0%N) as [E|E].
  - rewrite E, pretty_N_go_0 in *. cbn [parse_digits]. rewrite Hd, Hv.
    f_equal. lia.
  - rewrite IH by first [apply N.div_lt; lia | now apply N.neq_0_lt_0].
    cbn [parse_digits]. rewrite Hd, Hv. f_equal. lia.
Qed.

Lemma no_space_pretty_N_go (x : N) :
  forall s : string, no_space s = true -> no_space (pretty_N_go x s) = true.
Proof.
  induction (N.lt_wf_0 x) as [x _ IH]. intros s Hs.
  destruct (N.eq_dec x 0%N) as [->|E]; [now rewrite pretty_N_go_0|].
  rewrite pretty_N_go_step by lia.
  apply IH; [apply N.div_lt; lia|].
  destruct (pretty_N_char_digit (x `mod` 10)%N) as (_ & _ & Hsp);
    [now apply N.mod_lt|].
  simpl. now rewrite Hsp.
Qed.

Lemma parse_digits_pretty_N (x : N) (prev : bool) :
  parse_digits 0 prev (pretty x) = Some (Z.of_N x).
Proof.
  unfold pretty, pretty_N. case_decide as E; [now subst x|].
  rewrite parse_digits_pretty_N_go by lia. reflexivity.
Qed.

Lemma no_space_pretty_N (x : N) : no_space (pretty x) = true.
Proof.
  unfold pretty, pretty_N. case_decide; [reflexivity|].
  now apply no_space_pretty_N_go.
Qed.

Lemma pretty_Z_nonneg (z : Z) : 0 <= z -> pretty z = pretty (Z.to_N z).
Proof. destruct z as [|p|p]; [reflexivity | reflexivity | lia]. Qed.

Lemma no_space_pretty_Z (z : Z) : no_space (pretty z) = true.
Proof.
  destruct z as [|p|p]; [reflexivity | |].
  - change (pretty (Z.pos p)) with (pretty (N.pos p)). apply no_space_pretty_N.
  - change (pretty (Z.neg p)) with (String "-" (pretty (N.pos p))).
    simpl. now rewrite no_space_pretty_N.
Qed.

(** [int(str(z))] is [z], whatever the interpreter makes of texts outside
    ASCII. *)
Lemma int_pretty (u : string -> option Z) (z : Z) :
  Py.int u (pretty z) = Some z.
Proof.
  unfold Py.int. rewrite no_space_is_ascii by apply no_space_pretty_Z.
  unfold int_ascii. destruct z as [|p|p].
  - reflexivity.
  - change (pretty (Z.pos p)) with (pretty (N.pos p)).
    rewrite no_space_strip by apply no_space_pretty_N.
    pose proof (parse_digits_pretty_N (N.pos p) false) as H.
    destruct (pretty (N.pos p)) as [|c r] eqn:E; [discriminate H|].
    destruct (Ascii.eqb_spec c "-") as [->|Hm]; [discriminate H|].
    destruct (Ascii.eqb_spec c "+") as [->|Hp]; [discriminate H|].
    destruct c as [[] [] [] [] [] [] [] []]; try exact H; congruence.
  - change (pretty (Z.neg p)) with (String "-" (pretty (N.pos p))).
    rewrite no_space_strip
      by (simpl; now rewrite no_space_pretty_N).
    rewrite parse_digits_pretty_N. reflexivity.
Qed.

(** The name of a chapter directory is a proper component. *)
Lemma pretty_component (z : Z) :
  pretty z <> "" /\ pretty z <> "." /\ pretty z <> "..".
Proof.
  pose proof (int_pretty (fun _ => None) z) as H.
  repeat split; intros E; rewrite E in H; discriminate H.
Qed.

End Numerals.

(** ** web_push.py: delivery and the life of a subscription *)

Section PushDelivery.
Import WebPush Says.

Lemma filter_all {A : Type} (f : A -> bool) (l : list A) :
  (forall x, In x l -> f x = true) -> List.filter f l = l.
Proof.
  induction l as [|x l IH]; intros H; simpl; [reflexivity|].
  rewrite (H x) by now left. f_equal. apply IH. intros y Hy. apply H. now right.
Qed.

(** The handler's test never holds: a response with status 404 or 410 is
    false as a condition. *)
Lemma marks_invalid_never (response : option Z) : marks_invalid response = false.
Proof.
  destruct response as [status|]; [|reflexivity].
  unfold marks_invalid, response_ok.
  destruct (Z.eqb_spec status 404) as [->|_]; [reflexivity|].
  destruct (Z.eqb_spec status 410) as [->|_]; [reflexivity|].
  apply andb_false_r.
Qed.

Lemma deliver_spec (push : subscription -> push_payload -> push_outcome)
    (payload : push_payload) (subs : list subscription) :
  deliver push payload subs
  = (Z.of_nat (length (List.filter (delivered push payload) subs)), [], subs).
Proof.
  induction subs as [|s subs IH]; [reflexivity|].
  cbn [deliver]. rewrite IH. cbn [List.filter]. unfold delivered.
  destruct (push s payload) as [|response|]; cbn [length]; try reflexivity.
  - f_equal. f_equal. lia.
  - now rewrite marks_invalid_never.
Qed.

Lemma filter_well_formed (P : subscription -> bool) (subs : list subscription) :
  Forall (fun s => well_formed s = true) subs ->
  Forall (fun s => well_formed s = true) (List.filter P subs).
Proof.
  rewrite !Forall_forall. intros H s Hs.
  apply list_elem_of_In, filter_In in Hs. apply H, list_elem_of_In. tauto.
Qed.

Lemma send_notification_spec
    (push : subscription -> push_payload -> push_outcome)
    (payload : push_payload) (subs : list subscription) :
  send_notification push subs payload
  = (subs, subs,
     Ok (Z.of_nat (length (List.filter (delivered push payload) subs)))).
Proof.
  unfold send_notification.
  destruct subs as [|s0 subs0] eqn:Esubs; [reflexivity|]. rewrite <- Esubs.
  rewrite deliver_spec. reflexivity.
Qed.

(** [send_notification] tries every stored subscription once, in order,
    and returns the number of calls that delivered. It removes no
    subscription, also not one whose push service answers 404 or 410: the
    handler tests [e.response and e.response.status_code in [404, 410]],
    and a response with such a status is false as a condition, so that the
    list of subscriptions to remove stays empty. *)
Theorem send_notification_delivery
    (push : subscription -> push_payload -> push_outcome)
    (payload : push_payload) (subs : list subscription) :
  (forall response, marks_invalid response = false)
  /\ send_notification push subs payload
     = (subs, subs,
        Ok (Z.of_nat (length (List.filter (delivered push payload) subs)))).
Proof.
  split; [exact marks_invalid_never|]. unfold send_notification.
  destruct subs as [|s0 subs0] eqn:Esubs; [reflexivity|]. rewrite <- Esubs.
  clear Esubs s0 subs0.
  assert (forall l,
            deliver push payload l
            = (Z.of_nat (length (List.filter (delivered push payload) l)),
               [], l)) as Hdeliver.
  { induction l as [|s l IH]; [reflexivity|].
    cbn [deliver]. rewrite IH. cbn [List.filter]. unfold delivered.
    destruct (push s payload) as [|response|]; cbn [length]; try reflexivity.
    - f_equal. f_equal. lia.
    - now rewrite marks_invalid_never. }
  rewrite Hdeliver. reflexivity.
Qed.

Lemma filter_other_absent (ep : string) (subs : list subscription) :
  Some ep ∉ endpoints subs -> List.filter (other ep) subs = subs.
Proof.
  intros Hnot. apply filter_all. intros s Hs. unfold other.
  rewrite bool_decide_eq_false_2; [reflexivity|].
  intros E. apply Hnot. rewrite <- E. apply list_elem_of_In.
  unfold endpoints. now apply in_map.
Qed.

Lemma filter_other_gone (ep : string) (subs : list subscription) :
  Some ep ∉ endpoints (List.filter (other ep) subs).
Proof.
  intros Hin. apply list_elem_of_In in Hin. unfold endpoints in Hin.
  apply in_map_iff in Hin. destruct Hin as (s & Hs & Hin).
  apply filter_In in Hin. destruct Hin as [_ Hin]. unfold other in Hin.
  rewrite bool_decide_eq_true_2 in Hin by exact Hs. discriminate Hin.
Qed.

(** A new subscription that is stored and then unsubscribed leaves the
    stored list as it was: [subscribe] appends it and returns [True],
    [unsubscribe] of its endpoint removes it again and returns [True]. *)
Theorem subscribe_unsubscribe_round_trip (ops : list op) (s : subscription)
    (ep : string) :
  well_formed s = true ->
  endpoint s = Some ep ->
  Some ep ∉ endpoints (run ops) ->
  subscribe (run ops) s = (run ops ++ [s], true)
  /\ unsubscribe (run ops ++ [s]) ep = (run ops, Ok true).
Proof.
  intros Hwf Hep Hnew. destruct (run_inv ops) as [Hnd Hall]. split.
  - rewrite subscribe_spec by exact Hall. rewrite Hwf, Hep.
    now rewrite bool_decide_eq_false_2.
  - rewrite unsubscribe_spec
      by (apply Forall_app; split; [exact Hall | now constructor]).
    f_equal.
    + rewrite List.filter_app, (filter_other_absent ep (run ops) Hnew).
      cbn [List.filter]. unfold other. rewrite bool_decide_eq_true_2 by exact Hep.
      apply app_nil_r.
    + f_equal. apply bool_decide_eq_true_2. unfold endpoints.
      rewrite map_app. apply elem_of_app. right. cbn [map]. rewrite Hep.
      apply elem_of_cons. now left.
Qed.

Lemma subscribe_unsubscribe_round_trip_witness :
  subscribe (run []) Examples.browser = ([Examples.browser], true)
  /\ unsubscribe [Examples.browser] "https://push.example.com/abc"
     = ([], Ok true).
Proof.
  apply (subscribe_unsubscribe_round_trip [] Examples.browser
           "https://push.example.com/abc").
  - reflexivity.
  - reflexivity.
  - apply not_elem_of_nil.
Defined.

(** Repeating a call changes nothing: on a state the service can reach a
    second [subscribe] of the same subscription stores nothing more and
    returns what the first returned with the list the first left, and a
    second [unsubscribe] of the same endpoint removes nothing and returns
    [False]. *)
Theorem subscribe_unsubscribe_idempotent (ops : list op) (s : subscription)
    (ep : string) :
  subscribe (fst (subscribe (run ops) s)) s = subscribe (run ops) s
  /\ unsubscribe (fst (unsubscribe (run ops) ep)) ep
     = (fst (unsubscribe (run ops) ep), Ok false).
Proof.
  destruct (run_inv ops) as [Hnd Hall]. split.
  - pose proof (subscribe_inv (run ops) s (conj Hnd Hall)) as [_ Hall'].
    rewrite (subscribe_spec _ s Hall').
    rewrite (subscribe_spec _ s Hall).
    destruct (well_formed s) eqn:Hwf; [|reflexivity].
    destruct (bool_decide (endpoint s ∈ endpoints (run ops))) eqn:E;
      cbn [fst]; [now rewrite E|].
    rewrite bool_decide_eq_true_2; [reflexivity|].
    unfold endpoints. rewrite map_app. apply elem_of_app. right.
    apply elem_of_cons. now left.
  - rewrite (unsubscribe_spec _ ep Hall). cbn [fst].
    rewrite unsubscribe_spec by now apply filter_well_formed.
    f_equal.
    + apply filter_other_absent, filter_other_gone.
    + f_equal. apply bool_decide_eq_false_2, filter_other_gone.
Qed.

Lemma filter_other_length (ep : string) (subs : list subscription) :
  NoDup (endpoints subs) ->
  (length (List.filter (other ep) subs)
   + (if bool_decide (Some ep ∈ endpoints subs) then 1 else 0)
   = length subs)%nat.
Proof.
  induction subs as [|s subs IH]; cbn [endpoints map]; intros Hnd.
  - rewrite bool_decide_eq_false_2 by apply not_elem_of_nil. reflexivity.
  - apply NoDup_cons in Hnd. destruct Hnd as [Hs Hnd]. specialize (IH Hnd).
    cbn [List.filter]. unfold other at 1.
    destruct (bool_decide (endpoint s = Some ep)) eqn:E; cbn [negb length].
    + apply bool_decide_eq_true_1 in E. rewrite E in Hs.
      rewrite (filter_other_absent ep subs Hs).
      rewrite bool_decide_eq_true_2; [lia|]. rewrite E.
      apply elem_of_cons. now left.
    + apply bool_decide_eq_false_1 in E.
      rewrite (bool_decide_ext (Some ep ∈ endpoint s :: map endpoint subs)
                 (Some ep ∈ endpoints subs)); [lia|].
      rewrite elem_of_cons. split; [intros [H|H]; [congruence | exact H]|].
      now right.
Qed.

(** The subscription count on a state the service can reach: [subscribe]
    raises it by one exactly for a valid subscription with an endpoint not
    yet stored, [unsubscribe] lowers it by one exactly for a stored
    endpoint, and [send_notification] leaves it as it is, whatever the
    push service answers; no other change happens. *)
Theorem subscription_count_accounting (ops : list op) :
  (forall s,
      get_subscription_count (fst (subscribe (run ops) s))
      = get_subscription_count (run ops)
        + (if well_formed s
              && negb (bool_decide (endpoint s ∈ endpoints (run ops)))
           then 1 else 0))
  /\ (forall ep,
        get_subscription_count (fst (unsubscribe (run ops) ep))
        = get_subscription_count (run ops)
          - (if bool_decide (Some ep ∈ endpoints (run ops)) then 1 else 0))
  /\ (forall push payload,
        get_subscription_count
          (fst (fst (send_notification push (run ops) payload)))
        = get_subscription_count (run ops)).
Proof.
  destruct (run_inv ops) as [Hnd Hall]. unfold get_subscription_count.
  split; [|split].
  - intros s. rewrite subscribe_spec by exact Hall.
    destruct (well_formed s); cbn [andb fst]; [|lia].
    destruct (bool_decide _); cbn [negb fst]; [lia|].
    rewrite length_app. cbn [length]. lia.
  - intros ep. rewrite unsubscribe_spec by exact Hall. cbn [fst].
    pose proof (filter_other_length ep (run ops) Hnd) as H.
    destruct (bool_decide _); lia.
  - intros push payload. now rewrite send_notification_spec.
Qed.

End PushDelivery.

(** ** notification.py and app.py: the latest chapter and what is new *)

Section LatestAndNew.
Import Utils Notification.




(** The outcome of [check_for_update] on a catalogue of the shape of
    [entry]: every element is an object whose number, when it has one, is
    an integer. On such a catalogue it raises exactly when the watermark is
    negative and the refreshed snapshot has an entry without a number, and
    what it raises then is [KeyError('number')]. Otherwise it returns
    a rearrangement of the entries above the watermark in ascending order
    of number, and each of them carries a number above the watermark. *)
Theorem check_for_update_outcome (w : remote) (st : notifier) (current_latest : Z) :
  fst (check_for_update w st current_latest) = refresh w st
  /\ match snd (check_for_update w st current_latest) with
     | Raise e =>
         e = KeyError "number" /\ current_latest < 0
         /\ exists x, In x (entries (refresh w st)) /\ number x = None
     | Ok out =>
         (0 <= current_latest
          \/ Forall (fun e => is_Some (number e)) (entries (refresh w st)))
         /\ out ≡ₚ List.filter (fun e => number_or_0 e >? current_latest)
                     (entries (refresh w st))
         /\ StronglySorted number_le out
         /\ Forall (fun e => exists n, number e = Some n /\ current_latest < n)
              out
     end.
Proof.
  unfold check_for_update. cbn [fst snd]. split; [reflexivity|].
  set (es := entries (refresh w st)).
  set (new := List.filter _ es).
  assert (forall e, In e new <-> In e es /\ current_latest < number_or_0 e)
    as Hnew.
  { intros e. unfold new. rewrite filter_In, Z.gtb_ltb, Z.ltb_lt. reflexivity. }
  unfold sort_keys. destruct (mapM number new) as [ks|] eqn:Eks;
    cbn [mbind result_bind].
  - assert (Forall (fun e => is_Some (number e)) new) as Hnum.
    { apply (mapM_is_Some_1 number). rewrite Eks. eauto. }
    split; [|split; [apply sorted_perm | split; [apply sorted_by_number|]]].
    + destruct (Z_le_gt_dec 0 current_latest) as [Hc|Hc]; [now left|right].
      apply Forall_forall. intros e He. apply list_elem_of_In in He.
      destruct (number e) as [n|] eqn:En; [eauto|].
      rewrite Forall_forall in Hnum.
      rewrite <- En. apply Hnum, list_elem_of_In, Hnew. split; [exact He|].
      unfold number_or_0. rewrite En. simpl. lia.
    + apply Forall_forall. intros e He.
      rewrite (sorted_perm number_or_0 Z.leb new) in He.
      rewrite Forall_forall in Hnum. destruct (Hnum e He) as [n Hn].
      apply list_elem_of_In, Hnew in He. destruct He as [_ Hgt].
      unfold number_or_0 in Hgt. rewrite Hn in Hgt. eauto.
  - split; [reflexivity|].
    assert (~ Forall (fun e => is_Some (number e)) new) as Hnot.
    { intros H. apply (mapM_is_Some_2 number) in H. rewrite Eks in H.
      destruct H as [? H]. discriminate H. }
    apply not_Forall_Exists in Hnot; [|intros e; apply _].
    apply Exists_exists in Hnot. destruct Hnot as (x & Hx & Hnone).
    apply list_elem_of_In, Hnew in Hx. destruct Hx as [Hx Hgt].
    destruct (number x) as [n|] eqn:En; [exfalso; apply Hnone; eauto|].
    unfold number_or_0 in Hgt. rewrite En in Hgt. simpl in Hgt.
    split; [lia|]. eauto.
Qed.


End LatestAndNew.

(** ** notification.py: what the channels did *)

Section ChannelAccounts.
Import Utils Notification Says.

Lemma complete_config (cfg : gmap string pyval) :
  missing_keys cfg = [] ->
  forall k, In k required_keys -> getitem cfg k = Ok (default PyNone (cfg !! k)).
Proof.
  intros Hcfg k Hk. unfold getitem.
  destruct (cfg !! k) as [v|] eqn:E; [reflexivity|].
  now destruct (missing_keys_nonempty cfg k Hk E).
Qed.

Lemma send_each_complete (smtp : mail -> bool) (cfg : gmap string pyval)
    (to : string) (subject_template body_template : template)
    (new_entries : list entry) :
  missing_keys cfg = [] ->
  let m := mail_for cfg to subject_template body_template in
  let out := send_each smtp cfg to subject_template body_template new_entries in
  match snd out with
  | Ok _ =>
      fst out = map m new_entries
      /\ Forall (fun e => smtp (m e) = true) new_entries
  | Raise err =>
      err = SMTPException
      /\ exists pre x post,
           new_entries = pre ++ x :: post
           /\ Forall (fun e => smtp (m e) = true) pre
           /\ smtp (m x) = false
           /\ fst out = map m pre ++ [m x]
  end.
Proof.
  intros Hcfg m. pose proof (complete_config cfg Hcfg) as Hget.
  induction new_entries as [|e rest IH]; cbn [send_each].
  - split; [reflexivity | constructor].
  - rewrite !Hget by (simpl; tauto). cbn [mbind result_bind].
    fold (mail_for cfg to subject_template body_template e). fold m.
    destruct (smtp (m e)) eqn:Esmtp.
    + cbv zeta in IH.
      destruct (send_each smtp cfg to subject_template body_template rest)
        as [calls [[]|err]]; cbn [fst snd] in *.
      * destruct IH as [-> Hall]. split; [reflexivity | now constructor].
      * destruct IH as (-> & pre & x & post & -> & Hpre & Hx & ->).
        split; [reflexivity|]. exists (e :: pre), x, post.
        repeat split; [now constructor | exact Hx].
    + cbn [fst snd]. split; [reflexivity|]. exists [], e, rest.
      repeat split; [constructor | exact Esmtp].
Qed.

Lemma send_email_notifications_complete (smtp : mail -> bool) (st : notifier)
    (new_entries : list entry) (to : string)
    (subject_template body_template : template) :
  missing_keys (smtp_config st) = [] ->
  let out := send_email_notifications smtp st new_entries to subject_template
               body_template in
  match snd out with
  | Ok _ =>
      fst out
      = map (mail_for (smtp_config st) to subject_template body_template)
          new_entries
  | Raise err => err = SMTPException
  end.
Proof.
  intros Hcfg. unfold send_email_notifications.
  destruct new_entries as [|e rest]; [reflexivity|].
  rewrite Hcfg.
  pose proof (send_each_complete smtp (smtp_config st) to subject_template
                body_template (e :: rest) Hcfg) as H.
  cbv zeta in *.
  destruct (snd (send_each smtp (smtp_config st) to subject_template
                   body_template (e :: rest))); [apply H | tauto].
Qed.

(** With a complete SMTP configuration [send_email_notifications] mails
    the entries in order, one mail each with the subject and body of the
    templates, and stops at the first mail the SMTP helper raises on: it
    returns normally exactly when every mail went out, and otherwise the
    exception of the helper comes through and the entries after the
    refused one get no mail. *)
Theorem send_email_notifications_in_order (smtp : mail -> bool) (st : notifier)
    (new_entries : list entry) (to : string)
    (subject_template body_template : template) :
  missing_keys (smtp_config st) = [] ->
  let m := mail_for (smtp_config st) to subject_template body_template in
  let out := send_email_notifications smtp st new_entries to subject_template
               body_template in
  match snd out with
  | Ok _ =>
      fst out = map m new_entries
      /\ Forall (fun e => smtp (m e) = true) new_entries
  | Raise err =>
      err = SMTPException
      /\ exists pre x post,
           new_entries = pre ++ x :: post
           /\ Forall (fun e => smtp (m e) = true) pre
           /\ smtp (m x) = false
           /\ fst out = map m pre ++ [m x]
  end.
Proof.
  intros Hcfg. unfold send_email_notifications.
  destruct new_entries as [|e rest].
  - cbn [fst snd map]. split; [reflexivity | constructor].
  - rewrite Hcfg. now apply send_each_complete.
Qed.

Lemma send_email_notifications_in_order_witness :
  exists pre x post,
    [Examples.chapter_1156; Examples.numbered 1157] = pre ++ x :: post
    /\ fst (send_email_notifications Examples.smtp_down
              (Examples.notifier_smtp [])
              [Examples.chapter_1156; Examples.numbered 1157]
              "you@example.com" email_subject_template email_body_template)
       = map (mail_for Examples.smtp_complete "you@example.com"
                email_subject_template email_body_template) pre
         ++ [mail_for Examples.smtp_complete "you@example.com"
               email_subject_template email_body_template x].
Proof.
  pose proof (send_email_notifications_in_order Examples.smtp_down
                (Examples.notifier_smtp [])
                [Examples.chapter_1156; Examples.numbered 1157]
                "you@example.com" email_subject_template email_body_template
                eq_refl) as H.
  cbv zeta in H.
  assert (snd (send_email_notifications Examples.smtp_down
                 (Examples.notifier_smtp [])
                 [Examples.chapter_1156; Examples.numbered 1157]
                 "you@example.com" email_subject_template email_body_template)
          = Raise SMTPException) as Hr by reflexivity.
  rewrite Hr in H.
  destruct H as (_ & pre & x & post & Hsplit & _ & _ & Hcalls).
  exists pre, x, post. split; [exact Hsplit | exact Hcalls].
Defined.

Lemma push_each_bounds
    (push : WebPush.subscription -> WebPush.push_payload -> WebPush.push_outcome)
    (new_entries : list entry) :
  forall (subs : list WebPush.subscription) (sent : Z)
         (done : list (option Z * string)),
    WebPush.inv subs ->
    let out := push_each push subs new_entries sent done in
    sublist (fst (fst (fst out))) subs
    /\ sent <= snd (fst out)
       <= sent + Z.of_nat (length new_entries) * Z.of_nat (length subs).
Proof.
  induction new_entries as [|e rest IH]; intros subs sent done Hinv;
    cbn [push_each].
  - cbn [fst snd length]. split; [reflexivity | lia].
  - rewrite (send_notification_spec push (push_payload_for e) subs).
    set (n := Z.of_nat (length (List.filter _ subs))).
    assert (0 <= n <= Z.of_nat (length subs)) as Hn.
    { unfold n. pose proof (filter_length_le
                              (delivered push (push_payload_for e)) subs). lia. }
    specialize (IH subs (sent + n) (done ++ [processed e]) Hinv).
    cbv zeta in IH.
    destruct (push_each push subs rest (sent + n) (done ++ [processed e]))
      as [[[subs2 calls] sent'] done'].
    cbn [fst snd] in *. destruct IH as [Hsub2 Hsent]. split.
    + exact Hsub2.
    + cbn [length]. nia.
Qed.

(** The summary of [send_combined_notifications] on a state the push
    service can reach. It counts every chapter of the batch; [email_sent]
    is all of them or none, and never more than the mails that went to the
    SMTP helper; [push_sent] lies between 0 and one push per chapter and
    stored subscription; the subscriptions stored afterwards are among
    those stored before, in their order; and with web push disabled no
    push is attempted and the stored subscriptions stay as they are. *)
Theorem send_combined_summary (smtp : mail -> bool)
    (push : WebPush.subscription -> WebPush.push_payload -> WebPush.push_outcome)
    (st : notifier) (ops : list WebPush.op) (new_entries : list entry)
    (email_recipient : option string) (send_web_push : bool)
    (subject_template body_template : template) :
  let out :=
    send_combined_notifications smtp push st (WebPush.run ops) new_entries
      email_recipient send_web_push subject_template body_template in
  let mails := fst (fst (fst out)) in
  let subs' := snd (fst (fst out)) in
  let calls := snd (fst out) in
  let result := snd out in
  total_chapters result = Z.of_nat (length new_entries)
  /\ (email_sent result = 0 \/ email_sent result = total_chapters result)
  /\ email_sent result <= Z.of_nat (length mails)
  /\ 0 <= push_sent result
       <= total_chapters result * WebPush.get_subscription_count (WebPush.run ops)
  /\ sublist subs' (WebPush.run ops)
  /\ (send_web_push = false ->
      subs' = WebPush.run ops /\ calls = [] /\ push_sent result = 0).
Proof.
  cbv zeta. unfold send_combined_notifications, WebPush.get_subscription_count.
  destruct new_entries as [|e0 rest].
  { cbn [fst snd length total_chapters email_sent push_sent].
    repeat split; try reflexivity; lia. }
  set (batch := e0 :: rest).
  set (mailing :=
         match email_recipient with
         | Some r =>
             if truthy_str email_recipient then
               match send_email_notifications smtp st batch r subject_template
                       body_template with
               | (mails, Ok _) => (mails, Z.of_nat (length batch))
               | (mails, Raise _) => (mails, 0)
               end
             else ([], 0)
         | None => ([], 0)
         end).
  assert ((mailing.2 = 0 \/ mailing.2 = Z.of_nat (length batch))
          /\ mailing.2 <= Z.of_nat (length mailing.1)) as Hmail.
  { unfold mailing. destruct email_recipient as [r|]; [|split; [now left|simpl; lia]].
    destruct (truthy_str (Some r)); [|split; [now left|simpl; lia]].
    destruct (send_email_notifications smtp st batch r subject_template
                body_template) as [mails [[]|err]] eqn:Esend;
      [|split; [now left|simpl; lia]].
    split; [now right|]. cbn [fst snd].
    assert (missing_keys (smtp_config st) = []) as Hcfg.
    { unfold send_email_notifications, batch in Esend.
      destruct (missing_keys (smtp_config st)); [reflexivity | discriminate]. }
    pose proof (send_email_notifications_complete smtp st batch r
                  subject_template body_template Hcfg) as H.
    cbv zeta in H. rewrite Esend in H. cbn [fst snd] in H.
    rewrite H, length_map. lia. }
  destruct mailing as [mails emailed]. cbn [fst snd] in Hmail.
  destruct Hmail as [Hcases Hle].
  destruct send_web_push.
  - pose proof (push_each_bounds push batch (WebPush.run ops) 0 []
                  (run_inv ops)) as Hpush.
    cbv zeta in Hpush.
    destruct (push_each push (WebPush.run ops) batch 0 [])
      as [[[subs' calls] sent] done].
    cbn [fst snd total_chapters email_sent push_sent] in *.
    destruct Hpush as [Hsub Hsent].
    split; [reflexivity|]. split; [exact Hcases|]. split; [exact Hle|].
    split; [lia|]. split; [exact Hsub | discriminate].
  - cbn [fst snd total_chapters email_sent push_sent].
    split; [reflexivity|]. split; [exact Hcases|]. split; [exact Hle|].
    split; [lia|]. split; [reflexivity|]. intros _. repeat split.
Qed.

End ChannelAccounts.

(** ** utils.py: the catalogue page and the base URL *)

Section Catalogue.
Import Utils.

Lemma string_length_app (a b : string) :
  String.length (a +:+ b) = (String.length a + String.length b)%nat.
Proof.
  induction a as [|x a IH]; [reflexivity|]. rewrite app_cons_s. simpl.
  now rewrite IH.
Qed.

(** Of two ways to cut a text, the cut further right leaves a suffix of
    what the other leaves. *)
Lemma app_eq_suffix (a b c d : string) :
  a +:+ b = c +:+ d -> (String.length a <= String.length c)%nat ->
  exists x, b = x +:+ d.
Proof.
  revert c. induction a as [|h a IH]; intros c Heq Hlen.
  - exists c. exact Heq.
  - destruct c as [|h' c]; [simpl in Hlen; lia|].
    rewrite !app_cons_s in Heq. injection Heq as _ Heq.
    apply (IH c Heq). simpl in Hlen. lia.
Qed.

Lemma find_after_unfold (p s : string) :
  find_after p s
  = match strip_prefix p s with
    | Some rest => Some rest
    | None =>
        match s with
        | String _ s' => find_after p s'
        | EmptyString => None
        end
    end.
Proof. destruct s; reflexivity. Qed.

Lemma find_after_sound (p s rest : string) :
  find_after p s = Some rest -> exists pre, s = pre +:+ p +:+ rest.
Proof.
  induction s as [|c s IH]; rewrite find_after_unfold;
    destruct (strip_prefix p _) as [r|] eqn:E.
  - intros [= <-]. exists "". exact (strip_prefix_app _ _ _ E).
  - discriminate.
  - intros [= <-]. exists "". exact (strip_prefix_app _ _ _ E).
  - intros H. destruct (IH H) as [pre ->]. now exists (String c pre).
Qed.

Lemma find_after_leftmost (p r pre : string) :
  forall s, s = pre +:+ p +:+ r ->
    exists rest x, find_after p s = Some rest /\ rest = x +:+ r.
Proof.
  induction pre as [|c pre IH]; intros s ->; rewrite find_after_unfold.
  - change ("" +:+ p +:+ r) with (p +:+ r). rewrite strip_prefix_of_app.
    now exists r, "".
  - destruct (strip_prefix p _) as [rest0|] eqn:E.
    + apply strip_prefix_app in E. exists rest0.
      rewrite <- string_app_assoc in E. symmetry in E.
      destruct (app_eq_suffix p rest0 (String c pre +:+ p) r) as [x Hx].
      * now symmetry.
      * rewrite string_length_app. lia.
      * now exists x.
    + rewrite app_cons_s. now apply IH.
Qed.

Lemma until_char_sound (c : ascii) (s g : string) :
  until_char c s = Some g ->
  (exists post, s = g +:+ String c post) /\ ~ occurs_in (String c "") g.
Proof.
  revert g. induction s as [|a s IH]; intros g; cbn [until_char];
    [discriminate|].
  destruct (Ascii.eqb_spec a c) as [->|Hne].
  - intros [= <-]. split; [now exists s|].
    intros (pre & post & H). now destruct pre.
  - destruct (until_char c s) as [g'|]; [|discriminate].
    intros [= <-]. destruct (IH g' eq_refl) as [[post ->] Hnot].
    split; [now exists post|].
    intros (pre & post' & H). destruct pre as [|b pre].
    + injection H as H _. congruence.
    + rewrite app_cons_s in H. injection H as _ H. apply Hnot. now exists pre, post'.
Qed.

Lemma until_char_complete (c : ascii) (x post : string) :
  exists g, until_char c (x +:+ String c post) = Some g.
Proof.
  induction x as [|a x [g IH]].
  - exists "". simpl. now rewrite Ascii.eqb_refl.
  - rewrite app_cons_s. cbn [until_char]. rewrite IH.
    destruct (Ascii.eqb a c); eauto.
Qed.

(** The catalogue pattern: the group is the text between the leftmost
    occurrence of [entries_literal] and the first closing bracket after it,
    and there is no match exactly when no closing bracket follows an
    occurrence of [entries_literal]. *)
Lemma re_search_entries_spec (html : string) :
  match re_search_entries html with
  | Some g =>
      exists pre post,
        html = pre +:+ entries_literal +:+ g +:+ "]" +:+ post
        /\ (forall pre' r,
              html = pre' +:+ entries_literal +:+ r ->
              (String.length pre <= String.length pre')%nat)
        /\ ~ occurs_in "]" g
  | None =>
      forall pre mid post,
        html <> pre +:+ entries_literal +:+ mid +:+ "]" +:+ post
  end.
Proof.
  unfold re_search_entries.
  destruct (find_after entries_literal html) as [rest|] eqn:Ef;
    cbn [mbind option_bind].
  - destruct (until_char "]" rest) as [g|] eqn:Eu.
    + destruct (find_after_sound _ _ _ Ef) as [pre Hpre].
      destruct (until_char_sound _ _ _ Eu) as [[post ->] Hnot].
      exists pre, post. split; [exact Hpre|]. split; [|exact Hnot].
      intros pre' r H.
      destruct (find_after_leftmost entries_literal r pre' html H)
        as (rest' & x & Hf & Hrest).
      rewrite Ef in Hf. injection Hf as <-.
      rewrite Hrest in Hpre. rewrite Hpre in H.
      apply (f_equal String.length) in H.
      rewrite !string_length_app in H. lia.
    + intros pre mid post H.
      destruct (find_after_leftmost entries_literal (mid +:+ "]" +:+ post)
                  pre html H) as (rest' & x & Hf & Hrest).
      rewrite Ef in Hf. injection Hf as <-.
      rewrite Hrest, <- string_app_assoc in Eu.
      destruct (until_char_complete "]" (x +:+ mid) post) as [g Hg].
      change ("]" +:+ post) with (String "]" post) in Eu.
      rewrite Hg in Eu. discriminate Eu.
  - intros pre mid post H.
    destruct (find_after_leftmost entries_literal (mid +:+ "]" +:+ post)
                pre html H) as (rest' & x & Hf & _).
    rewrite Ef in Hf. discriminate Hf.
Qed.

(** What [fetch_mangaliste_entries] does with the catalogue page. A request
    that raises and an error status come through. Otherwise the text
    decoded is, in brackets, what stands between the leftmost occurrence
    of [entries_literal] in the page and the first closing bracket after
    it, so a text without closing bracket; its decoding is returned, and
    [JSONDecodeError] comes through when it is no JSON. [RuntimeError] is
    raised exactly when no closing bracket follows an occurrence of
    [entries_literal]. *)
Theorem fetch_mangaliste_entries_outcome (w : remote) (base : string) :
  match http_get w (mangaliste_url base) with
  | None =>
      fetch_mangaliste_entries w base
      = Raise (if bad_url w (mangaliste_url base) then InvalidURL
               else RequestException)
  | Some resp =>
      if (400 <=? status_code resp) && (status_code resp <? 600) then
        fetch_mangaliste_entries w base = Raise (HTTPError (status_code resp))
      else
        (exists pre g post,
            body resp = pre +:+ entries_literal +:+ g +:+ "]" +:+ post
            /\ (forall pre' r,
                  body resp = pre' +:+ entries_literal +:+ r ->
                  (String.length pre <= String.length pre')%nat)
            /\ ~ occurs_in "]" g
            /\ fetch_mangaliste_entries w base
               = match json_entries w ("[" +:+ g +:+ "]") with
                 | Some es => Ok es
                 | None => Raise JSONDecodeError
                 end)
        \/ ((forall pre mid post,
               body resp <> pre +:+ entries_literal +:+ mid +:+ "]" +:+ post)
            /\ fetch_mangaliste_entries w base
               = Raise (RuntimeError
                          "Could not locate entries array in mangaliste page"))
  end.
Proof.
  unfold fetch_mangaliste_entries. cbv zeta.
  destruct (http_get w (mangaliste_url base)) as [resp|]; [|reflexivity].
  unfold raise_for_status.
  destruct ((400 <=? status_code resp) && (status_code resp <? 600));
    cbn [mbind result_bind]; [reflexivity|].
  pose proof (re_search_entries_spec (body resp)) as Hre.
  destruct (re_search_entries (body resp)) as [g|].
  - left. destruct Hre as (pre & post & Hbody & Hleft & Hnot).
    exists pre, g, post. repeat split; assumption.
  - right. split; [exact Hre | reflexivity].
Qed.

Lemma rstrip_slash_app_slash (s : string) :
  rstrip_slash (s +:+ "/") = rstrip_slash s.
Proof.
  induction s as [|c s IH]; [reflexivity|].
  rewrite app_cons_s. cbn [rstrip_slash]. now rewrite IH.
Qed.

Lemma rstrip_slash_idempotent (s : string) :
  rstrip_slash (rstrip_slash s) = rstrip_slash s.
Proof.
  induction s as [|c s IH]; [reflexivity|]. cbn [rstrip_slash].
  destruct (rstrip_slash s) as [|a t] eqn:E.
  - destruct (Ascii.eqb c "/") eqn:Ec; [reflexivity|].
    cbn [rstrip_slash]. now rewrite Ec.
  - cbn [rstrip_slash] in *. now rewrite IH.
Qed.

(** A trailing slash of the base URL makes no difference: the catalogue
    and the chapter page are requested under the same URLs, so the
    resolver, the notifier and the downloader behave the same with and
    without it; and stripping the slashes twice, as the notifier and the
    resolver do one after the other, is the same as stripping them once. *)
Theorem base_url_trailing_slash (w : remote) (base : string) :
  fetch_mangaliste_entries w (base +:+ "/") = fetch_mangaliste_entries w base
  /\ (forall chapter,
        fetch_chapter_data w chapter (base +:+ "/")
        = fetch_chapter_data w chapter base)
  /\ (forall d storage_dir chapter s,
        Downloader.download_chapter w d storage_dir (base +:+ "/") chapter s
        = Downloader.download_chapter w d storage_dir base chapter s)
  /\ (forall cfg, Notification.init w (base +:+ "/") cfg = Notification.init w base cfg)
  /\ fetch_mangaliste_entries w (rstrip_slash base)
     = fetch_mangaliste_entries w base.
Proof.
  assert (mangaliste_url (base +:+ "/") = mangaliste_url base) as Hm.
  { unfold mangaliste_url. now rewrite rstrip_slash_app_slash. }
  assert (forall chapter,
             chapter_url (base +:+ "/") chapter = chapter_url base chapter) as Hc.
  { intros chapter. unfold chapter_url. now rewrite rstrip_slash_app_slash. }
  assert (forall chapter,
             fetch_chapter_data w chapter (base +:+ "/")
             = fetch_chapter_data w chapter base) as Hf.
  { intros chapter.
    unfold fetch_chapter_data, extraction_body, view_source_url.
    now rewrite Hc. }
  split; [|split; [exact Hf|split; [|split]]].
  - unfold fetch_mangaliste_entries. now rewrite Hm.
  - intros d storage_dir chapter s. unfold Downloader.download_chapter.
    now rewrite Hf.
  - intros cfg. unfold Notification.init. now rewrite rstrip_slash_app_slash.
  - unfold fetch_mangaliste_entries, mangaliste_url.
    now rewrite rstrip_slash_idempotent.
Qed.

End Catalogue.

(** ** utils.py: [ensure_dir] *)

Section Directories.
Import FS Helpers.

Lemma walk_app (s : fs) (p q : list string) :
  forall cur, walk s cur (p ++ q) = (loc ← walk s cur p; walk s loc q).
Proof.
  induction p as [|c p IH]; intros cur; [reflexivity|].
  cbn [app walk]. destruct (is_dir_at s cur); [apply IH | reflexivity].
Qed.

Lemma is_dir_at_insert_dir (s : fs) (loc : path) :
  node_at s loc = None -> is_dir_at (<[loc := Dir]> s) loc = true.
Proof.
  intros H. unfold is_dir_at. rewrite node_at_insert.
  - now rewrite decide_True.
  - intros ->. discriminate H.
Qed.

Lemma mkdir_from_is_dir (p : list string) :
  forall (s : fs) (cur : path) (s' : fs),
    is_dir_at s cur = true -> mkdir_from s cur p = Ok s' ->
    exists loc, walk s' cur p = Some loc /\ node_at s' loc = Some Dir.
Proof.
  induction p as [|c rest IH]; intros s cur s' Hcur; cbn [mkdir_from walk].
  - intros [= <-]. exists cur. split; [reflexivity|].
    unfold is_dir_at in Hcur. now destruct (node_at s cur) as [[]|].
  - intros Hmk. pose proof (mkdir_from_grows (c :: rest) s cur s' Hmk) as Hgrow.
    rewrite (grows_is_dir_at s s' cur Hgrow Hcur).
    destruct (node_at s (step cur c)) as [[]|] eqn:E; [discriminate| |].
    + apply (IH s); [|exact Hmk]. unfold is_dir_at. now rewrite E.
    + apply (IH (<[step cur c := Dir]> s)); [|exact Hmk].
      now apply is_dir_at_insert_dir.
Qed.

Lemma mkdir_from_keeps (p : list string) :
  forall (s : fs) (cur : path) (s' : fs),
    mkdir_from s cur p = Ok s' ->
    forall loc,
      match node_at s loc with
      | Some n => node_at s' loc = Some n
      | None => node_at s' loc = None \/ node_at s' loc = Some Dir
      end.
Proof.
  induction p as [|c rest IH]; intros s cur s'; cbn [mkdir_from].
  - intros [= <-] loc. destruct (node_at s loc); auto.
  - destruct (node_at s (step cur c)) as [[]|] eqn:E; [discriminate| |].
    + apply IH.
    + intros Hmk loc. specialize (IH _ _ _ Hmk loc).
      rewrite node_at_insert in IH by (intros Hr; rewrite Hr in E; discriminate E).
      case_decide as Hloc.
      * subst loc. rewrite E. now right.
      * exact IH.
Qed.

Lemma mkdir_from_present (p : list string) :
  forall (s : fs) (cur loc : path),
    walk s cur p = Some loc -> node_at s loc = Some Dir ->
    mkdir_from s cur p = Ok s.
Proof.
  induction p as [|c rest IH]; intros s cur loc; cbn [walk mkdir_from];
    [reflexivity|].
  destruct (is_dir_at s cur); [|discriminate].
  intros Hwalk Hdir.
  assert (node_at s (step cur c) = Some Dir) as ->.
  { destruct rest as [|c' rest'].
    - cbn [walk] in Hwalk. injection Hwalk as <-. exact Hdir.
    - cbn [walk] in Hwalk. unfold is_dir_at in Hwalk.
      destruct (node_at s (step cur c)) as [[]|]; try discriminate.
      reflexivity. }
  eapply IH; eassumption.
Qed.

(** [ensure_dir]: on a path that is a directory already it changes
    nothing. When it returns, the path is a directory, every file and
    directory that was there is there unchanged, whatever is new is a
    directory, and calling it again changes nothing. When it raises, which
    it does with [OSError], the path was no directory. *)
Theorem ensure_dir_spec (s : fs) (p : path) :
  (is_dir s p = true -> ensure_dir s p = Ok s)
  /\ match ensure_dir s p with
     | Ok s' =>
         is_dir s' p = true
         /\ (forall loc n, node_at s loc = Some n -> node_at s' loc = Some n)
         /\ (forall loc,
               node_at s loc = None ->
               node_at s' loc = None \/ node_at s' loc = Some Dir)
         /\ ensure_dir s' p = Ok s'
     | Raise e => is_dir s p = false /\ exists what, e = OSError what
     end.
Proof.
  unfold ensure_dir, mkdir_parents.
  assert (is_dir s p = true -> mkdir_from s [] p = Ok s) as Hthere.
  { unfold is_dir, stat. destruct (walk s [] p) as [loc|] eqn:Ew;
      cbn [mbind option_bind]; [|discriminate].
    destruct (node_at s loc) as [[]|] eqn:En; try discriminate.
    intros _. eapply mkdir_from_present; eassumption. }
  split; [exact Hthere|].
  destruct (mkdir_from s [] p) as [s'|e] eqn:Emk.
  - split; [|split; [|split]].
    + destruct (mkdir_from_is_dir p s [] s' eq_refl Emk) as (loc & Hw & Hd).
      unfold is_dir, stat. rewrite Hw. cbn [mbind option_bind]. now rewrite Hd.
    + intros loc n Hn. pose proof (mkdir_from_keeps p s [] s' Emk loc) as H.
      now rewrite Hn in H.
    + intros loc Hn. pose proof (mkdir_from_keeps p s [] s' Emk loc) as H.
      now rewrite Hn in H.
    + eapply mkdir_from_again; [exact Emk | apply grows_refl].
  - split.
    + destruct (is_dir s p); [|reflexivity]. now specialize (Hthere eq_refl).
    + clear Hthere. revert Emk. generalize (@nil string) as cur. revert s.
      induction p as [|c rest IH]; intros s cur; cbn [mkdir_from];
        [discriminate|].
      destruct (node_at s (step cur c)) as [[]|]; [intros [= <-]; eauto| |];
        apply IH.
Qed.

End Directories.

(** ** downloader.py: what a download leaves on disk and in the book *)

Section ChapterOnDisk.
Import Utils FS Downloader Says.

Lemma is_dir_grows (s s' : fs) (p : path) :
  grows s s' -> is_dir s p = true -> is_dir s' p = true.
Proof.
  intros H. pose proof (stat_grows s s' p H) as Hk. unfold is_dir.
  destruct (stat s p) as [[]|], (stat s' p) as [[]|]; simpl in Hk;
    try tauto; try discriminate.
Qed.

Lemma download_image_log (w : remote) (d : disk) (u : string)
    (dest_path : path) (s s' : fs) (log : list event) (r : result unit) :
  _download_image w d u dest_path s = (s', log, r) ->
  log = [] \/ log = [Requested u].
Proof.
  unfold _download_image.
  destruct (exists_ s dest_path); [intros [= _ <- _]; now left|].
  destruct (http_get w u) as [resp|]; [|intros [= _ <- _]; now right].
  destruct (raise_for_status resp); [|intros [= _ <- _]; now right].
  destruct (mkdir_parents s (parent dest_path)) as [s1|];
    [|intros [= _ <- _]; now right].
  destruct (write_file _ s1 dest_path (body resp)) as [s2 r2].
  intros [= _ <- _]. now right.
Qed.

Lemma not_exists_before (s s' : fs) (q : path) :
  grows s s' -> exists_ s' q = false -> exists_ s q = false.
Proof.
  intros Hg Hq. destruct (exists_ s q) eqn:E; [|reflexivity].
  rewrite (exists_grows s s' q Hg E) in Hq. discriminate Hq.
Qed.

(** Whatever the page loop ends with, it removes nothing and requests
    only URLs of pages whose local file did not exist. *)
Lemma download_pages_any (w : remote) (d : disk) (images_dir : path)
    (pages : list page) :
  forall (s s' : fs) (log : list event) (r : result (list path)),
    download_pages w d images_dir pages s = (s', log, r) ->
    grows s s'
    /\ Forall (fun ev => exists pg u,
                   In pg pages /\ url pg = Some u /\ ev = Requested u
                   /\ exists_ s (joinpath images_dir (last_segment "/" u))
                      = false) log.
Proof.
  induction pages as [|pg rest IH]; intros s s' log r; cbn [download_pages].
  - intros [= <- <- _]. split; [apply grows_refl | constructor].
  - assert (forall s0 s0' log0 r0,
               grows s s0 ->
               download_pages w d images_dir rest s0 = (s0', log0, r0) ->
               grows s0 s0'
               /\ Forall (fun ev => exists pg' u,
                              In pg' (pg :: rest) /\ url pg' = Some u
                              /\ ev = Requested u
                              /\ exists_ s (joinpath images_dir
                                              (last_segment "/" u)) = false)
                    log0) as IH'.
    { intros s0 s0' log0 r0 Hs0 H0. destruct (IH _ _ _ _ H0) as [Hg Hl].
      split; [exact Hg|]. eapply Forall_impl; [exact Hl|].
      intros ev (pg' & u & Hin & Hu & Hev & Hex). exists pg', u.
      split; [now right|]. split; [exact Hu|]. split; [exact Hev|].
      eapply not_exists_before; eassumption. }
    destruct (url pg) as [u|] eqn:Eu; [|apply IH', grows_refl].
    destruct (truthy_str (Some u)); [|apply IH', grows_refl].
    set (dest := joinpath images_dir (last_segment "/" u)).
    destruct (_download_image w d u dest s) as [[s1 log1] r1] eqn:Ed.
    pose proof (download_image_grows _ _ _ _ _ _ _ _ Ed) as Hg1.
    assert (Forall (fun ev => exists pg' u',
                        In pg' (pg :: rest) /\ url pg' = Some u'
                        /\ ev = Requested u'
                        /\ exists_ s (joinpath images_dir
                                        (last_segment "/" u')) = false) log1)
      as Hl1.
    { destruct (exists_ s dest) eqn:Ex.
      - rewrite (download_image_skip w d u dest s Ex) in Ed.
        injection Ed as _ <- _. constructor.
      - destruct (download_image_log _ _ _ _ _ _ _ _ Ed) as [->| ->];
          constructor; [|constructor].
        exists pg, u. split; [now left|]. now repeat split. }
    destruct r1 as [[]|e]; [|intros [= <- <- _]; now split].
    destruct (download_pages w d images_dir rest s1) as [[s2 log2] r2] eqn:Er.
    intros [= <- <- _]. destruct (IH' _ _ _ _ Hg1 Er) as [Hg2 Hl2].
    split; [eapply grows_trans; eassumption | now apply Forall_app].
Qed.

Lemma create_epub_any (d : disk) (chapter : Z) (t : string)
    (image_files : list path) (output_path : path) (s s' : fs)
    (log : list event) (r : result unit) :
  _create_epub d chapter t image_files output_path s = (s', log, r) ->
  grows s s'
  /\ (log = [] \/ exists book, log = [WroteEpub output_path book]).
Proof.
  unfold _create_epub.
  destruct (build_book d s chapter t image_files) as [book|e];
    [|intros [= <- <- _]; split; [apply grows_refl | now left]].
  destruct (mkdir_parents s (parent output_path)) as [s1|e] eqn:Em;
    [|intros [= <- <- _]; split; [apply grows_refl | now left]].
  destruct (write_file _ s1 output_path _) as [s2 r2] eqn:Ew.
  intros [= <- <- _]. split; [|right; eauto].
  eapply grows_trans; [eapply mkdir_from_grows, Em | eapply write_file_grows, Ew].
Qed.

(** [download_chapter] never removes anything, however it ends: every
    directory stays a directory and every file a file. The only URLs it
    requests are those of the chapter page (and its view-source variant)
    and URLs of pages the chapter data lists whose local file did not
    exist when the call began: what an earlier call left on disk is not
    requested again, also after a call that failed. The only package it
    writes is the one at the chapter's package path. *)
Theorem download_chapter_never_removes (w : remote) (d : disk)
    (storage_dir : path) (base_url : string) (chapter : Z) (s : fs) :
  let out := download_chapter w d storage_dir base_url chapter s in
  grows s (fst (fst out))
  /\ Forall (fun ev =>
               match ev with
               | Requested u =>
                   In u (fst (fetch_chapter_data w chapter base_url))
                   \/ exists data t pages pg,
                        snd (fetch_chapter_data w chapter base_url) = Ok data
                        /\ title_and_pages data = Ok (t, pages)
                        /\ In pg pages /\ url pg = Some u
                        /\ exists_ s (joinpath
                                        (images_dir_of storage_dir chapter)
                                        (last_segment "/" u)) = false
               | WroteEpub p _ =>
                   p = joinpath (chapter_dir_of storage_dir chapter)
                         (epub_name chapter)
               end) (snd (fst out)).
Proof.
  cbv zeta. unfold download_chapter.
  destruct (fetch_chapter_data w chapter base_url) as [urls fetched].
  cbn [fst snd].
  assert (Forall (fun ev =>
                    match ev with
                    | Requested u =>
                        In u urls
                        \/ exists data t pages pg,
                             fetched = Ok data
                             /\ title_and_pages data = Ok (t, pages)
                             /\ In pg pages /\ url pg = Some u
                             /\ exists_ s (joinpath
                                             (images_dir_of storage_dir chapter)
                                             (last_segment "/" u)) = false
                    | WroteEpub p _ =>
                        p = joinpath (chapter_dir_of storage_dir chapter)
                              (epub_name chapter)
                    end) (map Requested urls)) as Hlog0.
  { apply Forall_forall. intros ev Hev. apply list_elem_of_In, in_map_iff in Hev.
    destruct Hev as (u & <- & Hu). now left. }
  destruct (fetched ≫= title_and_pages) as [[t pages]|e] eqn:Et;
    [|split; [apply grows_refl | exact Hlog0]].
  destruct fetched as [data|e]; [|discriminate Et]. cbn [mbind result_bind] in Et.
  destruct (mkdir_parents s (images_dir_of storage_dir chapter)) as [s1|e] eqn:Em;
    [|split; [apply grows_refl | exact Hlog0]].
  pose proof (mkdir_from_grows _ _ _ _ Em) as Hg1.
  destruct (download_pages w d (images_dir_of storage_dir chapter) pages s1)
    as [[s2 log1] r1] eqn:Ed.
  destruct (download_pages_any _ _ _ _ _ _ _ _ Ed) as [Hg2 Hl1].
  assert (Forall (fun ev =>
                    match ev with
                    | Requested u =>
                        In u urls
                        \/ exists data' t' pages' pg,
                             Ok data = Ok data'
                             /\ title_and_pages data' = Ok (t', pages')
                             /\ In pg pages' /\ url pg = Some u
                             /\ exists_ s (joinpath
                                             (images_dir_of storage_dir chapter)
                                             (last_segment "/" u)) = false
                    | WroteEpub p _ =>
                        p = joinpath (chapter_dir_of storage_dir chapter)
                              (epub_name chapter)
                    end) log1) as Hlog1.
  { eapply Forall_impl; [exact Hl1|].
    intros ev (pg & u & Hin & Hu & -> & Hex). right. exists data, t, pages, pg.
    repeat split; try assumption. eapply not_exists_before; eassumption. }
  destruct r1 as [image_paths|e];
    [|split; [eapply grows_trans; eassumption | now apply Forall_app]].
  destruct (_create_epub d chapter t _ _ s2) as [[s3 log2] r2] eqn:Ec.
  destruct (create_epub_any _ _ _ _ _ _ _ _ _ Ec) as [Hg3 Hl2].
  cbn [fst snd]. split.
  - eapply grows_trans; [exact Hg1|]. eapply grows_trans; eassumption.
  - apply Forall_app. split; [exact Hlog0|]. apply Forall_app.
    split; [exact Hlog1|].
    destruct Hl2 as [->|[book ->]]; constructor; [reflexivity | constructor].
Qed.

Lemma parse_digits_pad3 (idx : nat) :
  parse_digits 0 false (pad3 idx) = Some (Z.of_nat idx).
Proof.
  unfold pad3. rewrite pretty_Z_nonneg by lia.
  pose proof (parse_digits_pretty_N (Z.to_N (Z.of_nat idx))) as H.
  rewrite Z2N.id in H by lia.
  destruct (idx <? 10)%nat; [|destruct (idx <? 100)%nat].
  - change (parse_digits 0 true (pretty (Z.to_N (Z.of_nat idx)))
            = Some (Z.of_nat idx)). apply H.
  - change (parse_digits 0 true (pretty (Z.to_N (Z.of_nat idx)))
            = Some (Z.of_nat idx)). apply H.
  - apply H.
Qed.

Lemma string_app_inv_tail (t a b : string) : a +:+ t = b +:+ t -> a = b.
Proof.
  revert b. induction a as [|x a IH]; intros b H.
  - destruct b as [|y b]; [reflexivity|].
    apply (f_equal String.length) in H. rewrite !string_length_app in H.
    simpl in H. lia.
  - destruct b as [|y b].
    + apply (f_equal String.length) in H. rewrite !string_length_app in H.
      simpl in H. lia.
    + rewrite !app_cons_s in H. injection H as -> H. f_equal. now apply IH.
Qed.

Lemma page_file_inj (i j : nat) : page_file i = page_file j -> i = j.
Proof.
  unfold page_file. intros H.
  assert (pad3 i +:+ ".xhtml" = pad3 j +:+ ".xhtml") as H'
    by (now injection H).
  apply string_app_inv_tail in H'.
  pose proof (parse_digits_pad3 i) as Hi. rewrite H', parse_digits_pad3 in Hi.
  injection Hi as Hi. lia.
Qed.

Lemma epub_items_structure (d : disk) (s : fs) (image_files : list path) :
  forall (idx : nat) imgs pages links,
    epub_items d s idx image_files = Ok (imgs, pages, links) ->
    map page_file_name pages = map page_file (seq idx (length image_files))
    /\ map href links = map page_file (seq idx (length image_files))
    /\ Forall2 (fun img q =>
                  read_file s q = Ok (content img)
                  /\ file_name img = image_href (name q)) imgs image_files.
Proof.
  induction image_files as [|q rest IH]; intros idx imgs pages links;
    cbn [epub_items].
  - intros [= <- <- <-]. repeat split. constructor.
  - destruct (read_file s q) as [data|e] eqn:Er; cbn [mbind result_bind];
      [|discriminate].
    destruct (epub_items d s (S idx) rest) as [[[imgs' pages'] links']|e] eqn:E;
      cbn [mbind result_bind]; [|discriminate].
    intros [= <- <- <-]. destruct (IH _ _ _ _ E) as (H1 & H2 & H3).
    cbn [map length seq page_file_name href]. rewrite H1, H2.
    repeat split. constructor; [now split | exact H3].
Qed.

Lemma epub_items_raises (d : disk) (s : fs) (image_files : list path) :
  forall (idx : nat) (e : exn),
    epub_items d s idx image_files = Raise e ->
    exists q, In q image_files /\ read_file s q = Raise e.
Proof.
  induction image_files as [|q rest IH]; intros idx e; cbn [epub_items];
    [discriminate|].
  destruct (read_file s q) as [data|e'] eqn:Er; cbn [mbind result_bind].
  - destruct (epub_items d s (S idx) rest) as [[[imgs' pages'] links']|e'] eqn:E;
      cbn [mbind result_bind]; [discriminate|].
    intros [= <-]. destruct (IH _ _ E) as (q' & Hin & Hq').
    exists q'. split; [now right | exact Hq'].
  - intros [= <-]. exists q. split; [now left | exact Er].
Qed.

(** The book [_create_epub] builds from a list of image files. It is built
    exactly when every file can be read; then it has one image and one
    page per file, in the order of the list; each image carries the bytes
    of its file under the name [images/<file name>]; the pages are named
    [page_001.xhtml], [page_002.xhtml], ... and no two of them share a
    name; the table of contents links the pages in order and the spine
    is the navigation followed by the pages. Otherwise the exception of
    the first unreadable file comes through. *)
Theorem epub_book_structure (d : disk) (s : fs) (chapter : Z) (t : string)
    (image_files : list path) :
  match build_book d s chapter t image_files with
  | Ok book =>
      Forall2 (fun img q =>
                 read_file s q = Ok (content img)
                 /\ file_name img = image_href (name q))
        (images book) image_files
      /\ map page_file_name (html_pages book)
         = map page_file (seq 1 (length image_files))
      /\ NoDup (map page_file_name (html_pages book))
      /\ map href (toc book) = map page_file_name (html_pages book)
      /\ spine book = "nav" :: map page_file_name (html_pages book)
  | Raise e => exists q, In q image_files /\ read_file s q = Raise e
  end.
Proof.
  unfold build_book.
  destruct (epub_items d s 1 image_files) as [[[imgs pages] links]|e] eqn:E;
    cbn [mbind result_bind].
  - destruct (epub_items_structure _ _ _ _ _ _ _ E) as (Hp & Hl & Hi).
    cbn [images html_pages toc spine]. rewrite Hp, Hl.
    repeat split; [exact Hi|].
    assert (Inj eq eq page_file) as Hinj by (intros i j; apply page_file_inj).
    apply (NoDup_fmap_2 page_file), NoDup_seq.
  - eapply epub_items_raises, E.
Qed.

Lemma chapter_paths (storage_dir : path) (chapter : Z) :
  chapter_dir_of storage_dir chapter = storage_dir ++ [pretty chapter]
  /\ images_dir_of storage_dir chapter
     = storage_dir ++ [pretty chapter; "images"]
  /\ joinpath (chapter_dir_of storage_dir chapter) (epub_name chapter)
     = storage_dir ++ [pretty chapter; epub_name chapter].
Proof.
  destruct (pretty_component chapter) as (Hne & Hdot & _).
  assert (chapter_dir_of storage_dir chapter = storage_dir ++ [pretty chapter])
    as Hdir.
  { unfold chapter_dir_of, joinpath.
    apply String.eqb_neq in Hne, Hdot. now rewrite Hne, Hdot. }
  unfold images_dir_of. rewrite Hdir. split; [reflexivity|].
  split; unfold joinpath; cbn [String.eqb orb]; now rewrite <- app_assoc.
Qed.

Lemma local_paths_length (images_dir : path) (pages : list page) :
  length (local_paths images_dir pages) = length (List.filter has_url pages).
Proof.
  unfold local_paths, has_url.
  induction pages as [|pg pages IH]; [reflexivity|].
  cbn [omap list_omap List.filter].
  destruct (url pg) as [u|]; [|exact IH].
  destruct (truthy_str (Some u)); cbn [length]; now rewrite IH.
Qed.

(** What a successful [download_chapter] leaves behind. The path returned
    is [<storage>/<chapter>/onepiece_<chapter>.epub]; the file there holds
    the bytes of the book that was written last; that book carries the
    title of the chapter data and one image for every page that has a
    URL; the images directory [<storage>/<chapter>/images] exists and the
    local file of every page that has a URL can be read. *)
Theorem download_chapter_delivers (w : remote) (d : disk) (storage_dir : path)
    (base_url : string) (chapter : Z) (s s' : fs) (log : list event) (p : path) :
  download_chapter w d storage_dir base_url chapter s = (s', log, Ok p) ->
  p = storage_dir ++ [pretty chapter; epub_name chapter]
  /\ is_dir s' (storage_dir ++ [pretty chapter; "images"]) = true
  /\ exists data t pages book,
       snd (fetch_chapter_data w chapter base_url) = Ok data
       /\ title_and_pages data = Ok (t, pages)
       /\ last log = Some (WroteEpub p book)
       /\ read_file s' p = Ok (epub_bytes d book)
       /\ title book
          = "One Piece – Kapitel " +:+ pretty chapter +:+ ": " +:+ t
       /\ length (images book) = length (List.filter has_url pages)
       /\ Forall (fun q => is_ok (read_file s' q) = true)
            (local_paths (storage_dir ++ [pretty chapter; "images"]) pages).
Proof.
  intros H.
  destruct (download_chapter_ok_inv _ _ _ _ _ _ _ _ _ H)
    as (data & t & pages & s1 & s2 & s2' & log1 & book
        & Hdata & Ht & Hmk & Hdl & Hbook & Hmk2 & Hw & Hp & ->).
  destruct (chapter_paths storage_dir chapter) as (_ & Himg & Hepub).
  rewrite Himg in *. rewrite Hepub in Hp.
  destruct (download_pages_ok _ _ _ _ _ _ _ _ Hdl) as (_ & Hg12 & _).
  pose proof (mkdir_from_grows _ _ _ _ Hmk2) as Hg22.
  pose proof (write_file_grows _ _ _ _ _ _ Hw) as Hg23.
  assert (grows s2 s') as Hg2 by (eapply grows_trans; eassumption).
  split; [exact Hp|]. split.
  - apply (is_dir_grows s1); [eapply grows_trans; eassumption|].
    destruct (mkdir_from_is_dir _ s [] s1 eq_refl Hmk) as (loc & Hwalk & Hdir).
    unfold is_dir, stat. rewrite Hwalk. cbn [mbind option_bind].
    now rewrite Hdir.
  - exists data, t, pages, book.
    split; [exact Hdata|]. split; [exact Ht|].
    split; [now rewrite !app_assoc, last_snoc|].
    destruct (build_book_ok _ _ _ _ _ _ Hbook) as (Hnames & _ & Hread).
    split; [|split; [|split]].
    + destruct (write_file_cases (write_fault d p) s2' p (epub_bytes d book))
        as [(e & He & _)|(loc & Hwalk & Hn & Hcase)].
      * rewrite He in Hw. discriminate Hw.
      * destruct (write_fault d p) as [n|].
        -- destruct Hcase as [e He]. rewrite He in Hw. discriminate Hw.
        -- rewrite Hcase in Hw. injection Hw as <-.
           unfold read_file. now rewrite (stat_after_write s2' p loc _ Hwalk Hn).
    + unfold build_book in Hbook.
      destruct (epub_items d s2 1 _) as [[[imgs pgs] links]|e];
        cbn [mbind result_bind] in Hbook; [|discriminate Hbook].
      now injection Hbook as <-.
    + apply (f_equal (@length string)) in Hnames.
      rewrite !length_map in Hnames. rewrite Hnames.
      rewrite (Permutation_length (sorted_perm name String.leb _)).
      apply local_paths_length.
    + apply Forall_forall. intros q Hq.
      rewrite Forall_forall in Hread.
      apply (read_file_grows s2 s' q Hg2), Hread.
      now rewrite (sorted_perm name String.leb _).
Qed.

Lemma download_chapter_delivers_witness :
  read_file (fst (fst (download_chapter Examples.chapter_site Examples.good_disk
                         ["data"] "https://onepiece.tube" 1156 ∅)))
    ["data"; "1156"; "onepiece_1156.epub"] = Ok "EPUB".
Proof.
  set (run := download_chapter Examples.chapter_site Examples.good_disk
                ["data"] "https://onepiece.tube" 1156 ∅).
  assert (snd run = Ok ["data"; "1156"; "onepiece_1156.epub"]) as Hok
    by (vm_compute; reflexivity).
  pose proof (triple_eta run) as Hrun. rewrite Hok in Hrun.
  destruct (download_chapter_delivers _ _ _ _ _ _ _ _ _ Hrun)
    as (_ & _ & data & t & pages & book & _ & _ & _ & Hread & _).
  exact Hread.
Defined.

End ChapterOnDisk.

(** ** scheduler.py: the periodic job *)

Section PeriodicJob.
Import Utils FS Downloader Notification Job.

Lemma download_chapter_grows (w : remote) (d : disk) (storage_dir : path)
    (base_url : string) (chapter : Z) (s s' : fs) (log : list event)
    (r : result path) :
  download_chapter w d storage_dir base_url chapter s = (s', log, r) ->
  grows s s'.
Proof.
  unfold download_chapter.
  destruct (fetch_chapter_data w chapter base_url) as [urls fetched].
  destruct (fetched ≫= title_and_pages) as [[t pages]|e];
    [|intros [= <- _ _]; apply grows_refl].
  destruct (mkdir_parents s (images_dir_of storage_dir chapter)) as [s1|e] eqn:Em;
    [|intros [= <- _ _]; apply grows_refl].
  pose proof (mkdir_from_grows _ _ _ _ Em) as Hg1.
  destruct (download_pages w d (images_dir_of storage_dir chapter) pages s1)
    as [[s2 log1] r1] eqn:Ed.
  destruct (download_pages_any _ _ _ _ _ _ _ _ Ed) as [Hg2 _].
  destruct r1 as [image_paths|e];
    [|intros [= <- _ _]; eapply grows_trans; eassumption].
  destruct (_create_epub d chapter t _ _ s2) as [[s3 log2] r2] eqn:Ec.
  destruct (create_epub_any _ _ _ _ _ _ _ _ _ Ec) as [Hg3 _].
  intros [= <- _ _].
  eapply grows_trans; [exact Hg1|]. eapply grows_trans; eassumption.
Qed.

Lemma check_for_update_ok (w : remote) (st : Notification.notifier)
    (current_latest : Z)
    (out : list entry) :
  snd (check_for_update w st current_latest) = Ok out ->
  Forall (fun e => exists n, number e = Some n /\ current_latest < n) out
  /\ StronglySorted number_le out.
Proof.
  unfold check_for_update. cbn [snd].
  set (new := List.filter _ (entries (refresh w st))).
  unfold sort_keys. destruct (mapM number new) as [ks|] eqn:Eks;
    cbn [mbind result_bind]; [|discriminate].
  intros [= <-]. split; [|apply sorted_by_number].
  assert (Forall (fun e => is_Some (number e)) new) as Hnum.
  { apply (mapM_is_Some_1 number). rewrite Eks. eauto. }
  apply Forall_forall. intros e He.
  rewrite (sorted_perm number_or_0 Z.leb new) in He.
  rewrite Forall_forall in Hnum. destruct (Hnum e He) as [n Hn].
  apply list_elem_of_In, filter_In in He. destruct He as [_ Hgt].
  unfold number_or_0 in Hgt. rewrite Hn in Hgt. simpl in Hgt.
  exists n. split; [exact Hn | lia].
Qed.

Lemma omap_number_numbered (es : list entry) :
  Forall (fun e => is_Some (number e)) es ->
  omap number es = map number_or_0 es
  /\ map Some (map number_or_0 es) = map number es.
Proof.
  induction 1 as [|e es [n Hn] _ [IH1 IH2]]; [now split|].
  cbn [omap list_omap map]. unfold number_or_0 at 1 3.
  rewrite Hn, IH1, IH2. now split.
Qed.

Lemma sorted_numbers (es : list entry) :
  StronglySorted number_le es -> StronglySorted Z.le (map number_or_0 es).
Proof.
  induction 1 as [|e es _ IH Hall]; cbn [map]; constructor; [exact IH|].
  apply Forall_forall. intros n Hn. apply list_elem_of_In, in_map_iff in Hn.
  destruct Hn as (x & <- & Hx). rewrite Forall_forall in Hall.
  apply Hall. now apply list_elem_of_In.
Qed.

(** The loop of [_job]: one attempt per entry that has a number, in order;
    the watermark ends at the maximum of its start and the numbers
    downloaded; nothing else of the scheduler changes and nothing is
    removed from the disk; a notification is attempted only after a
    download that returned and only with a recipient. *)
Lemma job_loop_spec (w : remote) (d : disk) (smtp : mail -> bool)
    (new_entries : list entry) :
  forall (sch : scheduler) (s : fs),
    let out := job_loop w d smtp sch new_entries s in
    let sch' := fst (fst (fst out)) in
    map attempt_number (snd out) = omap number new_entries
    /\ current_latest sch'
       = max_list (current_latest sch) (succeeded (snd out))
    /\ set_current_latest sch' (current_latest sch) = sch
    /\ grows s (snd (fst (fst out)))
    /\ Forall (fun a =>
                 match notified a with
                 | Some _ =>
                     is_ok (downloaded a) = true
                     /\ truthy_str (recipient sch) = true
                 | None => True
                 end) (snd out).
Proof.
  induction new_entries as [|e rest IH]; intros sch s; cbn [job_loop].
  - cbn [fst snd map omap list_omap succeeded]. destruct sch.
    repeat split; [apply grows_refl | constructor].
  - destruct (number e) as [n|] eqn:En.
    2:{ cbn [omap list_omap]. rewrite En. apply IH. }
    cbn [omap list_omap]. rewrite En.
    destruct (download_chapter w d (storage_dir sch) (downloader_base_url sch)
                n s) as [[s1 log] r] eqn:Ed.
    pose proof (download_chapter_grows _ _ _ _ _ _ _ _ _ Ed) as Hg1.
    destruct r as [p|err].
    + specialize (IH (set_current_latest sch (Z.max (current_latest sch) n)) s1).
      cbv zeta in IH.
      destruct (job_loop w d smtp _ rest s1) as [[[sch' s2] log'] done].
      cbn [fst snd map] in *. destruct IH as (H1 & H2 & H3 & H4 & H5).
      split; [now rewrite H1|]. split; [exact H2|]. split.
      { destruct sch, sch'. cbn in *. now injection H3 as -> -> -> ->. }
      split; [eapply grows_trans; eassumption|].
      constructor; [|exact H5].
      cbn [notified downloaded]. unfold notify. cbn [recipient set_current_latest].
      destruct (recipient sch) as [to|]; [|exact I].
      destruct (truthy_str (Some to)); [now split | exact I].
    + specialize (IH sch s1). cbv zeta in IH.
      destruct (job_loop w d smtp sch rest s1) as [[[sch' s2] log'] done].
      cbn [fst snd map] in *. destruct IH as (H1 & H2 & H3 & H4 & H5).
      split; [now rewrite H1|]. split; [exact H2|]. split; [exact H3|].
      split; [eapply grows_trans; eassumption|].
      constructor; [exact I | exact H5].
Qed.

Lemma job_spec (w : remote) (d : disk) (smtp : mail -> bool)
    (sch : scheduler) (s : fs) :
  let out := _job w d smtp sch s in
  let sch' := fst (fst (fst out)) in
  current_latest sch' = max_list (current_latest sch) (succeeded (snd out))
  /\ set_current_latest sch' (current_latest sch)
     = set_notifier sch (refresh w (Job.notifier sch))
  /\ grows s (snd (fst (fst out)))
  /\ Forall (fun a => current_latest sch < attempt_number a) (snd out)
  /\ StronglySorted Z.le (map attempt_number (snd out))
  /\ Forall (fun a =>
               match notified a with
               | Some _ =>
                   is_ok (downloaded a) = true
                   /\ truthy_str (Job.recipient sch) = true
               | None => True
               end) (snd out)
  /\ match snd (check_for_update w (Job.notifier sch) (current_latest sch)) with
     | Ok new_entries =>
         map Some (map attempt_number (snd out)) = map number new_entries
     | Raise _ =>
         snd out = [] /\ snd (fst out) = [] /\ snd (fst (fst out)) = s
     end.
Proof.
  cbv zeta. unfold _job.
  pose proof (check_for_update_ok w (Job.notifier sch) (current_latest sch)) as Hok.
  assert (fst (check_for_update w (Job.notifier sch) (current_latest sch))
          = refresh w (Job.notifier sch)) as Hst by reflexivity.
  destruct (check_for_update w (Job.notifier sch) (current_latest sch))
    as [st' checked].
  cbn [fst snd] in *. subst st'. destruct checked as [new_entries|e].
  - destruct (Hok new_entries eq_refl) as [Hnum Hsorted].
    assert (Forall (fun e => is_Some (number e)) new_entries) as Hsome.
    { eapply Forall_impl; [exact Hnum|]. intros e (n & Hn & _). eauto. }
    destruct (omap_number_numbered new_entries Hsome) as [Homap Hmap].
    pose proof (job_loop_spec w d smtp new_entries
                  (set_notifier sch (refresh w (Job.notifier sch))) s) as H.
    cbv zeta in H. cbn [current_latest Job.recipient set_notifier] in H.
    destruct H as (H1 & H2 & H3 & H4 & H5).
    rewrite Homap in H1.
    split; [exact H2|]. split; [exact H3|]. split; [exact H4|].
    split; [|split; [|split; [exact H5|]]].
    + apply (Forall_fmap attempt_number (fun n => current_latest sch < n)).
      change (Forall (fun n => current_latest sch < n)
                (map attempt_number
                   (snd (job_loop w d smtp
                           (set_notifier sch (refresh w (Job.notifier sch)))
                           new_entries s)))).
      rewrite H1. apply Forall_fmap. eapply Forall_impl; [exact Hnum|].
      intros e (n & Hn & Hlt). cbn. unfold number_or_0. now rewrite Hn.
    + rewrite H1. now apply sorted_numbers.
    + now rewrite H1.
  - cbn [fst snd succeeded omap list_omap map]. destruct sch.
    repeat split; try constructor. apply grows_refl.
Qed.

Lemma succeeded_spec (done : list attempt) (n : Z) :
  In n (succeeded done)
  <-> exists a, In a done /\ is_ok (downloaded a) = true /\ attempt_number a = n.
Proof.
  unfold succeeded. rewrite <- list_elem_of_In, list_elem_of_omap. split.
  - intros (a & Ha & Hn). exists a. apply list_elem_of_In in Ha.
    destruct (is_ok (downloaded a)); [|discriminate].
    injection Hn as <-. auto.
  - intros (a & Ha & Hok & <-). exists a. rewrite Hok.
    split; [now apply list_elem_of_In | reflexivity].
Qed.

(** One run of [_job]. When the update check raises, nothing is
    downloaded, nothing is sent and the files stay as they are. Otherwise
    the chapters attempted are exactly the entries the check returned,
    none skipped, in ascending order of number and all above the
    watermark the run started with: a download or a mail that fails does
    not keep the later chapters from being attempted. *)
Theorem job_attempts_every_new_chapter (w : remote) (d : disk)
    (smtp : mail -> bool) (sch : scheduler) (s : fs) :
  let out := _job w d smtp sch s in
  StronglySorted Z.le (map attempt_number (snd out))
  /\ Forall (fun a => current_latest sch < attempt_number a) (snd out)
  /\ match snd (check_for_update w (Job.notifier sch) (current_latest sch)) with
     | Ok new_entries =>
         map Some (map attempt_number (snd out)) = map number new_entries
     | Raise _ =>
         snd out = [] /\ snd (fst out) = [] /\ snd (fst (fst out)) = s
         /\ current_latest (fst (fst (fst out))) = current_latest sch
     end.
Proof.
  pose proof (job_spec w d smtp sch s) as H. cbv zeta in *.
  destruct H as (Hmax & _ & _ & Habove & Hsorted & _ & Hcheck).
  split; [exact Hsorted|]. split; [exact Habove|].
  destruct (snd (check_for_update w (Job.notifier sch) (current_latest sch)));
    [exact Hcheck|].
  destruct Hcheck as (Hnone & Hlog & Hs). repeat split; try assumption.
  rewrite Hmax, Hnone. reflexivity.
Qed.

(** The watermark after a run of [_job] is the maximum of the watermark
    before and the numbers of the chapters whose download returned: it
    never decreases, it is at least every number downloaded, and it moves
    only to a number that was downloaded in this run. The run changes
    nothing else of the scheduler but the refreshed snapshot of its
    notifier, and it removes nothing from the disk. *)
Theorem job_watermark (w : remote) (d : disk) (smtp : mail -> bool)
    (sch : scheduler) (s : fs) :
  let out := _job w d smtp sch s in
  let sch' := fst (fst (fst out)) in
  current_latest sch' = max_list (current_latest sch) (succeeded (snd out))
  /\ current_latest sch <= current_latest sch'
  /\ Forall (fun a =>
               is_ok (downloaded a) = true ->
               attempt_number a <= current_latest sch') (snd out)
  /\ (current_latest sch' = current_latest sch
      \/ exists a, In a (snd out) /\ is_ok (downloaded a) = true
                   /\ attempt_number a = current_latest sch')
  /\ storage_dir sch' = storage_dir sch
  /\ downloader_base_url sch' = downloader_base_url sch
  /\ Job.recipient sch' = Job.recipient sch
  /\ Job.notifier sch' = refresh w (Job.notifier sch)
  /\ grows s (snd (fst (fst out))).
Proof.
  pose proof (job_spec w d smtp sch s) as H. cbv zeta in *.
  destruct H as (Hmax & Hsame & Hgrows & _).
  set (out := _job w d smtp sch s) in *.
  set (sch' := fst (fst (fst out))) in *.
  split; [exact Hmax|]. split; [rewrite Hmax; apply max_list_ge|].
  split; [|split].
  - apply Forall_forall. intros a Ha Hok. rewrite Hmax.
    apply max_list_upper. right. apply succeeded_spec. exists a.
    split; [now apply list_elem_of_In | now split].
  - destruct (max_list_In (succeeded (snd out)) (current_latest sch))
      as [E|Hin]; rewrite <- Hmax in *; [now left | right].
    now apply succeeded_spec in Hin.
  - split; [exact (f_equal storage_dir Hsame)|].
    split; [exact (f_equal downloader_base_url Hsame)|].
    split; [exact (f_equal Job.recipient Hsame)|].
    split; [exact (f_equal Job.notifier Hsame) | exact Hgrows].
Qed.

(** A later run never goes back. Every chapter a second run of [_job]
    attempts, whatever the site, the disk and the mail server do then, has
    a number above the first run's starting watermark and above every
    chapter the first run downloaded. So a chapter whose download failed in
    the first run while a chapter with the same or a higher number was
    downloaded is not attempted again. *)
Theorem job_never_goes_back (w w' : remote) (d d' : disk)
    (smtp smtp' : mail -> bool) (sch : scheduler) (s : fs) :
  let first := _job w d smtp sch s in
  let second :=
    _job w' d' smtp' (fst (fst (fst first))) (snd (fst (fst first))) in
  Forall (fun b =>
            current_latest sch < attempt_number b
            /\ Forall (fun a =>
                         is_ok (downloaded a) = true ->
                         attempt_number a < attempt_number b) (snd first)
            /\ Forall (fun k =>
                         (exists a, In a (snd first)
                                    /\ is_ok (downloaded a) = true
                                    /\ attempt_number k <= attempt_number a) ->
                         attempt_number k <> attempt_number b) (snd first))
    (snd second).
Proof.
  cbv zeta.
  pose proof (job_spec w d smtp sch s) as H1. cbv zeta in H1.
  destruct H1 as (Hmax & _).
  set (first := _job w d smtp sch s) in *.
  pose proof (job_spec w' d' smtp' (fst (fst (fst first)))
                (snd (fst (fst first)))) as H2.
  cbv zeta in H2. destruct H2 as (_ & _ & _ & Habove & _).
  assert (forall a, In a (snd first) -> is_ok (downloaded a) = true ->
                    attempt_number a <= current_latest (fst (fst (fst first))))
    as Hdone.
  { intros a Ha Hok. rewrite Hmax. apply max_list_upper. right.
    apply succeeded_spec. exists a. now repeat split. }
  eapply Forall_impl; [exact Habove|]. intros b Hb. cbv beta in Hb.
  split; [|split].
  - pose proof (max_list_ge (succeeded (snd first)) (current_latest sch)). lia.
  - apply Forall_forall. intros a Ha Hok.
    apply list_elem_of_In in Ha. specialize (Hdone a Ha Hok). lia.
  - apply Forall_forall. intros k _ (a & Ha & Hok & Hle).
    specialize (Hdone a Ha Hok). lia.
Qed.

Lemma job_loop_mail_free (w : remote) (d : disk) (smtp smtp' : mail -> bool)
    (new_entries : list entry) :
  forall (sch : scheduler) (s : fs),
    let out := job_loop w d smtp sch new_entries s in
    let out' := job_loop w d smtp' sch new_entries s in
    fst out = fst out'
    /\ map attempt_number (snd out) = map attempt_number (snd out')
    /\ map downloaded (snd out) = map downloaded (snd out').
Proof.
  induction new_entries as [|e rest IH]; intros sch s; cbn [job_loop];
    [now repeat split|].
  destruct (number e) as [n|]; [|apply IH].
  destruct (download_chapter w d (storage_dir sch) (downloader_base_url sch) n s)
    as [[s1 log] [p|err]].
  - specialize (IH (set_current_latest sch (Z.max (current_latest sch) n)) s1).
    cbv zeta in IH.
    destruct (job_loop w d smtp _ rest s1) as [[[sch1 s2] log1] done1].
    destruct (job_loop w d smtp' _ rest s1) as [[[sch2 s3] log2] done2].
    cbn [fst snd map attempt_number downloaded] in *.
    destruct IH as (H1 & H2 & H3). injection H1 as -> -> ->.
    now rewrite H2, H3.
  - specialize (IH sch s1). cbv zeta in IH.
    destruct (job_loop w d smtp sch rest s1) as [[[sch1 s2] log1] done1].
    destruct (job_loop w d smtp' sch rest s1) as [[[sch2 s3] log2] done2].
    cbn [fst snd map attempt_number downloaded] in *.
    destruct IH as (H1 & H2 & H3). injection H1 as -> -> ->.
    now rewrite H2, H3.
Qed.

(** Mail has no say in a run of [_job]. Whatever the SMTP server does, the
    run attempts the same chapters with the same download outcomes, makes
    the same requests and leaves the same files and the same scheduler, the
    watermark included: a chapter that was downloaded counts although its
    mail failed. A notification is attempted only for a chapter whose
    download returned, and none at all without a recipient. *)
Theorem job_mail_does_not_matter (w : remote) (d : disk)
    (smtp smtp' : mail -> bool) (sch : scheduler) (s : fs) :
  let out := _job w d smtp sch s in
  let out' := _job w d smtp' sch s in
  fst out = fst out'
  /\ map attempt_number (snd out) = map attempt_number (snd out')
  /\ map downloaded (snd out) = map downloaded (snd out')
  /\ Forall (fun a =>
               match notified a with
               | Some _ =>
                   is_ok (downloaded a) = true
                   /\ truthy_str (Job.recipient sch) = true
               | None => True
               end) (snd out)
  /\ (truthy_str (Job.recipient sch) = false ->
      Forall (fun a => notified a = None) (snd out)).
Proof.
  pose proof (job_spec w d smtp sch s) as H. cbv zeta in *.
  destruct H as (_ & _ & _ & _ & _ & Hnote & _).
  assert (fst (_job w d smtp sch s) = fst (_job w d smtp' sch s)
          /\ map attempt_number (snd (_job w d smtp sch s))
             = map attempt_number (snd (_job w d smtp' sch s))
          /\ map downloaded (snd (_job w d smtp sch s))
             = map downloaded (snd (_job w d smtp' sch s))) as (H1 & H2 & H3).
  { unfold _job.
    destruct (check_for_update w (Job.notifier sch) (current_latest sch))
      as [st' [new_entries|e]]; [|now repeat split].
    apply job_loop_mail_free. }
  split; [exact H1|]. split; [exact H2|]. split; [exact H3|].
  split; [exact Hnote|]. intros Hto.
  eapply Forall_impl; [exact Hnote|]. intros a Ha. cbv beta in Ha.
  destruct (notified a); [|reflexivity].
  destruct Ha as [_ Ha]. congruence.
Qed.

End PeriodicJob.

(** ** scheduler.py and downloader.py: starting again on the same disk *)

Section Restart.
Import Utils FS Downloader Job.

Lemma node_at_lookup (s : fs) (loc : path) (c : string) :
  node_at s (loc ++ [c]) = s !! (loc ++ [c]).
Proof. unfold node_at. now destruct (loc ++ [c]) eqn:E; [apply app_eq_nil in E|]. Qed.




End Restart.

(** ** app.py: what the handlers answer *)

Section Handlers.
Import Utils FS Downloader App.

Lemma mkdir_from_raises (p : list string) :
  forall (s : fs) (cur : path) (e : exn),
    mkdir_from s cur p = Raise e -> is_ValueError e = false.
Proof.
  induction p as [|c rest IH]; intros s cur e; cbn [mkdir_from];
    [discriminate|].
  destruct (node_at s (step cur c)) as [[]|]; [now intros [= <-]| |]; apply IH.
Qed.

Lemma write_file_raises (fault : option nat) (s s' : fs) (p : path)
    (data : string) (e : exn) :
  write_file fault s p data = (s', Raise e) -> is_ValueError e = false.
Proof.
  unfold write_file. destruct (walk s [] p) as [loc|]; [|now intros [= _ <-]].
  destruct (node_at s loc) as [[]|], fault; intros [= _ E];
    try discriminate E; now subst e.
Qed.

Lemma read_file_raises (s : fs) (p : path) (e : exn) :
  read_file s p = Raise e -> is_ValueError e = false.
Proof.
  unfold read_file. destruct (stat s p) as [[]|]; intros [= <-]; reflexivity.
Qed.

(** The only [ValueError] out of [_download_image] is the one requests
    raises for a URL it refuses. *)
Lemma download_image_raises (w : remote) (d : disk) (u : string)
    (dest_path : path) (s s' : fs) (log : list event) (e : exn) :
  _download_image w d u dest_path s = (s', log, Raise e) ->
  is_ValueError e = true ->
  e = InvalidURL /\ http_get w u = None /\ bad_url w u = true.
Proof.
  unfold _download_image.
  destruct (exists_ s dest_path); [discriminate|].
  destruct (http_get w u) as [resp|].
  2:{ intros [= _ _ <-]. unfold request_error.
      destruct (bad_url w u); [auto | discriminate]. }
  unfold raise_for_status.
  destruct ((400 <=? status_code resp) && (status_code resp <? 600));
    [intros [= _ _ <-]; discriminate|].
  destruct (mkdir_parents s (parent dest_path)) as [s1|e'] eqn:Em.
  - destruct (write_file _ s1 dest_path (body resp)) as [s2 r2] eqn:Ew.
    intros [= _ _ ->] Hv. apply write_file_raises in Ew. congruence.
  - intros [= _ _ <-] Hv. apply mkdir_from_raises in Em. congruence.
Qed.

Lemma download_pages_raises (w : remote) (d : disk) (images_dir : path)
    (pages : list page) :
  forall (s s' : fs) (log : list event) (e : exn),
    download_pages w d images_dir pages s = (s', log, Raise e) ->
    is_ValueError e = true ->
    e = InvalidURL
    /\ exists pg u, In pg pages /\ url pg = Some u
                    /\ http_get w u = None /\ bad_url w u = true.
Proof.
  induction pages as [|pg rest IH]; intros s s' log e; cbn [download_pages];
    [discriminate|].
  assert (forall s0,
            download_pages w d images_dir rest s0 = (s', log, Raise e) ->
            is_ValueError e = true ->
            e = InvalidURL
            /\ exists pg' u, In pg' (pg :: rest) /\ url pg' = Some u
                             /\ http_get w u = None /\ bad_url w u = true)
    as Hrest.
  { intros s0 H Hv. destruct (IH _ _ _ _ H Hv) as (He & pg' & u & Hin & Hu).
    split; [exact He|]. exists pg', u. split; [now right | exact Hu]. }
  destruct (url pg) as [u|] eqn:Eu; [|apply Hrest].
  destruct (truthy_str (Some u)); [|apply Hrest].
  destruct (_download_image w d u _ s) as [[s1 log1] [[]|e1]] eqn:Ed.
  - destruct (download_pages w d images_dir rest s1) as [[s2 log2] [ps|e2]] eqn:Er;
      cbn [fmap result_fmap]; [discriminate|].
    intros [= _ _ <-] Hv. destruct (IH _ _ _ _ Er Hv) as (He & pg' & u' & Hin & Hu).
    split; [exact He|]. exists pg', u'. split; [now right | exact Hu].
  - intros [= _ _ <-] Hv.
    destruct (download_image_raises _ _ _ _ _ _ _ _ Ed Hv) as (He & Hu).
    split; [exact He|]. exists pg, u. split; [now left|]. now split.
Qed.

Lemma create_epub_raises (d : disk) (chapter : Z) (t : string)
    (image_files : list path) (output_path : path) (s s' : fs)
    (log : list event) (e : exn) :
  _create_epub d chapter t image_files output_path s = (s', log, Raise e) ->
  is_ValueError e = false.
Proof.
  unfold _create_epub, build_book.
  destruct (epub_items d s 1 image_files) as [[[imgs pages] links]|e'] eqn:E;
    cbn [mbind result_bind].
  - destruct (mkdir_parents s (parent output_path)) as [s1|e'] eqn:Em.
    + destruct (write_file _ s1 output_path _) as [s2 r2] eqn:Ew.
      intros [= _ _ ->]. eapply write_file_raises, Ew.
    + intros [= _ _ <-]. eapply mkdir_from_raises, Em.
  - intros [= _ _ <-]. destruct (epub_items_raises _ _ _ _ _ E) as (q & _ & Hq).
    eapply read_file_raises, Hq.
Qed.

(** A [ValueError] out of [download_chapter] is one that
    [fetch_chapter_data] raised, or the one requests raises for the URL of
    a page. *)
Lemma download_chapter_ValueError (w : remote) (d : disk) (storage_dir : path)
    (base_url : string) (chapter : Z) (s : fs) (e : exn) :
  snd (download_chapter w d storage_dir base_url chapter s) = Raise e ->
  is_ValueError e = true ->
  snd (fetch_chapter_data w chapter base_url) = Raise e
  \/ (e = InvalidURL
      /\ exists data t pages pg u,
           snd (fetch_chapter_data w chapter base_url) = Ok data
           /\ title_and_pages data = Ok (t, pages)
           /\ In pg pages /\ url pg = Some u
           /\ http_get w u = None /\ bad_url w u = true).
Proof.
  unfold download_chapter.
  destruct (fetch_chapter_data w chapter base_url) as [urls [data|e0]];
    cbn [mbind result_bind snd]; [|intros [= <-]; now left].
  intros H Hv. right. revert H.
  destruct (title_and_pages data) as [[t pages]|e1] eqn:Et.
  2:{ intros [= <-]. exfalso. unfold title_and_pages, require in Et.
      destruct (Utils.chapter data) as [ch|]; cbn [mbind result_bind] in Et;
        [|injection Et as <-; discriminate Hv].
      destruct (chapter_name ch); cbn [mbind result_bind] in Et;
        [|injection Et as <-; discriminate Hv].
      destruct (chapter_pages ch); cbn [mbind result_bind] in Et;
        [discriminate Et | injection Et as <-; discriminate Hv]. }
  destruct (mkdir_parents s (images_dir_of storage_dir chapter)) as [s1|e1] eqn:Em.
  2:{ intros [= <-]. apply mkdir_from_raises in Em. congruence. }
  destruct (download_pages w d _ pages s1) as [[s2 log1] [ps|e1]] eqn:Ed.
  2:{ intros [= <-].
      destruct (download_pages_raises _ _ _ _ _ _ _ _ Ed Hv)
        as (He & pg & u & Hin & Hu).
      split; [exact He|]. exists data, t, pages, pg, u. auto. }
  destruct (_create_epub d chapter t _ _ s2) as [[s3 log2] [[]|e1]] eqn:Ec;
    cbn [mbind result_bind snd]; [discriminate|].
  intros [= <-]. apply create_epub_raises in Ec. congruence.
Qed.

Lemma relative_to_app (base rest : path) : relative_to (base ++ rest) base = Ok rest.
Proof.
  induction base as [|b base IH]; [now destruct rest|].
  cbn [app relative_to]. now rewrite String.eqb_refl.
Qed.

(** [POST /api/chapters/{chapter}]. The handler does what
    [download_chapter] does to the files and requests what it requests.
    It answers 201 exactly when the download returned, and the body then
    names the package as [<chapter>/onepiece_<chapter>.epub] relative to
    the storage directory. It answers 404 exactly when the download
    raised a [ValueError]. That is one that [fetch_chapter_data] raised
    (the chapter page is a 404 or carries the unavailability marker, the
    data block is not JSON, or requests refuses the URL of the chapter
    page), or the one requests raises for the URL of a page of the chapter
    that it refuses, such as a URL without a scheme; the file system
    raises [OSError] only, and the packaging library is taken to accept
    every book. Every other exception
    gives 500; a chapter page that gives no response gives 404 when
    requests refuses its URL and 500 otherwise, as when the site cannot be
    reached. No exception comes through. *)
Theorem download_endpoint_status (w : remote) (d : disk) (storage_dir : path)
    (base_url : string) (chapter : Z) (s : fs) :
  let out := download_endpoint w d storage_dir base_url chapter s in
  let dl := download_chapter w d storage_dir base_url chapter s in
  fst out = fst dl
  /\ match snd out with
     | Returned status body =>
         status = 201
         /\ snd dl = Ok (storage_dir ++ [pretty chapter; epub_name chapter])
         /\ body_chapter body = chapter
         /\ body_epub body = pretty chapter +:+ "/" +:+ epub_name chapter
     | HTTPException status why =>
         exists e,
           why = StrOf e /\ snd dl = Raise e
           /\ (status = 404 /\ is_ValueError e = true
               /\ (snd (fetch_chapter_data w chapter base_url) = Raise e
                   \/ e = InvalidURL
                      /\ exists data t pages pg u,
                           snd (fetch_chapter_data w chapter base_url) = Ok data
                           /\ title_and_pages data = Ok (t, pages)
                           /\ In pg pages /\ url pg = Some u
                           /\ http_get w u = None /\ bad_url w u = true)
               \/ status = 500 /\ is_ValueError e = false)
     | Unhandled _ => False
     end
  /\ (http_get w (chapter_url base_url chapter) = None ->
      snd out
      = if bad_url w (chapter_url base_url chapter)
        then HTTPException 404 (StrOf InvalidURL)
        else HTTPException 500 (StrOf RequestException)).
Proof.
  cbv zeta. unfold download_endpoint.
  pose proof (download_chapter_ok_inv w d storage_dir base_url chapter s) as Hinv.
  pose proof (download_chapter_ValueError w d storage_dir base_url chapter s)
    as Hval.
  assert (http_get w (chapter_url base_url chapter) = None ->
          snd (download_chapter w d storage_dir base_url chapter s)
          = Raise (request_error w (chapter_url base_url chapter))) as Hdown.
  { intros Hget. unfold download_chapter, fetch_chapter_data. cbv zeta.
    now rewrite Hget. }
  destruct (download_chapter w d storage_dir base_url chapter s)
    as [[s' log] [p|e]]; cbn [fst snd mbind result_bind] in *.
  - split; [reflexivity|].
    destruct (Hinv s' log p eq_refl)
      as (_ & _ & _ & _ & _ & _ & _ & _ & _ & _ & _ & _ & _ & _ & _ & Hp & _).
    destruct (chapter_paths storage_dir chapter) as (_ & _ & Hepub).
    rewrite Hepub in Hp. subst p. rewrite relative_to_app.
    split; [repeat split | intros Hget; discriminate (Hdown Hget)].
  - split; [reflexivity|]. split.
    + destruct (is_ValueError e) eqn:Ev; exists e;
        (split; [reflexivity|]); (split; [reflexivity|]).
      * left. split; [reflexivity|]. split; [exact Ev|].
        exact (Hval e eq_refl Ev).
      * right. split; [reflexivity | exact Ev].
    + intros Hget. specialize (Hdown Hget). injection Hdown as ->.
      unfold request_error.
      now destruct (bad_url w (chapter_url base_url chapter)).
Qed.

(** A chapter whose first page has a URL without a scheme: requests
    refuses the URL with [MissingSchema], a [ValueError], and the handler
    answers 404 although the site has the chapter. *)
Example download_endpoint_page_without_scheme :
  let w :=
    {| http_get := fun u =>
         if String.eqb u "https://onepiece.tube/manga/kapitel/1156/1" then
           Some {| status_code := 200; body := "window.__data = {CHAPTER};" |}
         else None;
       bad_url := fun u => negb (String.prefix "http" u);
       json_entries := fun _ => None;
       json_data := fun _ =>
         Some {| chapter :=
                   Some {| chapter_name := Some "Idole";
                           chapter_pages :=
                             Some [ {| url := Some "/1156/01.jpg" |} ] |} |} |}
  in
  snd (download_endpoint w Examples.good_disk ["data"] "https://onepiece.tube"
         1156 ∅)
  = HTTPException 404 (StrOf InvalidURL).
Proof. vm_compute. reflexivity. Qed.

Lemma sort_keys_numbers (es : list entry) (ks : list Z) :
  Notification.sort_keys es = Ok ks ->
  map Some ks = map number es /\ ks = map Notification.number_or_0 es.
Proof.
  unfold Notification.sort_keys.
  destruct (mapM number es) as [ks'|] eqn:E; [|discriminate].
  intros [= <-]. apply mapM_Some in E.
  induction E as [|x y l k Hxy _ [IH1 IH2]]; [now split|].
  cbn [map]. unfold Notification.number_or_0 at 1.
  rewrite Hxy, IH1, <- IH2. now split.
Qed.

Lemma refresh_smtp_config (w : remote) (st : Notification.notifier) :
  Notification.smtp_config (Notification.refresh w st)
  = Notification.smtp_config st.
Proof.
  unfold Notification.refresh.
  now destruct (fetch_mangaliste_entries w (Notification.base_url st)).
Qed.

Lemma SMTP_CONFIG_complete (u : string -> option Z) (env : gmap string string)
    (cfg : gmap string Notification.pyval) :
  SMTP_CONFIG u env = Ok cfg -> Notification.missing_keys cfg = [].
Proof.
  unfold SMTP_CONFIG.
  destruct (truthy_str (env !! "SMTP_PORT")); cbn [mbind result_bind].
  - destruct (Py.int _) as [n|]; cbn [mbind result_bind]; [|discriminate].
    intros [= <-]. reflexivity.
  - intros [= <-]. reflexivity.
Qed.

(** [POST /api/notify] on a catalogue of the shape of [entry]: every
    element is an object whose number, when it has one, is an integer. The
    notifier is refreshed. The handler answers 200
    with the numbers of the new chapters, in ascending order and all above
    the number the caller sent, after one mail for each of them went out.
    It answers 500 through its own [HTTPException] only for a [KeyError]
    of the mail step, that is when the SMTP configuration lacks a key and
    there is a new chapter; no mail has gone out then. An exception comes
    through unhandled in two ways only: it is the exception of the update
    check, raised before any mail, or the exception of the SMTP helper
    after at least one mail was handed to it. With the
    configuration the application builds from its environment, which always
    has the five keys, the handler never raises its [HTTPException]. *)
Theorem notify_endpoint_answers (w : remote) (smtp : Notification.mail -> bool)
    (st : Notification.notifier) (current_latest : Z) (to : string) :
  let out := notify_endpoint w smtp st current_latest to in
  let mails := snd (fst out) in
  fst (fst out) = Notification.refresh w st
  /\ match snd out with
     | Returned status numbers =>
         status = 200
         /\ (exists new_entries,
               snd (Notification.check_for_update w st current_latest)
               = Ok new_entries
               /\ map Some numbers = map number new_entries)
         /\ StronglySorted Z.le numbers
         /\ Forall (fun n => current_latest < n) numbers
         /\ length mails = length numbers
     | HTTPException status why =>
         status = 500 /\ (exists msg, why = StrOf (KeyError msg))
         /\ mails = []
         /\ Notification.missing_keys (Notification.smtp_config st) <> []
     | Unhandled e =>
         (snd (Notification.check_for_update w st current_latest) = Raise e
          /\ mails = [])
         \/ (e = SMTPException /\ mails <> []
             /\ (exists new_entries,
                   snd (Notification.check_for_update w st current_latest)
                   = Ok new_entries)
             /\ Notification.missing_keys (Notification.smtp_config st) = [])
     end
  /\ (forall u env,
        SMTP_CONFIG u env = Ok (Notification.smtp_config st) ->
        forall status why, snd out <> HTTPException status why).
Proof.
  cbv zeta.
  assert (fst (fst (notify_endpoint w smtp st current_latest to))
          = Notification.refresh w st
          /\ match snd (notify_endpoint w smtp st current_latest to) with
             | Returned status numbers =>
                 status = 200
                 /\ (exists new_entries,
                       snd (Notification.check_for_update w st current_latest)
                       = Ok new_entries
                       /\ map Some numbers = map number new_entries)
                 /\ StronglySorted Z.le numbers
                 /\ Forall (fun n => current_latest < n) numbers
                 /\ length (snd (fst (notify_endpoint w smtp st current_latest to)))
                    = length numbers
             | HTTPException status why =>
                 status = 500 /\ (exists msg, why = StrOf (KeyError msg))
                 /\ snd (fst (notify_endpoint w smtp st current_latest to)) = []
                 /\ Notification.missing_keys (Notification.smtp_config st) <> []
             | Unhandled e =>
                 (snd (Notification.check_for_update w st current_latest)
                  = Raise e
                  /\ snd (fst (notify_endpoint w smtp st current_latest to)) = [])
                 \/ (e = SMTPException
                     /\ snd (fst (notify_endpoint w smtp st current_latest to)) <> []
                     /\ (exists new_entries,
                           snd (Notification.check_for_update w st current_latest)
                           = Ok new_entries)
                     /\ Notification.missing_keys (Notification.smtp_config st) = [])
             end) as [Hst Hcases].
  { unfold notify_endpoint.
    pose proof (check_for_update_ok w st current_latest) as Hok.
    assert (fst (Notification.check_for_update w st current_latest)
            = Notification.refresh w st) as Hfst by reflexivity.
    destruct (Notification.check_for_update w st current_latest)
      as [st' [new_entries|e]]; cbn [fst snd] in *; subst st'.
    2:{ split; [reflexivity|]. left. now split. }
    destruct (Hok new_entries eq_refl) as [Hnum Hsorted].
    pose proof (send_email_notifications_complete smtp
                  (Notification.refresh w st) new_entries to
                  Notification.email_subject_template
                  Notification.email_body_template) as Hcomplete.
    pose proof (send_each_no_KeyError smtp
                  (Notification.smtp_config (Notification.refresh w st)) to
                  Notification.email_subject_template
                  Notification.email_body_template new_entries) as HnoKey.
    cbv zeta in Hcomplete. rewrite refresh_smtp_config in *.
    unfold Notification.send_email_notifications in *.
    rewrite refresh_smtp_config in *.
    destruct new_entries as [|e0 rest].
    { cbn [fst snd Notification.sort_keys mapM]. split; [reflexivity|].
      split; [reflexivity|]. split; [now exists []|].
      repeat split; constructor. }
    set (batch := e0 :: rest) in *.
    destruct (Notification.missing_keys (Notification.smtp_config st))
      as [|k ks] eqn:Emiss.
    2:{ cbn [fst snd]. split; [reflexivity|]. split; [reflexivity|].
        split; [eauto|]. split; [reflexivity | discriminate]. }
    specialize (Hcomplete eq_refl). specialize (HnoKey eq_refl).
    destruct (Notification.send_each smtp (Notification.smtp_config st) to
                _ _ batch) as [mails [[]|err]] eqn:Esend; cbn [fst snd] in *.
    - assert (Forall (fun e => is_Some (number e)) batch) as Hsome.
      { eapply Forall_impl; [exact Hnum|]. intros e (n & Hn & _). eauto. }
      destruct (sort_keys_ok batch Hsome) as [numbers Hkeys]. rewrite Hkeys.
      destruct (sort_keys_numbers batch numbers Hkeys) as [Hmap Hnumbers].
      split; [reflexivity|]. split; [reflexivity|].
      split; [now exists batch|]. subst numbers mails.
      split; [now apply sorted_numbers|]. split; [|now rewrite !length_map].
      apply Forall_fmap. eapply Forall_impl; [exact Hnum|].
      intros e (n & Hn & Hlt). cbn. unfold Notification.number_or_0.
      now rewrite Hn.
    - subst err. split; [reflexivity|]. right. split; [reflexivity|].
      split; [|split; [now exists batch | reflexivity]].
      pose proof (send_each_complete smtp (Notification.smtp_config st) to
                    Notification.email_subject_template
                    Notification.email_body_template batch Emiss) as H.
      cbv zeta in H. rewrite Esend in H. cbn [fst snd] in H.
      destruct H as (_ & pre & x & post & _ & _ & _ & ->).
      now destruct (map _ pre). }
  split; [exact Hst|]. split; [exact Hcases|].
  intros u env Henv status why Hout. rewrite Hout in Hcases.
  destruct Hcases as (_ & _ & _ & Hmiss).
  apply Hmiss. eapply SMTP_CONFIG_complete, Henv.
Qed.

(** The push handlers on a state the service can reach.
    [POST /api/push/subscribe] answers 400 exactly when the keys lack
    [p256dh] or [auth], and stores nothing then; otherwise it answers 200
    and the endpoint is stored afterwards, the list being the old one or
    the old one with the new subscription at its end.
    [POST /api/push/unsubscribe] always answers 200, with [unsubscribed]
    exactly when the endpoint was stored, and the endpoint is not stored
    afterwards. *)
Theorem push_handlers_answer (ops : list WebPush.op) (ep : string)
    (ks : gmap string string) :
  let sub := {| WebPush.endpoint := Some ep; WebPush.sub_keys := Some ks |} in
  let stored := WebPush.run ops in
  (if WebPush.has_key ks "p256dh" && WebPush.has_key ks "auth" then
     snd (subscribe_to_push stored ep ks) = Returned 200 "subscribed"
     /\ Some ep ∈ WebPush.endpoints (fst (subscribe_to_push stored ep ks))
     /\ fst (subscribe_to_push stored ep ks)
        = (if bool_decide (Some ep ∈ WebPush.endpoints stored) then stored
           else stored ++ [sub])
   else
     subscribe_to_push stored ep ks
     = (stored,
        HTTPException 400 (Text "Failed to subscribe to push notifications")))
  /\ snd (unsubscribe_from_push stored ep)
     = Returned 200
         (if bool_decide (Some ep ∈ WebPush.endpoints stored)
          then "unsubscribed" else "not_found")
  /\ Some ep ∉ WebPush.endpoints (fst (unsubscribe_from_push stored ep)).
Proof.
  cbv zeta. destruct (run_inv ops) as [Hnd Hall].
  unfold subscribe_to_push, unsubscribe_from_push.
  rewrite subscribe_spec by exact Hall. rewrite unsubscribe_spec by exact Hall.
  unfold WebPush.well_formed. cbn [WebPush.endpoint WebPush.sub_keys].
  split.
  - destruct (WebPush.has_key ks "p256dh" && WebPush.has_key ks "auth");
      [|reflexivity].
    destruct (bool_decide (Some ep ∈ WebPush.endpoints (WebPush.run ops))) eqn:E;
      cbn [fst snd].
    + split; [reflexivity|]. split; [|reflexivity].
      now apply bool_decide_eq_true_1 in E.
    + split; [reflexivity|]. split; [|reflexivity].
      unfold WebPush.endpoints. rewrite map_app. apply elem_of_app. right.
      apply elem_of_cons. now left.
  - cbn [fst snd]. split; [reflexivity|]. apply filter_other_gone.
Qed.

End Handlers.

(** ** utils.py: the chapter page *)

Section ChapterPage.
Import Utils.

Lemma lazy_body_exact (s g : string) :
  lazy_body s = Some g ->
  exists inner ws3 post,
    g = inner +:+ "}" /\ all_space ws3 = true
    /\ s = g +:+ ws3 +:+ ";" +:+ post.
Proof.
  revert g. induction s as [|c s IH]; intros g; simpl; [discriminate|].
  destruct (Ascii.eqb c "}" && String.prefix ";" (skip_space s)) eqn:E.
  - intros [= <-]. apply andb_true_iff in E. destruct E as [Ec Hsemi].
    apply Ascii.eqb_eq in Ec. subst c.
    destruct (skip_space_app s) as (ws & Hws & Hs).
    destruct (prefix_semicolon _ Hsemi) as [post Hpost].
    exists "", ws, post. split; [reflexivity|]. split; [exact Hws|].
    change ("}" +:+ ws +:+ ";" +:+ post)
      with (String "}" (ws +:+ ";" +:+ post)).
    f_equal. rewrite Hs at 1. now rewrite Hpost.
  - destruct (lazy_body s) as [g'|]; [|discriminate]. intros [= <-].
    destruct (IH g' eq_refl) as (inner & ws3 & post & Hg & Hws & Hs).
    exists (String c inner), ws3, post.
    split; [rewrite app_cons_s; now f_equal|]. split; [exact Hws|].
    rewrite app_cons_s. now f_equal.
Qed.

Lemma match_data_here_exact (s g : string) :
  match_data_here s = Some g ->
  exists ws1 ws2 inner ws3 post,
    all_space ws1 = true /\ all_space ws2 = true /\ all_space ws3 = true
    /\ g = "{" +:+ inner +:+ "}"
    /\ s = "window.__data" +:+ ws1 +:+ "=" +:+ ws2 +:+ g +:+ ws3 +:+ ";"
           +:+ post.
Proof.
  unfold match_data_here. intros H.
  destruct (strip_prefix "window.__data" s) as [r1|] eqn:E1;
    cbn [mbind option_bind] in H; [|discriminate].
  destruct (strip_prefix "=" (skip_space r1)) as [r2|] eqn:E2;
    cbn [mbind option_bind] in H; [|discriminate].
  destruct (strip_prefix "{" (skip_space r2)) as [r3|] eqn:E3;
    cbn [mbind option_bind] in H; [|discriminate].
  destruct (lazy_body r3) as [g'|] eqn:E4;
    cbn [mbind option_bind] in H; [|discriminate].
  injection H as <-.
  apply strip_prefix_app in E1, E2, E3.
  destruct (skip_space_app r1) as (ws1 & Hws1 & Hr1).
  destruct (skip_space_app r2) as (ws2 & Hws2 & Hr2).
  destruct (lazy_body_exact _ _ E4) as (inner & ws3 & post & Hg & Hws3 & Hr3).
  exists ws1, ws2, inner, ws3, post.
  split; [exact Hws1|]. split; [exact Hws2|]. split; [exact Hws3|].
  split; [now rewrite Hg|].
  rewrite E1, Hr1, E2, Hr2, E3, Hr3. reflexivity.
Qed.

Lemma re_search_data_exact (s g : string) :
  re_search_data s = Some g ->
  exists pre ws1 ws2 inner ws3 post,
    all_space ws1 = true /\ all_space ws2 = true /\ all_space ws3 = true
    /\ g = "{" +:+ inner +:+ "}"
    /\ s = pre +:+ "window.__data" +:+ ws1 +:+ "=" +:+ ws2 +:+ g +:+ ws3
           +:+ ";" +:+ post.
Proof.
  induction s as [|c s IH]; cbn [re_search_data].
  - destruct (match_data_here "") as [g'|] eqn:E; [|discriminate].
    intros [= <-]. destruct (match_data_here_exact _ _ E)
      as (ws1 & ws2 & inner & ws3 & post & H1 & H2 & H3 & Hg & Hs).
    exists "", ws1, ws2, inner, ws3, post. auto.
  - destruct (match_data_here (String c s)) as [g'|] eqn:E.
    + intros [= <-]. destruct (match_data_here_exact _ _ E)
        as (ws1 & ws2 & inner & ws3 & post & H1 & H2 & H3 & Hg & Hs).
      exists "", ws1, ws2, inner, ws3, post. auto.
    + intros H. destruct (IH H)
        as (pre & ws1 & ws2 & inner & ws3 & post & H1 & H2 & H3 & Hg & ->).
      exists (String c pre), ws1, ws2, inner, ws3, post. auto.
Qed.

(** The no-break space U+00A0 is white space of the pattern, the
    separator U+001F as well. *)
Example re_search_data_no_break_space :
  let nbsp := String "194" (String "160" "") in
  let us := String "031" "" in
  re_search_data
    ("<script>window.__data" +:+ nbsp +:+ "=" +:+ us +:+ "{}" +:+ nbsp +:+ ";")
  = Some "{}".
Proof. reflexivity. Qed.

(** [fetch_chapter_data] in full. When the request for the chapter page
    raises, that exception comes through after this one request. A 404 or
    the unavailability marker gives [ValueError] after this one request.
    Otherwise the view-source variant is requested as well, and the text
    searched is its body when that request returned a status that is no
    error, and the body of the chapter page otherwise: a failure of the
    second request never surfaces, nor does an error status other than 404
    of the first. Then the function returns the decoding of a text in
    braces that stands in the text searched after [window.__data], an
    equals sign and optional white space, and before optional white space
    and a semicolon; it raises [JSONDecodeError] when that text is no
    JSON, and [RuntimeError] exactly when the text searched holds no such
    block. With [json.loads] returning or raising [JSONDecodeError], it
    raises nothing else. White space is that of Unicode, as [\s] has it in
    a pattern on text. *)
Theorem fetch_chapter_data_outcome (w : remote) (chapter : Z)
    (base_url : string) :
  let cu := chapter_url base_url chapter in
  let out := fetch_chapter_data w chapter base_url in
  match http_get w cu with
  | None =>
      out = ([cu], Raise (if bad_url w cu then InvalidURL else RequestException))
  | Some resp =>
      if (status_code resp =? 404) || contains unavailable_marker (body resp)
      then fst out = [cu] /\ exists msg, snd out = Raise (ValueError msg)
      else
        let html := extraction_body w base_url chapter (body resp) in
        fst out = [cu; view_source_url base_url chapter]
        /\ (html = body resp
            \/ exists vs,
                 http_get w (view_source_url base_url chapter) = Some vs
                 /\ raise_for_status vs = Ok () /\ html = body vs)
        /\ match snd out with
           | Ok data =>
               exists pre ws1 ws2 inner ws3 post,
                 all_space ws1 = true /\ all_space ws2 = true
                 /\ all_space ws3 = true
                 /\ html = pre +:+ "window.__data" +:+ ws1 +:+ "=" +:+ ws2
                           +:+ ("{" +:+ inner +:+ "}") +:+ ws3 +:+ ";" +:+ post
                 /\ json_data w ("{" +:+ inner +:+ "}") = Some data
           | Raise JSONDecodeError =>
               exists pre ws1 ws2 inner ws3 post,
                 all_space ws1 = true /\ all_space ws2 = true
                 /\ all_space ws3 = true
                 /\ html = pre +:+ "window.__data" +:+ ws1 +:+ "=" +:+ ws2
                           +:+ ("{" +:+ inner +:+ "}") +:+ ws3 +:+ ";" +:+ post
                 /\ json_data w ("{" +:+ inner +:+ "}") = None
           | Raise (RuntimeError _) => ~ data_block_in html
           | Raise _ => False
           end
  end.
Proof.
  cbv zeta. unfold fetch_chapter_data. cbv zeta.
  destruct (http_get w (chapter_url base_url chapter)) as [resp|];
    [|reflexivity].
  destruct (status_code resp =? 404); cbn [orb]; [split; eauto|].
  destruct (contains unavailable_marker (body resp)); [split; eauto|].
  cbn [fst snd]. split; [reflexivity|]. split.
  - unfold extraction_body.
    destruct (http_get w (view_source_url base_url chapter)) as [vs|];
      [|now left].
    destruct (raise_for_status vs) as [[]|e] eqn:Ers; [|now left].
    right. exists vs. now repeat split.
  - set (html := extraction_body w base_url chapter (body resp)).
    destruct (re_search_data html) as [g|] eqn:Eg.
    + destruct (re_search_data_exact _ _ Eg)
        as (pre & ws1 & ws2 & inner & ws3 & post & H1 & H2 & H3 & -> & Hs).
      destruct (json_data w _) as [data|] eqn:Ej;
        exists pre, ws1, ws2, inner, ws3, post; repeat split; assumption.
    + intros Hblock. apply re_search_data_complete in Hblock.
      destruct Hblock as [g Hg]. congruence.
Qed.

End ChapterPage.

(** ** app.py: a downloaded chapter in the listing *)

Section Listing.
Import Utils FS Downloader App.

Lemma iterdir_entry (s : fs) (dir loc0 : path) (c : string) (n : node) :
  walk s [] dir = Some loc0 ->
  is_dir_at s loc0 = true ->
  node_at s (loc0 ++ [c]) = Some n ->
  exists listing,
    Storage.iterdir s dir = Ok listing
    /\ In {| Scheduler.entry_name := c;
             Scheduler.entry_is_dir :=
               match n with Dir => true | File _ => false end |} listing.
Proof.
  intros Hwalk Hdir Hnode. unfold Storage.iterdir. rewrite Hwalk, Hdir.
  eexists. split; [reflexivity|].
  apply list_elem_of_In, list_elem_of_omap. exists (loc0 ++ [c], n). split.
  - apply elem_of_map_to_list. now rewrite <- node_at_lookup.
  - unfold Storage.child_of. cbn [fst snd].
    destruct (loc0 ++ [c]) as [|x l] eqn:E; [now apply app_eq_nil in E|].
    rewrite <- E, removelast_last, last_last.
    now rewrite bool_decide_eq_true_2.
Qed.

Lemma ends_with_app (suffix a : string) : ends_with suffix (a +:+ suffix) = true.
Proof.
  induction a as [|c a IH].
  - change ("" +:+ suffix) with suffix. destruct suffix; cbn [ends_with];
      now rewrite String.eqb_refl.
  - rewrite app_cons_s. cbn [ends_with]. rewrite IH. apply orb_true_r.
Qed.

Lemma glob_spec (matches : string -> bool) (s : fs) (dir q : path) :
  In q (glob matches s dir)
  <-> exists listing e,
        Storage.iterdir s dir = Ok listing /\ In e listing
        /\ matches (Scheduler.entry_name e) = true
        /\ q = dir ++ [Scheduler.entry_name e].
Proof.
  unfold glob. destruct (Storage.iterdir s dir) as [listing|err].
  - rewrite in_map_iff. split.
    + intros (e & <- & He). apply filter_In in He. exists listing, e. tauto.
    + intros (l & e & [= <-] & He & Hm & ->). exists e.
      split; [reflexivity|]. apply filter_In. now split.
  - split; [intros [] | intros (l & e & H & _); discriminate H].
Qed.

Lemma list_item_ok (u : string -> option Z) (s : fs) (storage_dir : path)
    (name : string) :
  exists o, list_item u s storage_dir name = Ok o.
Proof.
  unfold list_item. cbv zeta.
  destruct (negb (is_dir s (storage_dir ++ [name]))); [eauto|].
  destruct (Py.int u name) as [n|]; [|eauto].
  destruct (glob (ends_with ".epub") s (storage_dir ++ [name]))
    as [|epub0 rest] eqn:Eg; [eauto|].
  assert (In epub0 (glob (ends_with ".epub") s (storage_dir ++ [name]))) as Hin
    by (rewrite Eg; now left).
  apply glob_spec in Hin. destruct Hin as (l & e & _ & _ & _ & ->).
  rewrite <- app_assoc, relative_to_app. cbn [mbind result_bind]. eauto.
Qed.

Lemma mapM_result_ok {A B : Type} (f : A -> result B) (l : list A) :
  (forall x, exists y, f x = Ok y) ->
  exists ys, mapM f l = Ok ys /\ Forall2 (fun x y => f x = Ok y) l ys.
Proof.
  intros Hf. induction l as [|x l (ys & Hys & Hall)].
  - exists []. split; [reflexivity | constructor].
  - destruct (Hf x) as [y Hy]. exists (y :: ys). cbn [mapM].
    rewrite Hy. cbn [mbind result_bind]. rewrite Hys. cbn [mbind result_bind].
    split; [reflexivity | now constructor].
Qed.

Lemma Forall2_In_l {A B : Type} (R : A -> B -> Prop) (l : list A) (k : list B)
    (x : A) :
  Forall2 R l k -> In x l -> exists y, In y k /\ R x y.
Proof.
  induction 1 as [|a b l k Hab _ IH]; [intros []|].
  intros [->|Hx]; [exists b; split; [now left | exact Hab]|].
  destruct (IH Hx) as (y & Hy & Hxy). exists y. split; [now right | exact Hxy].
Qed.

(** Where a successful [download_chapter] leaves the chapter directory
    and the package. *)
Lemma download_chapter_layout (w : remote) (d : disk) (storage_dir : path)
    (base_url : string) (chapter : Z) (s s' : fs) (log : list event) (p : path) :
  download_chapter w d storage_dir base_url chapter s = (s', log, Ok p) ->
  exists loc0 bytes,
    walk s' [] storage_dir = Some loc0
    /\ is_dir_at s' loc0 = true
    /\ is_dir_at s' (loc0 ++ [pretty chapter]) = true
    /\ node_at s' ((loc0 ++ [pretty chapter]) ++ [epub_name chapter])
       = Some (File bytes).
Proof.
  intros H.
  destruct (download_chapter_ok_inv _ _ _ _ _ _ _ _ _ H)
    as (data & t & pages & s1 & s2 & s2' & log1 & book
        & _ & _ & Hmk & Hdl & _ & Hmk2 & Hw & Hp & _).
  destruct (chapter_paths storage_dir chapter) as (_ & Himg & Hepub).
  rewrite Himg in *. rewrite Hepub in Hp.
  destruct (download_pages_ok _ _ _ _ _ _ _ _ Hdl) as (_ & Hg12 & _).
  pose proof (mkdir_from_grows _ _ _ _ Hmk2) as Hg22.
  pose proof (write_file_grows _ _ _ _ _ _ Hw) as Hg23.
  assert (grows s1 s2') as Hg1 by (eapply grows_trans; eassumption).
  destruct (mkdir_from_is_dir _ s [] s1 eq_refl Hmk) as (loc & Hwalk & _).
  change (storage_dir ++ [pretty chapter; "images"])
    with (storage_dir ++ [pretty chapter] ++ ["images"]) in Hwalk.
  rewrite walk_app in Hwalk.
  destruct (walk s1 [] storage_dir) as [loc0|] eqn:Ew0;
    cbn [mbind option_bind] in Hwalk; [|discriminate Hwalk].
  cbn [app walk] in Hwalk.
  destruct (is_dir_at s1 loc0) eqn:Ed0; [|discriminate Hwalk].
  destruct (is_dir_at s1 (step loc0 (pretty chapter))) eqn:Ed1;
    [|discriminate Hwalk].
  destruct (pretty_component chapter) as (_ & _ & Hup).
  unfold step in Ed1. apply String.eqb_neq in Hup. rewrite Hup in Ed1.
  apply (grows_is_dir_at s1 s2' _ Hg1) in Ed0, Ed1.
  apply (walk_grows s1 s2' _ Hg1) in Ew0.
  assert (walk s2' [] p
          = Some ((loc0 ++ [pretty chapter]) ++ [epub_name chapter])) as Hwp.
  { subst p.
    change (storage_dir ++ [pretty chapter; epub_name chapter])
      with (storage_dir ++ [pretty chapter; epub_name chapter] ++ []).
    rewrite walk_app, Ew0. cbn [mbind option_bind app walk].
    assert (step loc0 (pretty chapter) = loc0 ++ [pretty chapter]) as ->
      by (unfold step; now rewrite Hup).
    rewrite Ed0, Ed1. reflexivity. }
  exists loc0.
  destruct (write_file_cases (write_fault d p) s2' p (epub_bytes d book))
    as [(e & He & _)|(loc' & Hwalk' & Hn & Hcase)].
  { rewrite He in Hw. discriminate Hw. }
  destruct (write_fault d p) as [n|].
  { destruct Hcase as [e He]. rewrite He in Hw. discriminate Hw. }
  rewrite Hcase in Hw. injection Hw as <-. rewrite Hwp in Hwalk'.
  injection Hwalk' as <-. exists (epub_bytes d book).
  pose proof (grows_insert_file s2' _ (epub_bytes d book) Hn) as Hg.
  split; [exact (walk_grows _ _ _ Hg _ _ Ew0)|].
  split; [exact (grows_is_dir_at _ _ _ Hg Ed0)|].
  split; [exact (grows_is_dir_at _ _ _ Hg Ed1)|].
  rewrite node_at_insert by now apply node_at_not_root in Hn.
  now rewrite decide_True.
Qed.

(** What was downloaded is listed and served. After a successful
    [download_chapter], [GET /api/chapters] answers with a list in
    ascending order of chapter number that holds an element for the
    chapter, titled [Kapitel <chapter>], whose package path is
    [<chapter>/<name>] for a name ending in [.epub]; and
    [GET /api/chapters/{chapter}/epub] serves a file of such a name from
    the chapter directory, not a 404. This holds whatever the interpreter
    makes of names outside ASCII. *)
Theorem downloaded_chapter_is_listed (u : string -> option Z) (w : remote)
    (d : disk) (storage_dir : path) (base_url : string) (chapter : Z)
    (s s' : fs) (log : list event) (p : path) :
  download_chapter w d storage_dir base_url chapter s = (s', log, Ok p) ->
  (exists items item f,
      list_chapters u s' storage_dir = Returned 200 items
      /\ StronglySorted (fun a b => item_chapter a <= item_chapter b) items
      /\ In item items
      /\ item_chapter item = chapter
      /\ item_title item = "Kapitel " +:+ pretty chapter
      /\ item_epub item = pretty chapter +:+ "/" +:+ f
      /\ ends_with ".epub" f = true)
  /\ exists f,
       get_chapter_epub s' storage_dir chapter
       = Returned 200 (storage_dir ++ [pretty chapter; f])
       /\ ends_with ".epub" f = true.
Proof.
  intros H.
  destruct (download_chapter_layout _ _ _ _ _ _ _ _ _ H)
    as (loc0 & bytes & Hw0 & Hd0 & Hd1 & Hfile).
  destruct (pretty_component chapter) as (_ & _ & Hup).
  apply String.eqb_neq in Hup.
  assert (node_at s' (loc0 ++ [pretty chapter]) = Some Dir) as Hnode.
  { unfold is_dir_at in Hd1.
    now destruct (node_at s' (loc0 ++ [pretty chapter])) as [[]|]. }
  destruct (iterdir_entry s' storage_dir loc0 (pretty chapter) Dir Hw0 Hd0 Hnode)
    as (listing & Hlist & Hin).
  assert (walk s' [] (storage_dir ++ [pretty chapter])
          = Some (loc0 ++ [pretty chapter])) as Hw1.
  { rewrite walk_app, Hw0. cbn [mbind option_bind walk]. rewrite Hd0.
    unfold step. now rewrite Hup. }
  destruct (iterdir_entry s' (storage_dir ++ [pretty chapter])
              (loc0 ++ [pretty chapter]) (epub_name chapter) (File bytes)
              Hw1 Hd1 Hfile) as (listing2 & Hlist2 & Hin2).
  assert (In ((storage_dir ++ [pretty chapter]) ++ [epub_name chapter])
            (glob (ends_with ".epub") s' (storage_dir ++ [pretty chapter])))
    as Hglob.
  { apply glob_spec. eexists listing2, _.
    split; [exact Hlist2|]. split; [exact Hin2|]. split; [|reflexivity].
    cbn [Scheduler.entry_name]. unfold epub_name.
    rewrite <- string_app_assoc. apply ends_with_app. }
  destruct (glob (ends_with ".epub") s' (storage_dir ++ [pretty chapter]))
    as [|q0 rest] eqn:Eg; [destruct Hglob|]. clear Hglob.
  assert (In q0 (glob (ends_with ".epub") s' (storage_dir ++ [pretty chapter])))
    as Hq0 by (rewrite Eg; now left).
  apply glob_spec in Hq0. destruct Hq0 as (l & e & _ & _ & Hends & Hq0).
  set (f := Scheduler.entry_name e) in *.
  split.
  - set (item := {| item_chapter := chapter;
                    item_title := "Kapitel " +:+ pretty chapter;
                    item_epub := pretty chapter +:+ "/" +:+ f;
                    item_pages :=
                      if exists_ s' (joinpath (storage_dir ++ [pretty chapter])
                                       "images")
                      then Z.of_nat
                             (length (glob (contains ".") s'
                                        (joinpath
                                           (storage_dir ++ [pretty chapter])
                                           "images")))
                      else 0 |}).
    assert (list_item u s' storage_dir (pretty chapter) = Ok (Some item))
      as Hitem.
    { unfold list_item. cbv zeta.
      assert (is_dir s' (storage_dir ++ [pretty chapter]) = true) as ->.
      { unfold is_dir, stat. rewrite Hw1. cbn [mbind option_bind].
        now rewrite Hnode. }
      cbn [negb]. rewrite int_pretty, Eg, Hq0.
      rewrite <- app_assoc, relative_to_app. reflexivity. }
    unfold list_chapters. rewrite Hlist. cbn [mbind result_bind].
    destruct (mapM_result_ok
                (fun e => list_item u s' storage_dir (Scheduler.entry_name e))
                (sorted Scheduler.entry_name String.leb listing)
                (fun e => list_item_ok u s' storage_dir (Scheduler.entry_name e)))
      as (found & Hfound & Hall).
    rewrite Hfound. cbn [mbind result_bind].
    eexists _, item, f. split; [reflexivity|]. split; [|split].
    + pose proof (sorted_sorted item_chapter Z.leb) as Hs.
      eapply StronglySorted_weaken.
      2:{ apply Hs; intros; rewrite ?Z.leb_le in *; lia. }
      intros a b Hab. unfold key_le in Hab. lia.
    + apply list_elem_of_In. rewrite sorted_perm.
      apply list_elem_of_omap. exists (Some item). split; [|reflexivity].
      apply list_elem_of_In in Hin.
      rewrite <- (sorted_perm Scheduler.entry_name String.leb listing) in Hin.
      apply list_elem_of_In in Hin.
      destruct (Forall2_In_l _ _ _ _ Hall Hin) as (y & Hy & Hxy).
      cbn [Scheduler.entry_name] in Hxy. rewrite Hitem in Hxy.
      injection Hxy as <-. now apply list_elem_of_In.
    + repeat split. exact Hends.
  - exists f. split; [|exact Hends].
    unfold get_chapter_epub.
    destruct (chapter_paths storage_dir chapter) as (Hdir & _).
    unfold chapter_dir_of in Hdir. rewrite Hdir, Eg, Hq0.
    now rewrite <- app_assoc.
Qed.

Lemma downloaded_chapter_is_listed_witness :
  exists f,
    get_chapter_epub
      (fst (fst (download_chapter Examples.chapter_site Examples.good_disk
                   ["data"] "https://onepiece.tube" 1156 ∅)))
      ["data"] 1156
    = Returned 200 ["data"; "1156"; f]
    /\ ends_with ".epub" f = true.
Proof.
  set (run := download_chapter Examples.chapter_site Examples.good_disk
                ["data"] "https://onepiece.tube" 1156 ∅).
  assert (snd run = Ok ["data"; "1156"; "onepiece_1156.epub"]) as Hok
    by (vm_compute; reflexivity).
  pose proof (triple_eta run) as Hrun. rewrite Hok in Hrun.
  exact (proj2 (downloaded_chapter_is_listed Examples.ascii_only
                  _ _ _ _ _ _ _ _ _ Hrun)).
Defined.

Lemma iterdir_inv (s : fs) (dir : path) (listing : list Scheduler.dir_entry)
    (e : Scheduler.dir_entry) :
  Storage.iterdir s dir = Ok listing -> In e listing ->
  exists loc n,
    walk s [] dir = Some loc /\ is_dir_at s loc = true
    /\ node_at s (loc ++ [Scheduler.entry_name e]) = Some n.
Proof.
  unfold Storage.iterdir. destruct (walk s [] dir) as [loc|]; [|discriminate].
  destruct (is_dir_at s loc) eqn:Ed; [|discriminate].
  intros [= <-] Hin. apply list_elem_of_In, list_elem_of_omap in Hin.
  destruct Hin as ([k n] & Hk & He). apply elem_of_map_to_list in Hk.
  unfold Storage.child_of in He. cbn [fst snd] in He.
  destruct k as [|x k'] eqn:Ek; [discriminate He|]. rewrite <- Ek in *.
  case_bool_decide as Hloc; [|discriminate He]. injection He as <-.
  cbn [Scheduler.entry_name]. exists loc, n.
  split; [reflexivity|]. split; [exact Ed|].
  assert (k <> []) as Hne by (rewrite Ek; discriminate).
  rewrite <- Hloc, <- (app_removelast_last "" Hne).
  rewrite Ek in *. exact Hk.
Qed.

Lemma Forall2_In_r {A B : Type} (R : A -> B -> Prop) (l : list A) (k : list B)
    (y : B) :
  Forall2 R l k -> In y k -> exists x, In x l /\ R x y.
Proof.
  induction 1 as [|a b l k Hab _ IH]; [intros []|].
  intros [->|Hy]; [exists a; split; [now left | exact Hab]|].
  destruct (IH Hy) as (x & Hx & Hxy). exists x. split; [now right | exact Hxy].
Qed.

(** What an element of the listing stands for. *)
Lemma list_item_some (u : string -> option Z) (s : fs) (storage_dir : path)
    (name : string) (item : chapter_item) :
  list_item u s storage_dir name = Ok (Some item) ->
  exists f,
    is_dir s (storage_dir ++ [name]) = true
    /\ Py.int u name = Some (item_chapter item)
    /\ item_title item = "Kapitel " +:+ pretty (item_chapter item)
    /\ item_epub item = name +:+ "/" +:+ f
    /\ ends_with ".epub" f = true
    /\ exists_ s (storage_dir ++ [name; f]) = true.
Proof.
  unfold list_item. cbv zeta.
  destruct (is_dir s (storage_dir ++ [name])) eqn:Edir; cbn [negb];
    [|discriminate].
  destruct (Py.int u name) as [n|]; [|discriminate].
  destruct (glob (ends_with ".epub") s (storage_dir ++ [name]))
    as [|q0 rest] eqn:Eg; [discriminate|].
  assert (In q0 (glob (ends_with ".epub") s (storage_dir ++ [name]))) as Hq0
    by (rewrite Eg; now left).
  apply glob_spec in Hq0. destruct Hq0 as (l & e & Hl & He & Hends & ->).
  rewrite <- app_assoc, relative_to_app. cbn [mbind result_bind].
  intros [= <-]. cbn [item_chapter item_title item_epub].
  exists (Scheduler.entry_name e). repeat split; try assumption.
  destruct (iterdir_inv _ _ _ _ Hl He) as (loc & nd & Hw & Hd & Hn).
  unfold exists_, stat.
  change (storage_dir ++ [name; Scheduler.entry_name e])
    with (storage_dir ++ [name] ++ [Scheduler.entry_name e]).
  rewrite app_assoc, walk_app, Hw. cbn [mbind option_bind walk]. rewrite Hd.
  assert (step loc (Scheduler.entry_name e) = loc ++ [Scheduler.entry_name e])
    as ->.
  { unfold step.
    destruct (String.eqb_spec (Scheduler.entry_name e) "..") as [E|];
      [|reflexivity].
    rewrite E in Hends. discriminate Hends. }
  cbn [mbind option_bind]. now rewrite Hn.
Qed.

(** [GET /api/chapters] lists nothing that is not there. The handler lets
    an exception through exactly when the storage directory is no
    directory (it is absent or a file), and the exception is the one of
    listing it. Otherwise it answers with a list in ascending order of
    chapter number, and every element stands for a directory of the storage
    directory whose name [int] reads as the chapter number and that holds
    an entry with a name ending in [.epub]: the title is [Kapitel <number>]
    and the package path is [<directory>/<entry>]. *)
Theorem list_chapters_sound (u : string -> option Z) (s : fs)
    (storage_dir : path) :
  match list_chapters u s storage_dir with
  | Returned status items =>
      status = 200
      /\ is_dir s storage_dir = true
      /\ StronglySorted (fun a b => item_chapter a <= item_chapter b) items
      /\ Forall (fun item =>
                   exists name f,
                     is_dir s (storage_dir ++ [name]) = true
                     /\ Py.int u name = Some (item_chapter item)
                     /\ item_title item
                        = "Kapitel " +:+ pretty (item_chapter item)
                     /\ item_epub item = name +:+ "/" +:+ f
                     /\ ends_with ".epub" f = true
                     /\ exists_ s (storage_dir ++ [name; f]) = true) items
  | HTTPException _ _ => False
  | Unhandled e =>
      is_dir s storage_dir = false
      /\ Storage.iterdir s storage_dir = Raise e
  end.
Proof.
  assert (is_dir s storage_dir
          = match Storage.iterdir s storage_dir with
            | Ok _ => true
            | Raise _ => false
            end) as Hdir.
  { unfold Storage.iterdir, is_dir, stat, is_dir_at.
    destruct (walk s [] storage_dir) as [loc|]; [|reflexivity].
    cbn [mbind option_bind]. now destruct (node_at s loc) as [[]|]. }
  unfold list_chapters.
  destruct (Storage.iterdir s storage_dir) as [listing|e] eqn:El;
    cbn [mbind result_bind]; [|now split].
  destruct (mapM_result_ok
              (fun e => list_item u s storage_dir (Scheduler.entry_name e))
              (sorted Scheduler.entry_name String.leb listing)
              (fun e => list_item_ok u s storage_dir (Scheduler.entry_name e)))
    as (found & Hfound & Hall).
  rewrite Hfound. cbn [mbind result_bind].
  split; [reflexivity|]. split; [exact Hdir|]. split.
  - pose proof (sorted_sorted item_chapter Z.leb) as Hs.
    eapply StronglySorted_weaken.
    2:{ apply Hs; intros; rewrite ?Z.leb_le in *; lia. }
    intros a b Hab. unfold key_le in Hab. lia.
  - apply Forall_forall. intros item Hitem.
    rewrite sorted_perm in Hitem. apply list_elem_of_omap in Hitem.
    destruct Hitem as (o & Ho & Hid). cbn in Hid. subst o.
    apply list_elem_of_In in Ho.
    destruct (Forall2_In_r _ _ _ _ Hall Ho) as (x & _ & Hx).
    destruct (list_item_some _ _ _ _ _ Hx) as (f & H). eauto.
Qed.

End Listing.
